(** * Pure Freecell: the rules engine of [logic.go], embedded and verified.

    The Go code works on [uint] (64-bit, wrap-around) and [int] values, on a
    fixed array [[52]uint] mapping each card id to a board location, and on a
    history stack of such arrays.  Unsigned values are modelled as [Z] with the
    wrap-around written out where the code subtracts or adds board
    locations, picks and generator states (sums of card fields and loop
    indices stay below 64 and are written plain), arrays as lists read with
    [aget] and written with [aset], and the receiver [*logic] as a record
    that every method takes and returns.  Indexing the history stack is the
    one place where the code can fail at run time; it is modelled with
    [option].  Logging calls have no effect on the state and are left out. *)

From Stdlib Require Import String ZArith List Bool Lia Permutation.
Import ListNotations.
Open Scope Z_scope.

(** ** Machine integers and arrays *)

(** [uint] arithmetic wraps modulo 2^64. *)
Definition wrap (x : Z) : Z := x mod 2 ^ 64.

(** [a[i]] for an index that the code keeps in range. *)
Definition aget {A : Type} (d : A) (a : list A) (i : Z) : A :=
  nth (Z.to_nat i) a d.

Fixpoint upd {A : Type} (a : list A) (n : nat) (v : A) : list A :=
  match a, n with
  | [], _ => []
  | _ :: t, O => v :: t
  | h :: t, S n' => h :: upd t n' v
  end.

(** [a[i] = v] on a (copied) array. *)
Definition aset {A : Type} (a : list A) (i : Z) (v : A) : list A :=
  upd a (Z.to_nat i) v.

(** [for cid := AC; cid <= KS; cid++]: the card ids in loop order. *)
Definition card_ids : list Z := map Z.of_nat (seq 0 52).

(** ** Constants of [logic.go] *)

Definition BLK : Z := 0.
Definition RED : Z := 1.

Definition CLB : Z := 0.
Definition DMD : Z := 1.
Definition HRT : Z := 2.
Definition SPD : Z := 3.

Definition ACES : Z := 0.
Definition KING : Z := 12.

Definition AC : Z := 0.
Definition KC : Z := 48.
Definition KD : Z := 49.
Definition KH : Z := 50.
Definition KS : Z := 51.

Definition FC : Z := 4.
Definition FD : Z := 5.
Definition FH : Z := 6.
Definition FS : Z := 7.

Definition HIDDEN_CARD : Z := 9999.
Definition NO_CARD : Z := 999.
Definition EMPTY_PILE1 : Z := 100.
Definition EMPTY_PILE16 : Z := 115.
Definition MAX_BOARD_ID : Z := 167.
Definition MAX_SEED : Z := 999999.
Definition RAND_MAX_32 : Z := 2 ^ 31 - 1.

(** ** Cards *)

Record Card : Type := mkCard
  { ID : Z; Suit : Z; Rank : Z; Color : Z; Sym : string }.

Definition deck : list Card :=
  [ mkCard 0 CLB 0 BLK "AC"; mkCard 1 DMD 0 RED "AD";
    mkCard 2 HRT 0 RED "AH"; mkCard 3 SPD 0 BLK "AS";
    mkCard 4 CLB 1 BLK "2C"; mkCard 5 DMD 1 RED "2D";
    mkCard 6 HRT 1 RED "2H"; mkCard 7 SPD 1 BLK "2S";
    mkCard 8 CLB 2 BLK "3C"; mkCard 9 DMD 2 RED "3D";
    mkCard 10 HRT 2 RED "3H"; mkCard 11 SPD 2 BLK "3S";
    mkCard 12 CLB 3 BLK "4C"; mkCard 13 DMD 3 RED "4D";
    mkCard 14 HRT 3 RED "4H"; mkCard 15 SPD 3 BLK "4S";
    mkCard 16 CLB 4 BLK "5C"; mkCard 17 DMD 4 RED "5D";
    mkCard 18 HRT 4 RED "5H"; mkCard 19 SPD 4 BLK "5S";
    mkCard 20 CLB 5 BLK "6C"; mkCard 21 DMD 5 RED "6D";
    mkCard 22 HRT 5 RED "6H"; mkCard 23 SPD 5 BLK "6S";
    mkCard 24 CLB 6 BLK "7C"; mkCard 25 DMD 6 RED "7D";
    mkCard 26 HRT 6 RED "7H"; mkCard 27 SPD 6 BLK "7S";
    mkCard 28 CLB 7 BLK "8C"; mkCard 29 DMD 7 RED "8D";
    mkCard 30 HRT 7 RED "8H"; mkCard 31 SPD 7 BLK "8S";
    mkCard 32 CLB 8 BLK "9C"; mkCard 33 DMD 8 RED "9D";
    mkCard 34 HRT 8 RED "9H"; mkCard 35 SPD 8 BLK "9S";
    mkCard 36 CLB 9 BLK "TC"; mkCard 37 DMD 9 RED "TD";
    mkCard 38 HRT 9 RED "TH"; mkCard 39 SPD 9 BLK "TS";
    mkCard 40 CLB 10 BLK "JC"; mkCard 41 DMD 10 RED "JD";
    mkCard 42 HRT 10 RED "JH"; mkCard 43 SPD 10 BLK "JS";
    mkCard 44 CLB 11 BLK "QC"; mkCard 45 DMD 11 RED "QD";
    mkCard 46 HRT 11 RED "QH"; mkCard 47 SPD 11 BLK "QS";
    mkCard 48 CLB 12 BLK "KC"; mkCard 49 DMD 12 RED "KD";
    mkCard 50 HRT 12 RED "KH"; mkCard 51 SPD 12 BLK "KS" ]%string.

(** [InvalidCard]: the unset fields are Go's zero values. *)
Definition InvalidCard : Card := mkCard NO_CARD 0 0 0 "--".

Definition isCard (cardID : Z) : bool := (AC <=? cardID) && (cardID <=? KS).

Definition getCard (cardID : Z) : Card :=
  if isCard cardID then aget InvalidCard deck cardID else InvalidCard.

(** ** The classic generator and the shuffle *)

(** [srand]: the global register [rseed] is threaded as a value. *)
Definition srand (x : Z) : Z := x.

(** [randClassic]: the new register and the value returned. *)
Definition randClassic (rseed : Z) : Z * Z :=
  let rseed' := Z.land (wrap (rseed * 214013 + 2531011)) RAND_MAX_32 in
  (rseed', Z.shiftr rseed' 16).

Record shuffle_state : Type := mkShuffle
  { sh_deck : list Z; sh_deal : list Z; sh_dealt : Z;
    sh_remainder : Z; sh_rseed : Z }.

(** The first loop of [shuffle]: [deck[cid] = cid; deal[cid] = NO_CARD]. *)
Definition shuffle_init (seed : Z) : shuffle_state :=
  let zero := repeat 0 52 in
  let init := fold_left
    (fun (dd : list Z * list Z) cid =>
       (aset (fst dd) cid cid, aset (snd dd) cid NO_CARD))
    card_ids (zero, zero) in
  mkShuffle (fst init) (snd init) 0 52 (srand seed).

(** One pass of the body of the dealing loop. *)
Definition shuffle_step (st : shuffle_state) : shuffle_state :=
  let '(rseed, r) := randClassic (sh_rseed st) in
  let j := r mod sh_remainder st in
  let deal := aset (sh_deal st) (sh_dealt st) (aget 0 (sh_deck st) j) in
  let dealt := sh_dealt st + 1 in
  let remainder := wrap (sh_remainder st - 1) in
  let deck := aset (sh_deck st) j (aget 0 (sh_deck st) remainder) in
  mkShuffle deck deal dealt remainder rseed.

(** [for i := 0; i < len(deck); i++]: the body runs [n] times. *)
Fixpoint shuffle_loop (n : nat) (st : shuffle_state) : shuffle_state :=
  match n with
  | O => st
  | S n' => shuffle_loop n' (shuffle_step st)
  end.

Definition shuffle (seed : Z) (ordered : list Card) : list Card :=
  let st := shuffle_loop 52 (shuffle_init seed) in
  map (fun i => aget InvalidCard ordered (aget 0 (sh_deal st) i)) card_ids.

(** *** The reference algorithm, as the specification words it *)

Definition lcg_next (state : Z) : Z :=
  Z.land (state * 214013 + 2531011) 2147483647.

Definition lcg_draw (state : Z) : Z := Z.shiftr state 16.

(** [n] draws from the working array: emit [work[j]], overwrite it with
    [work[remainder-1]], decrement [remainder]. *)
Fixpoint ref_emit (n : nat) (state : Z) (work : list Z) (remainder : Z)
  : list Z :=
  match n with
  | O => []
  | S n' =>
      let state' := lcg_next state in
      let j := lcg_draw state' mod remainder in
      aget 0 work j ::
      ref_emit n' state' (aset work j (aget 0 work (remainder - 1)))
               (remainder - 1)
  end.

Definition shuffle_ref (seed : Z) (ordered : list Card) : list Card :=
  map (fun id => aget InvalidCard ordered id) (ref_emit 52 seed card_ids 52).

(** ** Move history *)

Definition Board : Type := list Z.

Record moves : Type := mkMoves { stack : list Board; undos : Z }.

(** [record]: push a copy of the board. *)
Definition record (mv : moves) (move : Board) : moves :=
  mkMoves (stack mv ++ [move]) (undos mv).

(** [undo]: pop when more than one snapshot remains, then return the top.
    Indexing [mv.stack[len(mv.stack)-1]] panics on an empty stack: [None]. *)
Definition undo (mv : moves) : option (moves * Board) :=
  let mv' :=
    if 1 <? Z.of_nat (length (stack mv))
    then mkMoves (removelast (stack mv)) (undos mv + 1)
    else mv in
  match rev (stack mv') with
  | [] => None
  | top :: _ => Some (mv', top)
  end.

Definition reset (mv : moves) : moves := mkMoves [] 0.

Definition count (mv : moves) : Z :=
  Z.of_nat (length (stack mv)) + undos mv * 2.

(** ** Game state *)

(** The struct [logic]; its field [moves] is named [mvs] here, next to the
    type [moves]. *)
Record logic : Type := mkLogic
  { selected : Z; gameSeed : Z; deal : list Card; board : Board;
    mvs : moves }.

Definition with_selected (l : logic) (s : Z) : logic :=
  mkLogic s (gameSeed l) (deal l) (board l) (mvs l).

Definition with_board (l : logic) (b : Board) : logic :=
  mkLogic (selected l) (gameSeed l) (deal l) b (mvs l).

Definition with_moves (l : logic) (m : moves) : logic :=
  mkLogic (selected l) (gameSeed l) (deal l) (board l) m.

(** [l.board[cid]]. *)
Definition bget (l : logic) (cid : Z) : Z := aget 0 (board l) cid.

(** [l.board[cid] = v]. *)
Definition bset (l : logic) (cid v : Z) : logic :=
  with_board l (aset (board l) cid v).

(** [l.moves.record(l.board)]. *)
Definition record_board (l : logic) : logic :=
  with_moves l (record (mvs l) (board l)).

Definition clearSelected (l : logic) : logic := with_selected l NO_CARD.

Definition isCascade (boardID : Z) : bool :=
  (8 <=? boardID) && (boardID <=? MAX_BOARD_ID).
Definition isFoundation (boardID : Z) : bool :=
  (4 <=? boardID) && (boardID <=? 7).
Definition isFreecell (boardID : Z) : bool :=
  (0 <=? boardID) && (boardID <=? 3).

Definition isSelectionActive (l : logic) : bool := isCard (selected l).

(** [cardAt]: the first card id, in id order, stored at the location. *)
Fixpoint cardAt_scan (l : logic) (boardPosition : Z) (cids : list Z) : Z :=
  match cids with
  | [] => NO_CARD
  | cid :: rest =>
      if bget l cid =? boardPosition then cid
      else cardAt_scan l boardPosition rest
  end.

Definition cardAt (l : logic) (boardPosition : Z) : Z :=
  cardAt_scan l boardPosition card_ids.

Definition isLastInCascade (l : logic) (cardID : Z) : bool :=
  let boardLocation := bget l cardID in
  if (8 <=? boardLocation) && (boardLocation <=? MAX_BOARD_ID)
  then cardAt l (wrap (boardLocation + 8)) =? NO_CARD
  else false.

Fixpoint lastInCascade_scan (l : logic) (cascadeID : Z) (cids : list Z)
  : Card :=
  match cids with
  | [] => InvalidCard
  | cid :: rest =>
      let boardLocation := bget l cid in
      if isLastInCascade l cid && (cascadeID =? boardLocation mod 8)
      then aget InvalidCard deck cid
      else lastInCascade_scan l cascadeID rest
  end.

Definition lastInCascade (l : logic) (cascadeID : Z) : Card :=
  lastInCascade_scan l cascadeID card_ids.

(** [emptyPile]: the [slog.Error] branch only logs. *)
Definition emptyPile (l : logic) (pileID : Z) : bool :=
  if (0 <=? pileID) && (pileID <=? 15)
  then forallb (fun cid => negb (bget l cid =? pileID)) card_ids
  else false.

Definition countEmptyCells (l : logic) (piles : list Z) : Z :=
  fold_left (fun empty pileID =>
               if emptyPile l pileID then empty + 1 else empty) piles 0.

Definition emptyFreeCells (l : logic) : Z :=
  countEmptyCells l [0; 1; 2; 3].

Definition emptyCascades (l : logic) : Z :=
  countEmptyCells l [8; 9; 10; 11; 12; 13; 14; 15].

(** [b.Rank == a.Rank - 1] on [uint]: the subtraction wraps at an ace. *)
Definition nextInSequence (a b : Card) : bool :=
  (Rank b =? wrap (Rank a - 1)) && negb (Color b =? Color a).

Definition isNextInFoundation (suit : Z) (a b : Card) : bool :=
  if SPD <? suit then false
  else
    let onEmpty := (ID a =? NO_CARD) && (Suit b =? suit) && (Rank b =? ACES) in
    let onCard := negb (ID a =? NO_CARD) && (Suit b =? suit)
                  && (Rank b =? Rank a + 1) in
    onEmpty || onCard.

Definition movableStackSize (l : logic) (isEmptyCascadeUsed : bool) : Z :=
  let emptyCascades0 := emptyCascades l in
  if emptyCascades0 <=? 0 then emptyFreeCells l + 1
  else
    let emptyCascades1 :=
      if isEmptyCascadeUsed then emptyCascades0 - 1 else emptyCascades0 in
    if 0 <? emptyCascades1 then
      let extraCascades := emptyCascades1 - 1 in
      2 * (emptyFreeCells l + 1 + extraCascades)
    else emptyFreeCells l + 1.

Definition len (v : list Z) : Z := Z.of_nat (length v).

(** The loop of [GetSelected]; it stops by itself once [len(v)] reaches
    [maxCascade], so ten passes are always enough. *)
Fixpoint GetSelected_loop (fuel : nat) (l : logic)
  (cardID nextCardID : Z) (v : list Z) : list Z :=
  match fuel with
  | O => v
  | S fuel' =>
      if negb (nextCardID =? NO_CARD)
         && nextInSequence (getCard cardID) (getCard nextCardID)
         && (len v <? 10)
      then
        let cardID' := nextCardID in
        let boardPosition := bget l cardID' in
        let nextCardID' := cardAt l (wrap (boardPosition + 8)) in
        GetSelected_loop fuel' l cardID' nextCardID' (v ++ [cardID'])
      else v
  end.

Definition GetSelected (l : logic) : list Z :=
  if negb (isSelectionActive l) then []
  else
    let v := [selected l] in
    let cardID := selected l in
    let boardPosition := bget l (selected l) in
    if isCascade boardPosition then
      let nextCardID := cardAt l (wrap (boardPosition + 8)) in
      GetSelected_loop 10 l cardID nextCardID v
    else v.

Definition isSelected (l : logic) (cardID : Z) : bool :=
  existsb (fun cid => cid =? cardID) (GetSelected l).

Fixpoint canMoveToCascade_scan (l : logic) (c : Card) (cascades : list Z)
  : bool :=
  match cascades with
  | [] => false
  | cascadeID :: rest =>
      let lastCardInCascade := lastInCascade l cascadeID in
      if negb (ID lastCardInCascade =? NO_CARD)
         && nextInSequence (getCard (ID lastCardInCascade)) c
      then true
      else canMoveToCascade_scan l c rest
  end.

Definition canMoveToCascade (l : logic) (cardID : Z) : bool :=
  canMoveToCascade_scan l (getCard cardID) [0; 1; 2; 3; 4; 5; 6; 7].

(** The loop of [getSequence]; the safety [break] at thirteen cards bounds
    it, so fourteen passes are always enough. *)
Fixpoint getSequence_loop (fuel : nat) (l : logic)
  (cardID nextCardID : Z) (v : list Z) : list Z :=
  match fuel with
  | O => v
  | S fuel' =>
      if negb (nextCardID =? NO_CARD)
         && nextInSequence (getCard cardID) (getCard nextCardID)
      then
        if 13 <=? len v then v
        else
          let v' := v ++ [nextCardID] in
          let boardPosition := bget l nextCardID in
          getSequence_loop fuel' l nextCardID
            (cardAt l (wrap (boardPosition + 8))) v'
      else v
  end.

Definition getSequence (l : logic) (cardID : Z) : list Z :=
  let boardPosition := bget l cardID in
  if isCascade boardPosition then
    let v := getSequence_loop 14 l cardID
               (cardAt l (wrap (boardPosition + 8))) [cardID] in
    let lastCard := last v NO_CARD in
    if negb (cardAt l (wrap (bget l lastCard + 8)) =? NO_CARD) then []
    else
      let needsEmptyCascade := negb (canMoveToCascade l (hd NO_CARD v)) in
      if movableStackSize l needsEmptyCascade <? len v then [] else v
  else if isFreecell boardPosition then [cardID]
  else [].

(** ** Legality of a pick *)

Definition canPlaceCard (l : logic) (pick : Z) : bool :=
  let selects := GetSelected l in
  if (EMPTY_PILE1 <=? pick) && (pick <=? EMPTY_PILE16) then
    let s := getCard (hd NO_CARD selects) in
    let pileID := wrap (pick - EMPTY_PILE1) in
    if isFreecell pileID && (len selects =? 1) then emptyPile l pileID
    else if isFoundation pileID && (len selects =? 1) then
      (Suit s =? wrap (pileID - 4)) && (Rank s =? ACES)
    else if (8 <=? pileID) && (pileID <=? 15) then emptyPile l pileID
    else false
  else
    let cardID := pick in
    if isCard cardID then
      let p := getCard cardID in
      let s := getCard (hd NO_CARD selects) in
      let boardPick := bget l cardID in
      if isFoundation boardPick && (len selects =? 1) then
        let suit := wrap (boardPick - 4) in
        isNextInFoundation suit p s
      else if isCascade boardPick then
        if isLastInCascade l cardID then nextInSequence p s else false
      else false
    else false.

Definition canSelectCard (l : logic) (pick : Z) : bool :=
  if negb (isCard pick) then false
  else
    let boardPick := bget l pick in
    if isFoundation boardPick then false
    else if isCascade boardPick || isFreecell boardPick then
      let seq := getSequence l pick in
      if len seq <=? 0 then false
      else
        let c := getCard (hd NO_CARD seq) in
        let single :=
          if len seq =? 1 then
            if 0 <? emptyFreeCells l then true
            else
              let foundationPileID := Suit c + 4 in
              if emptyPile l foundationPileID && (Rank c =? ACES) then true
              else
                let topCard := getCard (cardAt l foundationPileID) in
                isNextInFoundation (Suit c) topCard c
          else false in
        if single then true
        else if 0 <? emptyCascades l then true
        else canMoveToCascade l (hd NO_CARD seq)
    else false.

Definition canInteract (l : logic) (pick : Z) : bool :=
  if isSelectionActive l then canPlaceCard l pick else canSelectCard l pick.

(** ** Executing a move *)

(** [for i := 1; i < len(seq); i++ { board[seq[i]] = board[seq[i-1]] + 8 }]. *)
Fixpoint place_rest (l : logic) (prev : Z) (rest : list Z) : logic :=
  match rest with
  | [] => l
  | cid :: rest' =>
      place_rest (bset l cid (wrap (bget l prev + 8))) cid rest'
  end.

(** [board[seq[0]] = dest] followed by the loop above. *)
Definition place_seq (l : logic) (seq : list Z) (dest : Z) : logic :=
  match seq with
  | [] => l
  | c0 :: rest => place_rest (bset l c0 dest) c0 rest
  end.

Definition Interact (l : logic) (pick : Z) : logic * bool :=
  if negb (canInteract l pick) then
    let previousPick := selected l in
    let l1 := clearSelected l in
    if negb (pick =? previousPick) then
      if isCard pick && canInteract l1 pick
      then (with_selected l1 pick, false)
      else (l1, false)
    else (l1, false)
  else if isSelectionActive l then
    let s := getCard (selected l) in
    let seq := GetSelected l in
    let l1 := clearSelected l in
    if (EMPTY_PILE1 <=? pick) && (pick <=? EMPTY_PILE16) then
      let pileID := wrap (pick - EMPTY_PILE1) in
      if isFreecell pileID && (len seq =? 1) then
        if emptyPile l1 pileID
        then (record_board (bset l1 (ID s) pileID), true)
        else (l1, false)
      else if isFoundation pileID && (len seq =? 1) then
        if Suit s =? wrap (pileID - 4) then
          if emptyPile l1 pileID && (Rank s =? ACES)
          then (record_board (bset l1 (ID s) pileID), true)
          else (l1, false)
        else (l1, false)
      else if (8 <=? pileID) && (pileID <=? 15) then
        if emptyPile l1 pileID then
          if movableStackSize l1 true <? len seq then (l1, false)
          else (record_board (place_seq l1 seq pileID), true)
        else (l1, false)
      else (l1, false)
    else if isCard pick then
      let p := getCard pick in
      let boardPick := bget l1 (ID p) in
      if isFoundation boardPick && (len seq =? 1) then
        if Rank s =? Rank p + 1 then
          let l2 := bset l1 (ID p) (wrap (bget l1 (ID p) + HIDDEN_CARD)) in
          (record_board (bset l2 (ID s) boardPick), true)
        else (l1, false)
      else if isCascade boardPick then
        if nextInSequence p s
        then (record_board
                (place_seq l1 seq (wrap (bget l1 (ID p) + 8))), true)
        else (l1, false)
      else (l1, false)
    else (l1, false)
  else if isCard pick then (with_selected l pick, false)
  else (l, false).

(** ** Auto-promotion *)

(** The body shared by the four suit cases of [AutoMoveCard]: [f] is the
    foundation top card of the case ([fc], [fd], [fh] or [fs]). *)
Definition promote (l : logic) (f c : Card) (boardID : Z) : logic :=
  let l1 := if negb (ID f =? NO_CARD)
            then bset l (ID f) (wrap (bget l (ID f) + HIDDEN_CARD))
            else l in
  let l2 := record_board (bset l1 (ID c) boardID) in
  if isSelected l2 (ID c) then clearSelected l2 else l2.

Fixpoint AutoMoveCard_scan (l : logic) (fc fd fh fs : Card) (minRank : Z)
  (candidates : list Card) : logic * bool :=
  match candidates with
  | [] => (l, false)
  | c :: rest =>
      if ID c =? NO_CARD then AutoMoveCard_scan l fc fd fh fs minRank rest
      else if negb (Rank c =? minRank + 1) && negb (Rank c =? minRank + 2)
      then AutoMoveCard_scan l fc fd fh fs minRank rest
      else
        let boardID := Suit c + 4 in
        if Suit c =? CLB then
          if isNextInFoundation (Suit c) fc c
          then (promote l fc c boardID, true)
          else AutoMoveCard_scan l fc fd fh fs minRank rest
        else if Suit c =? DMD then
          if isNextInFoundation (Suit c) fd c
          then (promote l fd c boardID, true)
          else AutoMoveCard_scan l fc fd fh fs minRank rest
        else if Suit c =? HRT then
          if isNextInFoundation (Suit c) fh c
          then (promote l fh c boardID, true)
          else AutoMoveCard_scan l fc fd fh fs minRank rest
        else if Suit c =? SPD then
          if isNextInFoundation (Suit c) fs c
          then (promote l fs c boardID, true)
          else AutoMoveCard_scan l fc fd fh fs minRank rest
        else AutoMoveCard_scan l fc fd fh fs minRank rest
  end.

Definition candidates (l : logic) : list Card :=
  [ getCard (cardAt l 0); getCard (cardAt l 1);
    getCard (cardAt l 2); getCard (cardAt l 3);
    lastInCascade l 0; lastInCascade l 1; lastInCascade l 2;
    lastInCascade l 3; lastInCascade l 4; lastInCascade l 5;
    lastInCascade l 6; lastInCascade l 7 ].

Definition AutoMoveCard (l : logic) : logic * bool :=
  if count (mvs l) <? 2 then (l, false)
  else
    let fc := getCard (cardAt l FC) in
    let fd := getCard (cardAt l FD) in
    let fh := getCard (cardAt l FH) in
    let fs := getCard (cardAt l FS) in
    let minRank :=
      if negb (ID fc =? NO_CARD) && negb (ID fd =? NO_CARD)
         && negb (ID fh =? NO_CARD) && negb (ID fs =? NO_CARD)
      then Z.min (Z.min (Z.min (Rank fc) (Rank fd)) (Rank fh)) (Rank fs)
      else -1 in
    AutoMoveCard_scan l fc fd fh fs minRank (candidates l).

(** ** Session operations *)

(** The zero value [&logic{}] the session starts from. *)
Definition logic0 : logic :=
  mkLogic 0 0 (repeat (mkCard 0 0 0 0 "") 52) (repeat 0 52) (mkMoves [] 0).

(** The dealing loop of [NewGame]: [l.board[l.deal[cid].ID] = cid + 8]. *)
Definition dealCards (l : logic) : logic :=
  fold_left
    (fun acc cid => bset acc (ID (aget InvalidCard (deal acc) cid)) (cid + 8))
    card_ids l.

Definition NewGame (l : logic) (seed : Z) : logic :=
  let l1 := mkLogic (selected l) seed (deal l) (board l) (mkMoves [] 0) in
  let l2 := clearSelected l1 in
  let l3 := mkLogic (selected l2) (gameSeed l2) (shuffle seed deck)
                    (board l2) (mvs l2) in
  let l4 := dealCards l3 in
  record_board (with_moves l4 (reset (mvs l4))).

Definition IsGameWon (l : logic) : bool :=
  (bget l KC =? FC) && (bget l KD =? FD)
  && (bget l KH =? FH) && (bget l KS =? FS).

Definition MoveCount (l : logic) : Z :=
  if 0 <? count (mvs l) then count (mvs l) - 1 else 0.

Definition Undo (l : logic) : option logic :=
  let l1 := clearSelected l in
  match undo (mvs l1) with
  | None => None
  | Some (mv, previousBoard) => Some (with_board (with_moves l1 mv) previousBoard)
  end.

(** The calls a collaborator makes on a session. *)
Inductive op : Type :=
| OpNewGame (seed : Z)
| OpInteract (pick : Z)
| OpUndo
| OpAutoMoveCard
| OpClearSelected.

Definition exec (l : logic) (o : op) : option logic :=
  match o with
  | OpNewGame seed => Some (NewGame l seed)
  | OpInteract pick => Some (fst (Interact l pick))
  | OpUndo => Undo l
  | OpAutoMoveCard => Some (fst (AutoMoveCard l))
  | OpClearSelected => Some (clearSelected l)
  end.

Fixpoint run_from (l : logic) (ops : list op) : option logic :=
  match ops with
  | [] => Some l
  | o :: rest =>
      match exec l o with
      | Some l' => run_from l' rest
      | None => None
      end
  end.

(** A session: [NewGame(seed)] on a fresh engine, then any calls. *)
Definition run (seed : Z) (ops : list op) : option logic :=
  run_from (NewGame logic0 seed) ops.

Fixpoint Undo_n (n : nat) (l : logic) : option logic :=
  match n with
  | O => Some l
  | S n' =>
      match Undo l with
      | Some l' => Undo_n n' l'
      | None => None
      end
  end.

(** *** Bookkeeping on a session's calls

    These count what happened since the latest [NewGame]; they read the
    calls and their visible outcome, not the engine's own counter. *)

(** An [Undo] was performed when it took a snapshot off the history. *)
Definition undo_performed (l : logic) (o : op) (l' : logic) : bool :=
  match o with
  | OpUndo => (length (stack (mvs l')) <? length (stack (mvs l)))%nat
  | _ => false
  end.

(** A move was committed when [Interact] or [AutoMoveCard] returned true. *)
Definition move_committed (l : logic) (o : op) : bool :=
  match o with
  | OpInteract pick => snd (Interact l pick)
  | OpAutoMoveCard => snd (AutoMoveCard l)
  | _ => false
  end.

Definition is_new_game (o : op) : bool :=
  match o with OpNewGame _ => true | _ => false end.

Fixpoint undos_performed_from (l : logic) (n : Z) (ops : list op) : Z :=
  match ops with
  | [] => n
  | o :: rest =>
      match exec l o with
      | None => n
      | Some l' =>
          let n' := if is_new_game o then 0
                    else if undo_performed l o l' then n + 1 else n in
          undos_performed_from l' n' rest
      end
  end.

Definition undos_performed (seed : Z) (ops : list op) : Z :=
  undos_performed_from (NewGame logic0 seed) 0 ops.

Fixpoint moves_committed_from (l : logic) (n : Z) (ops : list op) : Z :=
  match ops with
  | [] => n
  | o :: rest =>
      match exec l o with
      | None => n
      | Some l' =>
          let n' := if is_new_game o then 0
                    else if move_committed l o then n + 1 else n in
          moves_committed_from l' n' rest
      end
  end.

Definition moves_committed (seed : Z) (ops : list op) : Z :=
  moves_committed_from (NewGame logic0 seed) 0 ops.

(** *** The movable stack size, as the specification words it *)

Definition pile_occupied (l : logic) (pileID : Z) : bool :=
  existsb (fun cid => aget 0 (board l) cid =? pileID) card_ids.

(** [F]: the number of empty freecells. *)
Definition spec_F (l : logic) : Z :=
  Z.of_nat (length (filter (fun p => negb (pile_occupied l p)) [0; 1; 2; 3])).

(** [E]: the number of empty cascades. *)
Definition spec_E (l : logic) : Z :=
  Z.of_nat (length (filter (fun p => negb (pile_occupied l p))
                           [8; 9; 10; 11; 12; 13; 14; 15])).

Definition spec_capacity (l : logic) (target_is_empty_cascade : bool) : Z :=
  let F := spec_F l in
  let E := spec_E l in
  if E =? 0 then F + 1
  else
    let E' := if target_is_empty_cascade then E - 1 else E in
    if 0 <? E' then 2 * (F + 1 + (E' - 1)) else F + 1.

(** *** Auto-promotion, as the specification words it *)

(** The specification reads the board as a map from cards to locations:
    a card of the deck lies on the location stored under its id. *)
Definition lies_on (l : logic) (loc : Z) (c : Card) : bool :=
  aget 0 (board l) (ID c) =? loc.

(** The occupant of a cell (a freecell or a foundation slot), if any. *)
Definition occupant (l : logic) (loc : Z) : option Card :=
  find (lies_on l loc) deck.

(** The visible top card of a suit's foundation; the slots are 4..7. *)
Definition foundation_top (l : logic) (suit : Z) : option Card :=
  occupant l (suit + 4).

(** [minRank]: the least of the four top ranks, -1 when a foundation is
    still empty. *)
Definition spec_minRank (l : logic) : Z :=
  match foundation_top l CLB, foundation_top l DMD,
        foundation_top l HRT, foundation_top l SPD with
  | Some c, Some d, Some h, Some s =>
      Z.min (Z.min (Z.min (Rank c) (Rank d)) (Rank h)) (Rank s)
  | _, _, _, _ => -1
  end.

(** A card tops cascade [col] when it lies in that column of the cascade
    area (locations [8 + col], [16 + col], ... up to 167) and no card lies
    one row above it. *)
Definition tops_cascade (l : logic) (col : Z) (c : Card) : bool :=
  let loc := aget 0 (board l) (ID c) in
  (8 <=? loc) && (loc <=? 167) && (loc mod 8 =? col)
  && negb (existsb (lies_on l (loc + 8)) deck).

(** The visible top card of a cascade, if any. *)
Definition cascade_top (l : logic) (col : Z) : option Card :=
  find (tops_cascade l col) deck.

(** The twelve slots in scan order: the freecells, then the cascades. *)
Definition spec_slots (l : logic) : list (option Card) :=
  map (occupant l) [0; 1; 2; 3]
  ++ map (cascade_top l) [0; 1; 2; 3; 4; 5; 6; 7].

(** The candidates: the cards of the twelve slots, empty slots skipped. *)
Definition spec_candidates (l : logic) : list Card :=
  flat_map (fun slot => match slot with Some c => [c] | None => [] end)
           (spec_slots l).

(** The card is the next one its suit's foundation takes. *)
Definition next_for_foundation (l : logic) (c : Card) : bool :=
  match foundation_top l (Suit c) with
  | None => Rank c =? ACES
  | Some top => Rank c =? Rank top + 1
  end.

Definition spec_eligible (l : logic) (c : Card) : bool :=
  ((Rank c =? spec_minRank l + 1) || (Rank c =? spec_minRank l + 2))
  && next_for_foundation l c.

(** The state after promoting [c]: the previous top is buried, [c] takes the
    foundation slot, one snapshot is recorded, and the selection is cleared
    when [c] was the selected card. *)
Definition spec_promoted (l : logic) (c : Card) : logic :=
  let slot := Suit c + 4 in
  let b1 := match foundation_top l (Suit c) with
            | None => board l
            | Some top => aset (board l) (ID top) (slot + HIDDEN_CARD)
            end in
  let b2 := aset b1 (ID c) slot in
  mkLogic (if selected l =? ID c then NO_CARD else selected l)
          (gameSeed l) (deal l) b2
          (mkMoves (stack (mvs l) ++ [b2]) (undos (mvs l))).

Definition spec_AutoMoveCard (l : logic) : logic * bool :=
  match find (spec_eligible l) (spec_candidates l) with
  | Some c => (spec_promoted l c, true)
  | None => (l, false)
  end.

(** A concrete opening of game 1 used in the examples below: three cards
    go to freecells, the ace of hearts to its foundation, and the two of
    hearts is picked up. *)
Definition opening1 : list op :=
  [ OpInteract 28; OpInteract 100; OpInteract 42; OpInteract 101;
    OpInteract 13; OpInteract 102; OpInteract 2; OpInteract 106;
    OpInteract 6 ].

(** Game 1 after three cards went to the freecells: the ace of hearts
    tops its cascade. *)
Definition opening1_ace_free : list op :=
  [ OpInteract 28; OpInteract 100; OpInteract 42; OpInteract 101;
    OpInteract 13; OpInteract 102 ].

(** Game 1 with the eight of clubs picked up, and with it then moved to
    the first freecell. *)
Definition game1_picked : logic := fst (Interact (NewGame logic0 1) 28).
Definition game1_moved : logic := fst (Interact game1_picked 100).

(** *** Invariants of a session *)

(** What a call leaves behind: either nothing but the selection changed, or
    one snapshot of the new board was pushed and the selection is clear. *)
Definition step_frame (l l' : logic) (moved : bool) : Prop :=
  gameSeed l' = gameSeed l /\ deal l' = deal l
  /\ length (board l') = length (board l)
  /\ (moved = false -> board l' = board l /\ mvs l' = mvs l)
  /\ (moved = true -> mvs l' = record (mvs l) (board l')).

(** The board is a 52-entry array, it equals the top snapshot of the
    history, the history is not empty and holds 52-entry arrays, and the
    undo counter is not negative. *)
Definition Inv (l : logic) : Prop :=
  length (board l) = 52%nat
  /\ stack (mvs l) <> []
  /\ last (stack (mvs l)) [] = board l
  /\ Forall (fun b : Board => length b = 52%nat) (stack (mvs l))
  /\ 0 <= undos (mvs l).

(** [len(mv.stack)]. *)
Definition hlen (l : logic) : Z := Z.of_nat (length (stack (mvs l))).

(** *** Further operations of [logic.go] *)

(** [PreviousBoard]: the snapshot under the top one, or the top one when
    it is the only one.  Both index the stack, which fails when it is
    empty. *)
Definition PreviousBoard (l : logic) : option Board :=
  let st := stack (mvs l) in
  if 1 <? Z.of_nat (length st)
  then nth_error st (length st - 2)
  else nth_error st (length st - 1).

(** [UnsolvableGames], in the order of the source. *)
Definition UnsolvableGames : list Z :=
  [ 11982; 146692; 186216; 455889; 495505; 512118; 517776; 781948 ].

(** [slices.BinarySearch] of Go's standard library, which [IsGameSolvable]
    calls: [i, j := 0, n; for i < j { h := (i+j) >> 1;
    if x[h] < target { i = h + 1 } else { j = h } }], answering
    [(i, i < n && x[i] == target)].  Each pass shrinks [j - i], so the
    loop is over after [len(x) + 1] passes. *)
Fixpoint BinarySearch_loop (fuel : nat) (x : list Z) (target i j : Z) : Z :=
  match fuel with
  | O => i
  | S fuel' =>
      if i <? j then
        let h := Z.shiftr (i + j) 1 in
        if aget 0 x h <? target
        then BinarySearch_loop fuel' x target (h + 1) j
        else BinarySearch_loop fuel' x target i h
      else i
  end.

Definition BinarySearch (x : list Z) (target : Z) : Z * bool :=
  let n := Z.of_nat (length x) in
  let i := BinarySearch_loop (S (length x)) x target 0 n in
  (i, (i <? n) && (aget 0 x i =? target)).

Definition IsGameSolvable (l : logic) (gameSeed : Z) : bool :=
  let '(_, found) := BinarySearch UnsolvableGames gameSeed in
  negb found.

(** Two cards of a run lie one row apart in a cascade, the upper one next
    in sequence on the lower one. *)
Definition stacked_on (l : logic) (below above : Z) : Prop :=
  bget l above = bget l below + 8
  /\ nextInSequence (getCard below) (getCard above) = true.

Fixpoint is_run (l : logic) (v : list Z) : Prop :=
  match v with
  | [] => True
  | a :: rest =>
      match rest with
      | [] => True
      | b :: _ => stacked_on l a b /\ is_run l rest
      end
  end.

(** The selection is none, or a card lying on a freecell or a cascade. *)
Definition selection_ok (l : logic) : Prop :=
  selected l = NO_CARD
  \/ (isCard (selected l) = true
      /\ isCascade (bget l (selected l)) || isFreecell (bget l (selected l))
         = true).

(** The bottom snapshot of the history is the deal of the current game. *)
Definition deal_kept (l : logic) : Prop :=
  hd [] (stack (mvs l)) = board (NewGame logic0 (gameSeed l)).

(** Where the first card of a committed move lands: on the pile, on the
    foundation slot of the picked top card, or one row above the picked
    cascade card. *)
Definition move_destination (l : logic) (pick : Z) : Z :=
  if (EMPTY_PILE1 <=? pick) && (pick <=? EMPTY_PILE16)
  then pick - EMPTY_PILE1
  else if isFoundation (bget l pick) then bget l pick
  else bget l pick + 8.

(** * Verification *)

(** ** Arrays *)

Lemma upd_length {A : Type} (a : list A) n v : length (upd a n v) = length a.
Proof.
  revert n; induction a as [|h t IH]; intros [|n]; simpl; auto.
Qed.

Lemma aset_length {A : Type} (a : list A) i v : length (aset a i v) = length a.
Proof. apply upd_length. Qed.

Lemma upd_app {A : Type} (pre suf : list A) x v :
  upd (pre ++ x :: suf) (length pre) v = pre ++ v :: suf.
Proof. induction pre as [|h t IH]; simpl; [reflexivity | now rewrite IH]. Qed.

Lemma nth_upd_same {A : Type} (a : list A) n v d :
  (n < length a)%nat -> nth n (upd a n v) d = v.
Proof.
  revert n; induction a as [|h t IH]; intros [|n] H; simpl in *;
    try lia; auto.
  apply IH; lia.
Qed.

Lemma nth_upd_other {A : Type} (a : list A) n m v d :
  n <> m -> nth m (upd a n v) d = nth m a d.
Proof.
  revert n m; induction a as [|h t IH]; intros [|n] [|m] H; simpl;
    try reflexivity; try congruence.
  apply IH; congruence.
Qed.

Lemma map_nth_seq {A : Type} (d : A) (e : list A) :
  map (fun i => nth i e d) (seq 0 (length e)) = e.
Proof.
  induction e as [|h t IH]; simpl; [reflexivity|].
  f_equal. rewrite <- seq_shift, map_map. exact IH.
Qed.

Lemma map_aget_card_ids {A : Type} (d : A) (e : list A) :
  length e = 52%nat -> map (fun i => aget d e i) card_ids = e.
Proof.
  intros H. unfold card_ids, aget. rewrite map_map.
  transitivity (map (fun i => nth i e d) (seq 0 (length e)));
    [| apply map_nth_seq].
  rewrite H. apply map_ext. intros n. now rewrite Nat2Z.id.
Qed.

(** ** The shuffle against the reference algorithm *)

Lemma land_wrap x : Z.land (wrap x) RAND_MAX_32 = Z.land x 2147483647.
Proof.
  unfold wrap, RAND_MAX_32.
  change (2 ^ 31 - 1) with (Z.ones 31).
  change 2147483647 with (Z.ones 31).
  rewrite !Z.land_ones by lia.
  apply Z.mod_mod_divide.
  exists (2 ^ 33). reflexivity.
Qed.

Lemma randClassic_lcg rseed :
  randClassic rseed = (lcg_next rseed, lcg_draw (lcg_next rseed)).
Proof.
  unfold randClassic, lcg_next, lcg_draw. cbv zeta.
  rewrite land_wrap. reflexivity.
Qed.

Lemma ref_emit_length n : forall state work remainder,
  length (ref_emit n state work remainder) = n.
Proof.
  induction n as [|n IH]; intros; cbn [ref_emit length];
    [reflexivity | rewrite IH; reflexivity].
Qed.

(** The dealing loop fills [deal] from position [dealt] on with exactly the
    values the reference emits. *)
Lemma shuffle_loop_deal n : forall st pre suf,
  sh_deal st = pre ++ suf ->
  sh_dealt st = Z.of_nat (length pre) ->
  (n <= length suf)%nat ->
  Z.of_nat n <= sh_remainder st < 2 ^ 64 ->
  sh_deal (shuffle_loop n st)
  = pre ++ ref_emit n (sh_rseed st) (sh_deck st) (sh_remainder st)
        ++ skipn n suf.
Proof.
  induction n as [|n IH]; intros st pre suf Hdeal Hdealt Hlen Hrem.
  - cbn [shuffle_loop ref_emit skipn]. rewrite Hdeal. reflexivity.
  - destruct suf as [|y suf']; [cbn [length] in Hlen; lia|].
    assert (Hw : wrap (sh_remainder st - 1) = sh_remainder st - 1).
    { unfold wrap. apply Z.mod_small. lia. }
    cbn [shuffle_loop ref_emit].
    set (st' := shuffle_step st).
    assert (Hst' : st' =
      mkShuffle
        (aset (sh_deck st) (lcg_draw (lcg_next (sh_rseed st)) mod sh_remainder st)
              (aget 0 (sh_deck st) (sh_remainder st - 1)))
        (pre ++ aget 0 (sh_deck st)
                  (lcg_draw (lcg_next (sh_rseed st)) mod sh_remainder st)
             :: suf')
        (sh_dealt st + 1) (sh_remainder st - 1) (lcg_next (sh_rseed st))).
    { subst st'. unfold shuffle_step. rewrite randClassic_lcg, Hw.
      f_equal. rewrite Hdeal, Hdealt. unfold aset. rewrite Nat2Z.id.
      apply upd_app. }
    rewrite (IH st' (pre ++ [aget 0 (sh_deck st)
               (lcg_draw (lcg_next (sh_rseed st)) mod sh_remainder st)]) suf').
    + rewrite Hst'. cbn [sh_rseed sh_deck sh_remainder].
      rewrite <- app_assoc. reflexivity.
    + rewrite Hst'. cbn [sh_deal]. rewrite <- app_assoc. reflexivity.
    + rewrite Hst'. cbn [sh_dealt]. rewrite Hdealt, length_app.
      cbn [length]. lia.
    + cbn [length] in Hlen. lia.
    + rewrite Hst'. cbn [sh_remainder]. lia.
Qed.

Lemma shuffle_init_eq seed :
  shuffle_init seed = mkShuffle card_ids (repeat NO_CARD 52) 0 52 seed.
Proof. vm_compute. reflexivity. Qed.

Lemma shuffle_loop_deal_all n dk suf rem rs :
  length suf = n ->
  Z.of_nat n <= rem < 2 ^ 64 ->
  sh_deal (shuffle_loop n (mkShuffle dk suf 0 rem rs)) = ref_emit n rs dk rem.
Proof.
  intros Hlen Hrem.
  rewrite (shuffle_loop_deal n (mkShuffle dk suf 0 rem rs) [] suf);
    [ | reflexivity | reflexivity | lia | exact Hrem ].
  cbn [sh_rseed sh_deck sh_remainder app].
  rewrite skipn_all2 by lia. apply app_nil_r.
Qed.

Lemma shuffle_deal_eq seed :
  sh_deal (shuffle_loop 52 (shuffle_init seed)) = ref_emit 52 seed card_ids 52.
Proof.
  rewrite shuffle_init_eq.
  apply shuffle_loop_deal_all; [apply repeat_length | lia].
Qed.

Lemma shuffle_refines seed ordered : shuffle seed ordered = shuffle_ref seed ordered.
Proof.
  unfold shuffle, shuffle_ref. cbv zeta. rewrite shuffle_deal_eq.
  set (e := ref_emit 52 seed card_ids 52).
  rewrite <- (map_map (fun i => aget 0 e i) (fun id => aget InvalidCard ordered id)).
  rewrite (map_aget_card_ids 0 e) by apply ref_emit_length. reflexivity.
Qed.

(** The published deal of game 1, as the repository's test lists it. *)
Example shuffle_game_1 :
  map Sym (shuffle 1 deck)
  = [ "JD"; "2D"; "9H"; "JC"; "5D"; "7H"; "7C"; "5H";
      "KD"; "KC"; "9S"; "5S"; "AD"; "QC"; "KH"; "3H";
      "2S"; "KS"; "9D"; "QD"; "JS"; "AS"; "AH"; "3C";
      "4C"; "5C"; "TS"; "QH"; "4H"; "AC"; "4D"; "7S";
      "3S"; "TD"; "4S"; "TH"; "8H"; "2C"; "JH"; "7D";
      "6D"; "8S"; "8D"; "QS"; "6C"; "3D"; "8C"; "TC";
      "6S"; "9C"; "2H"; "6H" ]%string.
Proof. vm_compute. reflexivity. Qed.

(** C1: for every seed in [0, 999999], [shuffle] applied to the ordered
    deck returns the deal of the reference algorithm: the 31-bit generator
    seeded with the seed, 52 draws [j = draw mod remainder] from the
    identity working array, each emitting [work[j]], overwriting it with
    [work[remainder-1]] and decrementing [remainder]; the emitted ids index
    the ordered deck. *)
Theorem C1_shuffle_is_reference (seed : Z) :
  0 <= seed <= MAX_SEED -> shuffle seed deck = shuffle_ref seed deck.
Proof. intros _. apply shuffle_refines. Qed.

Lemma C1_shuffle_is_reference_witness :
  0 <= 11982 <= MAX_SEED /\ shuffle 11982 deck = shuffle_ref 11982 deck.
Proof.
  assert (H : 0 <= 11982 <= MAX_SEED) by (unfold MAX_SEED; lia).
  split; [exact H | exact (C1_shuffle_is_reference 11982 H)].
Defined.

(** ** The movable stack size *)

Lemma emptyPile_spec l p :
  0 <= p <= 15 -> emptyPile l p = negb (pile_occupied l p).
Proof.
  intros Hp. unfold emptyPile, pile_occupied, bget.
  replace ((0 <=? p) && (p <=? 15)) with true
    by (symmetry; apply andb_true_intro; split; apply Z.leb_le; lia).
  induction card_ids as [|c cs IH]; cbn [forallb existsb]; [reflexivity|].
  rewrite IH, negb_orb. reflexivity.
Qed.

Lemma countEmptyCells_fold l piles : forall acc,
  Forall (fun p => 0 <= p <= 15) piles ->
  fold_left (fun empty pileID =>
               if emptyPile l pileID then empty + 1 else empty) piles acc
  = acc + Z.of_nat (length (filter (fun p => negb (pile_occupied l p)) piles)).
Proof.
  induction piles as [|p ps IH]; intros acc Hall; cbn [fold_left filter].
  - cbn [length]. lia.
  - inversion Hall as [|? ? Hp Hps]; subst.
    rewrite IH by exact Hps. rewrite (emptyPile_spec l p Hp).
    destruct (negb (pile_occupied l p)); cbn [length]; lia.
Qed.

Lemma emptyFreeCells_spec l : emptyFreeCells l = spec_F l.
Proof.
  unfold emptyFreeCells, countEmptyCells, spec_F.
  rewrite countEmptyCells_fold; [lia|].
  repeat constructor; lia.
Qed.

Lemma emptyCascades_spec l : emptyCascades l = spec_E l.
Proof.
  unfold emptyCascades, countEmptyCells, spec_E.
  rewrite countEmptyCells_fold; [lia|].
  repeat constructor; lia.
Qed.

(** C2: on every board, [movableStackSize] is the stated formula over the
    number [F] of empty freecells and the number [E] of empty cascades:
    [F+1] when [E = 0]; otherwise, with [E' = E-1] when the target is itself
    an empty cascade and [E' = E] when not, [2*(F+1+(E'-1))] if [E' > 0] and
    [F+1] if not. *)
Theorem C2_movableStackSize_formula (l : logic) (isEmptyCascadeUsed : bool) :
  movableStackSize l isEmptyCascadeUsed = spec_capacity l isEmptyCascadeUsed.
Proof.
  unfold movableStackSize, spec_capacity. cbv zeta.
  rewrite emptyFreeCells_spec, emptyCascades_spec.
  assert (HE : 0 <= spec_E l) by (unfold spec_E; lia).
  destruct (spec_E l <=? 0) eqn:Hle; destruct (spec_E l =? 0) eqn:Heq;
    try reflexivity.
  - apply Z.leb_le in Hle. apply Z.eqb_neq in Heq. lia.
  - apply Z.leb_gt in Hle. apply Z.eqb_eq in Heq. lia.
Qed.

(** ** How the state fields move through the helpers *)

Lemma board_bset l c v : board (bset l c v) = aset (board l) c v.
Proof. reflexivity. Qed.
Lemma mvs_bset l c v : mvs (bset l c v) = mvs l.
Proof. reflexivity. Qed.
Lemma selected_bset l c v : selected (bset l c v) = selected l.
Proof. reflexivity. Qed.
Lemma gameSeed_bset l c v : gameSeed (bset l c v) = gameSeed l.
Proof. reflexivity. Qed.
Lemma deal_bset l c v : deal (bset l c v) = deal l.
Proof. reflexivity. Qed.

Lemma board_record_board l : board (record_board l) = board l.
Proof. reflexivity. Qed.
Lemma mvs_record_board l : mvs (record_board l) = record (mvs l) (board l).
Proof. reflexivity. Qed.
Lemma selected_record_board l : selected (record_board l) = selected l.
Proof. reflexivity. Qed.
Lemma gameSeed_record_board l : gameSeed (record_board l) = gameSeed l.
Proof. reflexivity. Qed.
Lemma deal_record_board l : deal (record_board l) = deal l.
Proof. reflexivity. Qed.

Lemma board_with_selected l s : board (with_selected l s) = board l.
Proof. reflexivity. Qed.
Lemma mvs_with_selected l s : mvs (with_selected l s) = mvs l.
Proof. reflexivity. Qed.
Lemma selected_with_selected l s : selected (with_selected l s) = s.
Proof. reflexivity. Qed.
Lemma gameSeed_with_selected l s : gameSeed (with_selected l s) = gameSeed l.
Proof. reflexivity. Qed.
Lemma deal_with_selected l s : deal (with_selected l s) = deal l.
Proof. reflexivity. Qed.

Lemma board_clearSelected l : board (clearSelected l) = board l.
Proof. reflexivity. Qed.
Lemma mvs_clearSelected l : mvs (clearSelected l) = mvs l.
Proof. reflexivity. Qed.
Lemma selected_clearSelected l : selected (clearSelected l) = NO_CARD.
Proof. reflexivity. Qed.
Lemma gameSeed_clearSelected l : gameSeed (clearSelected l) = gameSeed l.
Proof. reflexivity. Qed.
Lemma deal_clearSelected l : deal (clearSelected l) = deal l.
Proof. reflexivity. Qed.

Create Rewrite HintDb fields.
#[local] Hint Rewrite
  board_bset mvs_bset selected_bset gameSeed_bset deal_bset
  board_record_board mvs_record_board selected_record_board
  gameSeed_record_board deal_record_board
  board_with_selected mvs_with_selected selected_with_selected
  gameSeed_with_selected deal_with_selected
  board_clearSelected mvs_clearSelected selected_clearSelected
  gameSeed_clearSelected deal_clearSelected : fields.

Lemma place_rest_frame rest : forall l prev,
  mvs (place_rest l prev rest) = mvs l
  /\ selected (place_rest l prev rest) = selected l
  /\ gameSeed (place_rest l prev rest) = gameSeed l
  /\ deal (place_rest l prev rest) = deal l
  /\ length (board (place_rest l prev rest)) = length (board l).
Proof.
  induction rest as [|c rest IH]; intros l prev; cbn [place_rest].
  - repeat split.
  - destruct (IH (bset l c (wrap (bget l prev + 8))) c)
      as (Hm & Hs & Hg & Hd & Hl).
    rewrite Hm, Hs, Hg, Hd, Hl. autorewrite with fields.
    rewrite aset_length. repeat split.
Qed.

Lemma place_seq_frame l seq dest :
  mvs (place_seq l seq dest) = mvs l
  /\ selected (place_seq l seq dest) = selected l
  /\ gameSeed (place_seq l seq dest) = gameSeed l
  /\ deal (place_seq l seq dest) = deal l
  /\ length (board (place_seq l seq dest)) = length (board l).
Proof.
  destruct seq as [|c0 rest]; cbn [place_seq].
  - repeat split.
  - destruct (place_rest_frame rest (bset l c0 dest) c0)
      as (Hm & Hs & Hg & Hd & Hl).
    rewrite Hm, Hs, Hg, Hd, Hl. autorewrite with fields.
    rewrite aset_length. repeat split.
Qed.

Lemma step_frame_still l l' :
  gameSeed l' = gameSeed l -> deal l' = deal l -> board l' = board l ->
  mvs l' = mvs l -> step_frame l l' false.
Proof.
  intros Hg Hd Hb Hm. unfold step_frame. rewrite Hg, Hd, Hb, Hm.
  repeat split; intros; congruence.
Qed.

Lemma step_frame_moved l l1 :
  gameSeed l1 = gameSeed l -> deal l1 = deal l ->
  length (board l1) = length (board l) -> mvs l1 = mvs l ->
  step_frame l (record_board l1) true.
Proof.
  intros Hg Hd Hb Hm. unfold step_frame. autorewrite with fields.
  rewrite Hg, Hd, Hb, Hm. repeat split; intros; congruence.
Qed.

Ltac still := apply step_frame_still; reflexivity.

Ltac moved_seq :=
  match goal with
  | |- step_frame _ (record_board (place_seq ?a ?s ?d)) true =>
      let Hm := fresh in let Hs := fresh in let Hg := fresh in
      let Hd := fresh in let Hl := fresh in
      destruct (place_seq_frame a s d) as (Hm & Hs & Hg & Hd & Hl);
      apply step_frame_moved; [exact Hg | exact Hd | exact Hl | exact Hm]
  end.

Lemma Interact_frame l pick :
  step_frame l (fst (Interact l pick)) (snd (Interact l pick)).
Proof.
  unfold Interact. cbv zeta.
  repeat match goal with
  | |- context [if ?c then _ else _] => destruct c
  end; cbn [fst snd]; try still.
  - apply step_frame_moved; try reflexivity.
    autorewrite with fields. apply aset_length.
  - apply step_frame_moved; try reflexivity.
    autorewrite with fields. apply aset_length.
  - moved_seq.
  - apply step_frame_moved; try reflexivity.
    autorewrite with fields. rewrite !aset_length. reflexivity.
  - moved_seq.
Qed.

Lemma promote_frame l f c boardID : step_frame l (promote l f c boardID) true.
Proof.
  unfold promote, step_frame. cbv zeta.
  repeat match goal with
  | |- context [if ?c then _ else _] => destruct c
  end; autorewrite with fields; rewrite ?aset_length;
    repeat split; intros; congruence.
Qed.

Lemma AutoMoveCard_scan_frame l0 fc fd fh fs minRank cands :
  step_frame l0 (fst (AutoMoveCard_scan l0 fc fd fh fs minRank cands))
             (snd (AutoMoveCard_scan l0 fc fd fh fs minRank cands)).
Proof.
  induction cands as [|c rest IH]; cbn [AutoMoveCard_scan]; [still|].
  cbv zeta.
  repeat match goal with
  | |- context [if ?c then _ else _] => destruct c
  end; cbn [fst snd]; try exact IH; apply promote_frame.
Qed.

Lemma AutoMoveCard_frame l :
  step_frame l (fst (AutoMoveCard l)) (snd (AutoMoveCard l)).
Proof.
  unfold AutoMoveCard. destruct (count (mvs l) <? 2); [still|].
  cbv zeta. apply AutoMoveCard_scan_frame.
Qed.

(** ** The history stack *)

Lemma undo_top mv :
  stack mv <> [] ->
  undo mv =
    Some (if 1 <? Z.of_nat (length (stack mv))
          then (mkMoves (removelast (stack mv)) (undos mv + 1),
                last (removelast (stack mv)) [])
          else (mv, last (stack mv) [])).
Proof.
  intros Hne. unfold undo. cbv zeta.
  destruct (1 <? Z.of_nat (length (stack mv))) eqn:Hlen.
  - cbn [stack].
    destruct (rev (removelast (stack mv))) as [|top r] eqn:Hrev.
    + apply (f_equal (@rev Board)) in Hrev. rewrite rev_involutive in Hrev.
      cbn [rev] in Hrev. apply Z.ltb_lt in Hlen.
      destruct (stack mv) as [|a [|b t]]; cbn [length] in Hlen; try lia.
      discriminate Hrev.
    + apply (f_equal (@rev Board)) in Hrev. rewrite rev_involutive in Hrev.
      cbn [rev] in Hrev. rewrite Hrev, last_last. reflexivity.
  - destruct (rev (stack mv)) as [|top r] eqn:Hrev.
    + apply (f_equal (@rev Board)) in Hrev. rewrite rev_involutive in Hrev.
      contradiction.
    + apply (f_equal (@rev Board)) in Hrev. rewrite rev_involutive in Hrev.
      cbn [rev] in Hrev. rewrite Hrev, last_last. reflexivity.
Qed.

Lemma undo_empty mv : stack mv = [] -> undo mv = None.
Proof.
  intros H. unfold undo. rewrite H. cbn [length Z.of_nat Z.ltb Z.compare].
  rewrite H. reflexivity.
Qed.

Lemma removelast_nonempty {A : Type} (s : list A) :
  (1 < length s)%nat -> removelast s <> [].
Proof.
  destruct s as [|a [|b t]]; cbn [length]; intros H; try lia.
  cbn [removelast]. discriminate.
Qed.

Lemma Forall_removelast {A : Type} (P : A -> Prop) (s : list A) :
  Forall P s -> Forall P (removelast s).
Proof.
  induction s as [|a t IH]; intros H; [exact H|].
  inversion H as [|? ? Ha Ht]; subst.
  destruct t as [|b t']; [constructor|].
  change (removelast (a :: b :: t')) with (a :: removelast (b :: t')).
  constructor; [exact Ha | exact (IH Ht)].
Qed.

Lemma last_Forall {A : Type} (P : A -> Prop) (s : list A) d :
  s <> [] -> Forall P s -> P (last s d).
Proof.
  intros Hne H. destruct (exists_last Hne) as (s' & a & ->).
  rewrite last_last. apply Forall_app in H. destruct H as [_ H].
  inversion H; assumption.
Qed.

(** ** The invariant holds in every session *)

Lemma Inv_still l l' :
  Inv l -> board l' = board l -> mvs l' = mvs l -> Inv l'.
Proof. unfold Inv. intros H Hb Hm. rewrite Hb, Hm. exact H. Qed.

Lemma Inv_step l l' moved : Inv l -> step_frame l l' moved -> Inv l'.
Proof.
  intros HI (Hg & Hd & Hlen & Hf & Ht). destruct moved.
  - specialize (Ht eq_refl). destruct HI as (H52 & Hne & Hlast & Hall & Hu).
    unfold Inv. rewrite Ht. cbn [record stack undos].
    rewrite last_last. repeat split; try congruence.
    + intros E. apply app_eq_nil in E. destruct E as [_ E]. discriminate.
    + apply Forall_app. split; [exact Hall|].
      constructor; [congruence | constructor].
  - destruct (Hf eq_refl) as [Hb Hm]. exact (Inv_still l l' HI Hb Hm).
Qed.

Lemma Undo_Inv l :
  Inv l ->
  exists l', Undo l = Some l' /\ Inv l'
    /\ gameSeed l' = gameSeed l /\ deal l' = deal l
    /\ selected l' = NO_CARD
    /\ mvs l' = (if 1 <? Z.of_nat (length (stack (mvs l)))
                 then mkMoves (removelast (stack (mvs l))) (undos (mvs l) + 1)
                 else mvs l)
    /\ board l' = (if 1 <? Z.of_nat (length (stack (mvs l)))
                   then last (removelast (stack (mvs l))) []
                   else board l).
Proof.
  intros (H52 & Hne & Hlast & Hall & Hu).
  unfold Undo. cbv zeta. autorewrite with fields.
  rewrite (undo_top (mvs l) Hne).
  destruct (1 <? Z.of_nat (length (stack (mvs l)))) eqn:Hlen.
  - eexists. split; [reflexivity|].
    apply Z.ltb_lt in Hlen.
    assert (Hne' : removelast (stack (mvs l)) <> [])
      by (apply removelast_nonempty; lia).
    pose proof (Forall_removelast _ _ Hall) as Hall'.
    repeat split; try reflexivity; cbn [board mvs stack undos with_board with_moves];
      try assumption; try lia.
    apply (last_Forall _ _ [] Hne' Hall').
  - eexists. split; [reflexivity|].
    repeat split; try reflexivity;
      cbn [board mvs stack undos with_board with_moves];
      try assumption; try congruence.
Qed.

Lemma dealCards_scan_frame cids : forall l,
  let l' := fold_left
    (fun acc cid => bset acc (ID (aget InvalidCard (deal acc) cid)) (cid + 8))
    cids l in
  selected l' = selected l /\ gameSeed l' = gameSeed l /\ deal l' = deal l
  /\ mvs l' = mvs l /\ length (board l') = length (board l).
Proof.
  induction cids as [|c cs IH]; intros l; cbn [fold_left].
  - repeat split.
  - destruct (IH (bset l (ID (aget InvalidCard (deal l) c)) (c + 8)))
      as (Hs & Hg & Hd & Hm & Hl).
    cbv zeta. rewrite Hs, Hg, Hd, Hm, Hl. autorewrite with fields.
    rewrite aset_length. repeat split.
Qed.

Lemma dealCards_frame l :
  selected (dealCards l) = selected l
  /\ gameSeed (dealCards l) = gameSeed l
  /\ deal (dealCards l) = deal l
  /\ mvs (dealCards l) = mvs l
  /\ length (board (dealCards l)) = length (board l).
Proof. exact (dealCards_scan_frame card_ids l). Qed.

Lemma NewGame_fields l seed :
  selected (NewGame l seed) = NO_CARD
  /\ gameSeed (NewGame l seed) = seed
  /\ deal (NewGame l seed) = shuffle seed deck
  /\ mvs (NewGame l seed) = mkMoves [board (NewGame l seed)] 0
  /\ length (board (NewGame l seed)) = length (board l).
Proof.
  unfold NewGame. generalize (shuffle seed deck). intros dealt. cbv zeta.
  match goal with
  | |- context [dealCards ?l3] =>
      destruct (dealCards_frame l3) as (Hs & Hg & Hd & Hm & Hl);
      generalize dependent (dealCards l3)
  end.
  intros l4 Hs Hg Hd Hm Hl.
  unfold record_board, with_moves, reset, record.
  cbn [selected gameSeed deal board mvs stack undos app].
  rewrite Hs, Hg, Hd, Hl. repeat split.
Qed.

Lemma NewGame_Inv l seed : length (board l) = 52%nat -> Inv (NewGame l seed).
Proof.
  intros H52. destruct (NewGame_fields l seed) as (Hs & Hg & Hd & Hm & Hl).
  generalize dependent (NewGame l seed). intros l' Hs Hg Hd Hm Hl.
  unfold Inv. rewrite Hm. cbn [stack undos last].
  split; [congruence|]. split; [discriminate|]. split; [reflexivity|].
  split; [|apply Z.le_refl].
  constructor; [congruence | constructor].
Qed.

Lemma exec_Inv l o : Inv l -> exists l', exec l o = Some l' /\ Inv l'.
Proof.
  intros HI. destruct o as [seed|pick| | |]; cbn [exec].
  - eexists; split; [reflexivity|]. apply NewGame_Inv. apply HI.
  - eexists; split; [reflexivity|].
    exact (Inv_step _ _ _ HI (Interact_frame l pick)).
  - destruct (Undo_Inv l HI) as (l' & HU & HI' & _). eauto.
  - eexists; split; [reflexivity|].
    exact (Inv_step _ _ _ HI (AutoMoveCard_frame l)).
  - eexists; split; [reflexivity|]. apply (Inv_still l); auto.
Qed.

Lemma run_from_Inv ops : forall l,
  Inv l -> exists l', run_from l ops = Some l' /\ Inv l'.
Proof.
  induction ops as [|o rest IH]; intros l HI; cbn [run_from].
  - eauto.
  - destruct (exec_Inv l o HI) as (l1 & -> & HI1). exact (IH l1 HI1).
Qed.

Lemma logic0_board : length (board logic0) = 52%nat.
Proof. reflexivity. Qed.

Lemma run_Inv seed ops : exists l, run seed ops = Some l /\ Inv l.
Proof.
  apply run_from_Inv. apply NewGame_Inv. exact logic0_board.
Qed.

Lemma run_Inv_of seed ops l : run seed ops = Some l -> Inv l.
Proof.
  intros H. destruct (run_Inv seed ops) as (l' & H' & HI). congruence.
Qed.

(** C8: after [NewGame] the history holds exactly the initial deal; every
    session, whatever calls follow, ends in a state (no call fails) whose
    history holds at least one snapshot; and [undo] removes a snapshot only
    when more than one remains, so it never removes the last one. *)
Theorem C8_history_never_empty :
  (forall l seed, stack (mvs (NewGame l seed)) = [board (NewGame l seed)])
  /\ (forall seed ops,
        exists l, run seed ops = Some l /\ (1 <= length (stack (mvs l)))%nat)
  /\ (forall mv mv' top,
        undo mv = Some (mv', top) ->
        (1 <= length (stack mv'))%nat
        /\ stack mv' = (if 1 <? Z.of_nat (length (stack mv))
                        then removelast (stack mv) else stack mv)).
Proof.
  split; [|split].
  - intros l seed. destruct (NewGame_fields l seed) as (_ & _ & _ & Hm & _).
    rewrite Hm. reflexivity.
  - intros seed ops. destruct (run_Inv seed ops) as (l & Hrun & HI).
    exists l. split; [exact Hrun|].
    destruct HI as (_ & Hne & _). destruct (stack (mvs l)); [contradiction|].
    cbn [length]. lia.
  - intros mv mv' top H.
    assert (Hcase : stack mv = [] \/ stack mv <> [])
      by (destruct (stack mv); [left; reflexivity | right; discriminate]).
    destruct Hcase as [Hs|Hne].
    + rewrite (undo_empty mv Hs) in H. discriminate.
    + rewrite (undo_top mv Hne) in H.
      destruct (1 <? Z.of_nat (length (stack mv))) eqn:Hlen;
        injection H as Hmv _; subst mv'; cbn [stack].
      * split; [|reflexivity]. apply Z.ltb_lt in Hlen.
        pose proof (removelast_nonempty (stack mv)) as Hr.
        destruct (removelast (stack mv));
          [exfalso; apply Hr; [lia|reflexivity]|].
        cbn [length]. lia.
      * split; [|reflexivity].
        destruct (stack mv); [contradiction | cbn [length]; lia].
Qed.

(** ** Counting moves *)

Lemma removelast_length {A : Type} (s : list A) :
  s <> [] -> S (length (removelast s)) = length s.
Proof.
  intros Hne. destruct (exists_last Hne) as (s' & a & ->).
  rewrite removelast_last, length_app. cbn [length]. lia.
Qed.

(** One call against the bookkeeping: the undo counter moves with the
    undos performed, and stack length plus counter with the moves made. *)
Lemma exec_counts l o l' :
  Inv l -> exec l o = Some l' ->
  undos (mvs l') =
    (if is_new_game o then 0
     else if undo_performed l o l' then undos (mvs l) + 1 else undos (mvs l))
  /\ hlen l' + undos (mvs l') =
    (if is_new_game o then 1
     else hlen l + undos (mvs l) + (if move_committed l o then 1 else 0)).
Proof.
  intros HI He. unfold hlen.
  destruct o as [seed|pick| | |]; cbn [exec] in He;
    cbn [is_new_game undo_performed move_committed].
  - injection He as <-.
    destruct (NewGame_fields l seed) as (_ & _ & _ & Hm & _).
    rewrite Hm. cbn [stack undos length]. split; reflexivity.
  - injection He as <-.
    destruct (Interact_frame l pick) as (_ & _ & _ & Hf & Ht).
    destruct (snd (Interact l pick)).
    + rewrite (Ht eq_refl). cbn [record stack undos].
      rewrite length_app. cbn [length]. split; lia.
    + destruct (Hf eq_refl) as [_ ->]. split; lia.
  - destruct (Undo_Inv l HI) as (l1 & HU & _ & _ & _ & _ & Hm & _).
    rewrite HU in He. injection He as <-. rewrite Hm.
    destruct HI as (_ & Hne & _).
    pose proof (removelast_length _ Hne) as Hrl.
    destruct (1 <? Z.of_nat (length (stack (mvs l)))) eqn:Hlen;
      cbn [stack undos].
    + replace (length (removelast (stack (mvs l))) <? length (stack (mvs l)))%nat
        with true by (symmetry; apply Nat.ltb_lt; lia).
      split; lia.
    + rewrite Nat.ltb_irrefl. split; lia.
  - injection He as <-.
    destruct (AutoMoveCard_frame l) as (_ & _ & _ & Hf & Ht).
    destruct (snd (AutoMoveCard l)).
    + rewrite (Ht eq_refl). cbn [record stack undos].
      rewrite length_app. cbn [length]. split; lia.
    + destruct (Hf eq_refl) as [_ ->]. split; lia.
  - injection He as <-. autorewrite with fields. split; lia.
Qed.

Lemma run_from_counts ops : forall l u c l',
  Inv l -> undos (mvs l) = u -> hlen l + undos (mvs l) = 1 + c ->
  run_from l ops = Some l' ->
  undos (mvs l') = undos_performed_from l u ops
  /\ hlen l' + undos (mvs l') = 1 + moves_committed_from l c ops.
Proof.
  induction ops as [|o rest IH]; intros l u c l' HI Hu Hc Hrun;
    cbn [run_from undos_performed_from moves_committed_from] in *.
  - injection Hrun as <-. split; assumption.
  - destruct (exec_Inv l o HI) as (l1 & He & HI1).
    rewrite He in *. cbv zeta.
    destruct (exec_counts l o l1 HI He) as [Hu1 Hc1].
    apply (IH l1); try assumption.
    + rewrite Hu1, Hu. reflexivity.
    + rewrite Hc1. destruct (is_new_game o); [reflexivity|].
      destruct (move_committed l o); lia.
Qed.

Lemma run_counts seed ops l :
  run seed ops = Some l ->
  undos (mvs l) = undos_performed seed ops
  /\ hlen l + undos (mvs l) = 1 + moves_committed seed ops.
Proof.
  intros Hrun. unfold undos_performed, moves_committed.
  destruct (NewGame_fields logic0 seed) as (_ & _ & _ & Hm & _).
  apply (run_from_counts ops (NewGame logic0 seed));
    [ apply NewGame_Inv; exact logic0_board
    | rewrite Hm; reflexivity
    | unfold hlen; rewrite Hm; reflexivity
    | exact Hrun ].
Qed.

(** C3: in every state a session reaches, [count()] is the length of the
    history stack plus twice the number of undos performed since the deal
    (an undo is performed when it takes a snapshot off the history), and
    [MoveCount()] is that count minus 1, floored at 0. *)
Theorem C3_count_and_MoveCount (seed : Z) (ops : list op) (l : logic) :
  run seed ops = Some l ->
  count (mvs l)
  = Z.of_nat (length (stack (mvs l))) + 2 * undos_performed seed ops
  /\ MoveCount l = Z.max 0 (count (mvs l) - 1).
Proof.
  intros Hrun. destruct (run_counts seed ops l Hrun) as [Hu _].
  split.
  - unfold count. rewrite Hu. lia.
  - unfold MoveCount. destruct (0 <? count (mvs l)) eqn:Hc.
    + apply Z.ltb_lt in Hc. lia.
    + apply Z.ltb_ge in Hc. lia.
Qed.

Lemma C3_count_and_MoveCount_witness :
  exists l,
    run 1 [OpInteract 28; OpInteract 100; OpUndo; OpUndo] = Some l
    /\ (count (mvs l)
        = Z.of_nat (length (stack (mvs l)))
          + 2 * undos_performed 1 [OpInteract 28; OpInteract 100; OpUndo; OpUndo]
        /\ MoveCount l = Z.max 0 (count (mvs l) - 1)).
Proof.
  eexists. split; [vm_compute; reflexivity|].
  apply (C3_count_and_MoveCount 1). vm_compute. reflexivity.
Defined.

(** ** Undo *)

Lemma Undo_single l :
  Inv l -> length (stack (mvs l)) = 1%nat -> Undo l = Some (clearSelected l).
Proof.
  intros HI H1. destruct (Undo_Inv l HI) as (l' & HU & _ & Hg & Hd & Hs & Hm & Hb).
  rewrite H1 in Hm, Hb. cbn [Z.of_nat Pos.of_succ_nat Z.ltb Z.compare Pos.compare Pos.compare_cont] in Hm, Hb.
  rewrite HU. f_equal. destruct l'. cbn [selected gameSeed deal board mvs] in *.
  subst. reflexivity.
Qed.

Lemma Undo_n_single n : forall l,
  Inv l -> length (stack (mvs l)) = 1%nat ->
  Undo_n (S n) l = Some (clearSelected l).
Proof.
  induction n as [|n IH]; intros l HI H1.
  - cbn [Undo_n]. rewrite (Undo_single l HI H1). reflexivity.
  - change (Undo_n (S (S n)) l)
      with (match Undo l with Some l' => Undo_n (S n) l' | None => None end).
    rewrite (Undo_single l HI H1).
    rewrite IH; [reflexivity | apply (Inv_still l); auto | exact H1].
Qed.

(** C10: while no move has been committed since [NewGame], the history
    holds only the initial deal, and any number of [Undo] calls (one or
    more) ends in the same state with the selection cleared: the board and
    the undo counter are unchanged and [MoveCount()] stays 0. *)
Theorem C10_undo_without_moves (seed : Z) (ops : list op) (l : logic) (n : nat) :
  run seed ops = Some l ->
  moves_committed seed ops = 0 ->
  stack (mvs l) = [board l]
  /\ MoveCount l = 0
  /\ exists l', Undo_n (S n) l = Some l'
       /\ l' = clearSelected l
       /\ board l' = board l
       /\ undos (mvs l') = undos (mvs l)
       /\ MoveCount l' = 0.
Proof.
  intros Hrun Hc.
  pose proof (run_Inv_of seed ops l Hrun) as HI.
  destruct (run_counts seed ops l Hrun) as [_ Hsum]. rewrite Hc in Hsum.
  destruct HI as (H52 & Hne & Hlast & Hall & Hu).
  assert (H1 : length (stack (mvs l)) = 1%nat).
  { unfold hlen in Hsum. destruct (stack (mvs l)) as [|a t];
      [contradiction | cbn [length] in *; lia]. }
  assert (Hu0 : undos (mvs l) = 0) by (unfold hlen in Hsum; lia).
  assert (HM : MoveCount l = 0).
  { unfold MoveCount, count. rewrite H1, Hu0. reflexivity. }
  split; [|split; [exact HM|]].
  - destruct (stack (mvs l)) as [|a [|b t]]; cbn [length] in H1;
      try discriminate. cbn [last] in Hlast. congruence.
  - exists (clearSelected l). split.
    + apply Undo_n_single; [repeat split; assumption | exact H1].
    + repeat split; try reflexivity. exact HM.
Qed.

Lemma C10_undo_without_moves_witness :
  exists l,
    run 7 [OpInteract 5; OpUndo; OpInteract 200] = Some l
    /\ moves_committed 7 [OpInteract 5; OpUndo; OpInteract 200] = 0
    /\ (stack (mvs l) = [board l]
        /\ MoveCount l = 0
        /\ exists l', Undo_n 3 l = Some l'
             /\ l' = clearSelected l
             /\ board l' = board l
             /\ undos (mvs l') = undos (mvs l)
             /\ MoveCount l' = 0).
Proof.
  eexists. split; [vm_compute; reflexivity|].
  split; [vm_compute; reflexivity|].
  apply (C10_undo_without_moves 7 [OpInteract 5; OpUndo; OpInteract 200]);
    vm_compute; reflexivity.
Defined.

Lemma Undo_after_commit l pick l1 :
  Inv l -> Interact l pick = (l1, true) ->
  exists l2, Undo l1 = Some l2 /\ board l2 = board l.
Proof.
  intros HI Hint.
  pose proof (Interact_frame l pick) as HF. rewrite Hint in HF.
  cbn [fst snd] in HF.
  pose proof (Inv_step _ _ _ HI HF) as HI1.
  destruct HF as (_ & _ & _ & _ & Ht). specialize (Ht eq_refl).
  destruct (Undo_Inv l1 HI1) as (l2 & HU & _ & _ & _ & _ & _ & Hb).
  exists l2. split; [exact HU|]. rewrite Hb, Ht. cbn [record stack].
  destruct HI as (_ & Hne & Hlast & _).
  rewrite length_app, removelast_last. cbn [length].
  replace (1 <? Z.of_nat (length (stack (mvs l)) + 1)) with true.
  - exact Hlast.
  - symmetry. apply Z.ltb_lt.
    destruct (stack (mvs l)); [contradiction | cbn [length]; lia].
Qed.

(** C5: in every state a session reaches, when [Interact(pick)] returns
    true, an [Undo] right after it succeeds and gives back, entry for
    entry, the board as it was before that [Interact]. *)
Theorem C5_undo_restores_board
  (seed : Z) (ops : list op) (l : logic) (pick : Z) (l1 : logic) :
  run seed ops = Some l ->
  Interact l pick = (l1, true) ->
  exists l2, Undo l1 = Some l2 /\ board l2 = board l.
Proof.
  intros Hrun Hint.
  exact (Undo_after_commit l pick l1 (run_Inv_of seed ops l Hrun) Hint).
Qed.

Lemma C5_undo_restores_board_witness :
  exists l l1,
    run 1 [OpInteract 28] = Some l
    /\ Interact l 100 = (l1, true)
    /\ exists l2, Undo l1 = Some l2 /\ board l2 = board l.
Proof.
  eexists. eexists. split; [vm_compute; reflexivity|].
  split; [vm_compute; reflexivity|].
  apply (C5_undo_restores_board 1 [OpInteract 28] _ 100);
    vm_compute; reflexivity.
Defined.

(** ** Picks outside the card and pile ranges *)

Lemma canInteract_out_of_range l pick :
  pick < 0 \/ 51 < pick -> pick < 100 \/ 115 < pick ->
  canInteract l pick = false.
Proof.
  intros Hcard Hpile.
  assert (Hc : isCard pick = false).
  { unfold isCard, AC, KS. apply andb_false_iff.
    destruct Hcard; [left; apply Z.leb_gt | right; apply Z.leb_gt]; lia. }
  assert (Hp : (EMPTY_PILE1 <=? pick) && (pick <=? EMPTY_PILE16) = false).
  { unfold EMPTY_PILE1, EMPTY_PILE16. apply andb_false_iff.
    destruct Hpile; [left; apply Z.leb_gt | right; apply Z.leb_gt]; lia. }
  unfold canInteract, canPlaceCard, canSelectCard. cbv zeta.
  rewrite Hp, Hc. cbn [negb]. destruct (isSelectionActive l); reflexivity.
Qed.

(** C9: in every state, reachable or not, a pick that is neither a card id
    (0..51) nor an empty-pile id (100..115) makes [Interact] return false;
    the only change is that the selection is cleared, so the board and the
    history (stack and undo counter) are as before. *)
Theorem C9_invalid_pick_is_noop (l : logic) (pick : Z) :
  pick < 0 \/ 51 < pick -> pick < 100 \/ 115 < pick ->
  Interact l pick = (clearSelected l, false)
  /\ snd (Interact l pick) = false
  /\ board (fst (Interact l pick)) = board l
  /\ stack (mvs (fst (Interact l pick))) = stack (mvs l)
  /\ undos (mvs (fst (Interact l pick))) = undos (mvs l).
Proof.
  intros Hcard Hpile.
  assert (HE : Interact l pick = (clearSelected l, false)).
  { unfold Interact. rewrite (canInteract_out_of_range l pick Hcard Hpile).
    cbn [negb]. cbv zeta.
    assert (Hc : isCard pick = false).
    { unfold isCard, AC, KS. apply andb_false_iff.
      destruct Hcard; [left; apply Z.leb_gt | right; apply Z.leb_gt]; lia. }
    rewrite Hc. cbn [andb]. destruct (negb (pick =? selected l)); reflexivity. }
  rewrite HE. cbn [fst snd]. repeat split.
Qed.

Lemma C9_invalid_pick_is_noop_witness :
  exists l,
    run 1 [OpInteract 28] = Some l
    /\ (Interact l 60 = (clearSelected l, false)
        /\ snd (Interact l 60) = false
        /\ board (fst (Interact l 60)) = board l
        /\ stack (mvs (fst (Interact l 60))) = stack (mvs l)
        /\ undos (mvs (fst (Interact l 60))) = undos (mvs l)).
Proof.
  eexists. split; [vm_compute; reflexivity|].
  apply C9_invalid_pick_is_noop; [right | left]; lia.
Defined.

(** ** The rules read the board and the selection only *)

Section WithMoves.
Variable m : moves.

Lemma bget_with_moves l c : bget (with_moves l m) c = bget l c.
Proof. reflexivity. Qed.

Lemma selected_with_moves l : selected (with_moves l m) = selected l.
Proof. reflexivity. Qed.

Lemma isSelectionActive_with_moves l :
  isSelectionActive (with_moves l m) = isSelectionActive l.
Proof. reflexivity. Qed.

Lemma clearSelected_with_moves l :
  clearSelected (with_moves l m) = with_moves (clearSelected l) m.
Proof. reflexivity. Qed.

Lemma with_selected_with_moves l s :
  with_selected (with_moves l m) s = with_moves (with_selected l s) m.
Proof. reflexivity. Qed.

Lemma bset_with_moves l c v :
  bset (with_moves l m) c v = with_moves (bset l c v) m.
Proof. reflexivity. Qed.

Lemma cardAt_scan_with_moves l pos cids :
  cardAt_scan (with_moves l m) pos cids = cardAt_scan l pos cids.
Proof.
  induction cids as [|c cs IH]; cbn [cardAt_scan]; [reflexivity|].
  rewrite IH, bget_with_moves. reflexivity.
Qed.

Lemma cardAt_with_moves l pos : cardAt (with_moves l m) pos = cardAt l pos.
Proof. apply cardAt_scan_with_moves. Qed.

Lemma isLastInCascade_with_moves l c :
  isLastInCascade (with_moves l m) c = isLastInCascade l c.
Proof.
  unfold isLastInCascade. rewrite cardAt_with_moves, !bget_with_moves.
  reflexivity.
Qed.

Lemma lastInCascade_scan_with_moves l k cids :
  lastInCascade_scan (with_moves l m) k cids = lastInCascade_scan l k cids.
Proof.
  induction cids as [|c cs IH]; cbn [lastInCascade_scan]; [reflexivity|].
  rewrite IH, isLastInCascade_with_moves, bget_with_moves. reflexivity.
Qed.

Lemma lastInCascade_with_moves l k :
  lastInCascade (with_moves l m) k = lastInCascade l k.
Proof. apply lastInCascade_scan_with_moves. Qed.

Lemma emptyPile_with_moves l p : emptyPile (with_moves l m) p = emptyPile l p.
Proof.
  unfold emptyPile. destruct ((0 <=? p) && (p <=? 15)); reflexivity.
Qed.

Lemma countEmptyCells_with_moves l piles :
  countEmptyCells (with_moves l m) piles = countEmptyCells l piles.
Proof.
  unfold countEmptyCells. generalize 0.
  induction piles as [|p ps IH]; intros acc; cbn [fold_left]; [reflexivity|].
  rewrite emptyPile_with_moves. apply IH.
Qed.

Lemma emptyFreeCells_with_moves l :
  emptyFreeCells (with_moves l m) = emptyFreeCells l.
Proof. apply countEmptyCells_with_moves. Qed.

Lemma emptyCascades_with_moves l :
  emptyCascades (with_moves l m) = emptyCascades l.
Proof. apply countEmptyCells_with_moves. Qed.

Lemma movableStackSize_with_moves l used :
  movableStackSize (with_moves l m) used = movableStackSize l used.
Proof.
  unfold movableStackSize.
  rewrite emptyCascades_with_moves, emptyFreeCells_with_moves. reflexivity.
Qed.

Lemma GetSelected_loop_with_moves fuel : forall l c nxt v,
  GetSelected_loop fuel (with_moves l m) c nxt v
  = GetSelected_loop fuel l c nxt v.
Proof.
  induction fuel as [|fuel IH]; intros; cbn [GetSelected_loop];
    [reflexivity|].
  cbv zeta. rewrite IH, cardAt_with_moves, bget_with_moves. reflexivity.
Qed.

Lemma GetSelected_with_moves l : GetSelected (with_moves l m) = GetSelected l.
Proof.
  unfold GetSelected. cbv zeta.
  rewrite GetSelected_loop_with_moves, cardAt_with_moves,
    isSelectionActive_with_moves, selected_with_moves, bget_with_moves.
  reflexivity.
Qed.

Lemma canMoveToCascade_scan_with_moves l c ks :
  canMoveToCascade_scan (with_moves l m) c ks = canMoveToCascade_scan l c ks.
Proof.
  induction ks as [|k ks IH]; cbn [canMoveToCascade_scan]; [reflexivity|].
  cbv zeta. rewrite IH, lastInCascade_with_moves. reflexivity.
Qed.

Lemma canMoveToCascade_with_moves l c :
  canMoveToCascade (with_moves l m) c = canMoveToCascade l c.
Proof. apply canMoveToCascade_scan_with_moves. Qed.

Lemma getSequence_loop_with_moves fuel : forall l c nxt v,
  getSequence_loop fuel (with_moves l m) c nxt v
  = getSequence_loop fuel l c nxt v.
Proof.
  induction fuel as [|fuel IH]; intros; cbn [getSequence_loop];
    [reflexivity|].
  cbv zeta. rewrite IH, cardAt_with_moves, bget_with_moves. reflexivity.
Qed.

Lemma getSequence_with_moves l c :
  getSequence (with_moves l m) c = getSequence l c.
Proof.
  unfold getSequence. cbv zeta.
  rewrite getSequence_loop_with_moves, !cardAt_with_moves,
    canMoveToCascade_with_moves, movableStackSize_with_moves,
    !bget_with_moves.
  reflexivity.
Qed.

Lemma canPlaceCard_with_moves l pick :
  canPlaceCard (with_moves l m) pick = canPlaceCard l pick.
Proof.
  unfold canPlaceCard. cbv zeta.
  rewrite GetSelected_with_moves, !emptyPile_with_moves,
    isLastInCascade_with_moves, !bget_with_moves.
  reflexivity.
Qed.

Lemma canSelectCard_with_moves l pick :
  canSelectCard (with_moves l m) pick = canSelectCard l pick.
Proof.
  unfold canSelectCard. cbv zeta.
  rewrite getSequence_with_moves, emptyFreeCells_with_moves,
    emptyCascades_with_moves, canMoveToCascade_with_moves,
    emptyPile_with_moves, cardAt_with_moves, !bget_with_moves.
  reflexivity.
Qed.

Lemma canInteract_with_moves l pick :
  canInteract (with_moves l m) pick = canInteract l pick.
Proof.
  unfold canInteract.
  rewrite isSelectionActive_with_moves, canPlaceCard_with_moves,
    canSelectCard_with_moves.
  reflexivity.
Qed.

Lemma place_rest_with_moves rest : forall l prev,
  place_rest (with_moves l m) prev rest = with_moves (place_rest l prev rest) m.
Proof.
  induction rest as [|c rest IH]; intros; cbn [place_rest]; [reflexivity|].
  rewrite bget_with_moves, bset_with_moves. apply IH.
Qed.

Lemma place_seq_with_moves l seq dest :
  place_seq (with_moves l m) seq dest = with_moves (place_seq l seq dest) m.
Proof.
  destruct seq as [|c0 rest]; cbn [place_seq]; [reflexivity|].
  rewrite bset_with_moves. apply place_rest_with_moves.
Qed.

Lemma record_board_with_moves l :
  record_board (with_moves l m)
  = with_moves (record_board l) (record m (board (record_board l))).
Proof. reflexivity. Qed.

(** [Interact] on a state that differs in its history only: the same
    selection, board and answer, the snapshot pushed on the other
    history. *)
Lemma Interact_with_moves l pick :
  Interact (with_moves l m) pick
  = (with_moves (fst (Interact l pick))
       (if snd (Interact l pick)
        then record m (board (fst (Interact l pick))) else m),
     snd (Interact l pick)).
Proof.
  unfold Interact. cbv zeta.
  rewrite ?canInteract_with_moves, ?isSelectionActive_with_moves,
    ?selected_with_moves, ?GetSelected_with_moves,
    ?clearSelected_with_moves, ?canInteract_with_moves,
    ?emptyPile_with_moves, ?movableStackSize_with_moves,
    ?bget_with_moves, ?with_selected_with_moves, ?bset_with_moves,
    ?place_seq_with_moves, ?bset_with_moves, ?record_board_with_moves.
  repeat (cbn [fst snd];
    match goal with
    | |- context [if ?c then _ else _] =>
        lazymatch c with
        | context [if _ then _ else _] => fail
        | _ => destruct c
        end
    end); cbn [fst snd]; reflexivity.
Qed.
End WithMoves.

(** ** Move, undo, move again *)

Lemma logic_eq l l' :
  selected l' = selected l -> gameSeed l' = gameSeed l -> deal l' = deal l ->
  board l' = board l -> mvs l' = mvs l -> l' = l.
Proof.
  destruct l, l'. cbn [selected gameSeed deal board mvs].
  intros; subst; reflexivity.
Qed.

Lemma move_undo_move l0 sel pick la lb :
  Inv l0 -> selected l0 = NO_CARD -> mvs l0 = mkMoves [board l0] 0 ->
  Interact l0 sel = (la, false) ->
  Interact la pick = (lb, true) ->
  MoveCount l0 = 0 /\ MoveCount lb = 1
  /\ exists lc, Undo lb = Some lc /\ MoveCount lc = 2
     /\ exists ld le,
          Interact lc sel = (ld, false)
          /\ Interact ld pick = (le, true)
          /\ MoveCount le = 3.
Proof.
  intros HI0 Hsel Hm0 Ha Hb.
  pose proof (Interact_frame l0 sel) as Fa. rewrite Ha in Fa.
  cbn [fst snd] in Fa.
  pose proof (Inv_step _ _ _ HI0 Fa) as HIa.
  destruct Fa as (Hga & Hda & _ & Hfa & _).
  destruct (Hfa eq_refl) as [Hba Hma].
  pose proof (Interact_frame la pick) as Fb. rewrite Hb in Fb.
  cbn [fst snd] in Fb.
  pose proof (Inv_step _ _ _ HIa Fb) as HIb.
  destruct Fb as (Hgb & Hdb & _ & _ & Htb). specialize (Htb eq_refl).
  rewrite Hma, Hm0 in Htb. unfold record in Htb.
  cbn [stack undos app] in Htb.
  split; [unfold MoveCount, count; rewrite Hm0; reflexivity|].
  split; [unfold MoveCount, count; rewrite Htb; reflexivity|].
  destruct (Undo_Inv lb HIb) as (lc & HU & _ & Hgc & Hdc & Hsc & Hmc & Hbc).
  rewrite Htb in Hmc, Hbc. cbn [stack undos] in Hmc, Hbc.
  assert (Hlt : (1 <? Z.of_nat (length [board l0; board lb])) = true)
    by reflexivity.
  rewrite Hlt in Hmc, Hbc. cbn [removelast last] in Hmc, Hbc.
  change (0 + 1) with 1 in Hmc.
  exists lc. split; [exact HU|].
  split; [unfold MoveCount, count; rewrite Hmc; reflexivity|].
  assert (Hlc : lc = with_moves l0 (mkMoves [board l0] 1)).
  { apply logic_eq; cbn [with_moves selected gameSeed deal board mvs];
      congruence. }
  pose proof (Interact_with_moves (mkMoves [board l0] 1) l0 sel) as Sa.
  rewrite Ha in Sa. cbn [fst snd] in Sa.
  pose proof (Interact_with_moves (mkMoves [board l0] 1) la pick) as Sb.
  rewrite Hb in Sb. cbn [fst snd] in Sb.
  eexists. eexists. rewrite Hlc.
  split; [exact Sa|]. split; [exact Sb|].
  unfold MoveCount, count. reflexivity.
Qed.

(** Game 1: the eight of clubs is picked and moved to a freecell, then the
    move is undone; [MoveCount()] is then 2 and not 0. *)
Lemma C4_counterexample :
  exists la lb lc,
    Interact (NewGame logic0 1) 28 = (la, false)
    /\ Interact la 100 = (lb, true)
    /\ MoveCount lb = 1
    /\ Undo lb = Some lc
    /\ MoveCount lc = 2
    /\ MoveCount lc <> 0.
Proof.
  eexists. eexists. eexists.
  split; [vm_compute; reflexivity|].
  split; [vm_compute; reflexivity|].
  split; [vm_compute; reflexivity|].
  split; [vm_compute; reflexivity|].
  split; [vm_compute; reflexivity|].
  vm_compute. discriminate.
Qed.

(** C4, as amended: in a session started with [NewGame(seed)], [MoveCount()]
    is 0 right after [NewGame]; when a card is picked and an [Interact]
    then commits a move it is 1; after that move and one [Undo] it is 2;
    and after the same pick and the same move are made again it is 3. *)
Theorem C4_MoveCount_move_undo_move (seed sel pick : Z) (la lb : logic) :
  Interact (NewGame logic0 seed) sel = (la, false) ->
  Interact la pick = (lb, true) ->
  MoveCount (NewGame logic0 seed) = 0 /\ MoveCount lb = 1
  /\ exists lc, Undo lb = Some lc /\ MoveCount lc = 2
     /\ exists ld le,
          Interact lc sel = (ld, false)
          /\ Interact ld pick = (le, true)
          /\ MoveCount le = 3.
Proof.
  destruct (NewGame_fields logic0 seed) as (Hs & _ & _ & Hm & _).
  pose proof (NewGame_Inv logic0 seed logic0_board) as HI.
  generalize dependent (NewGame logic0 seed). intros l0 Hs Hm HI.
  apply move_undo_move; assumption.
Qed.

Lemma C4_MoveCount_move_undo_move_witness :
  Interact (NewGame logic0 1) 28 = (game1_picked, false)
  /\ Interact game1_picked 100 = (game1_moved, true)
  /\ (MoveCount (NewGame logic0 1) = 0 /\ MoveCount game1_moved = 1
      /\ exists lc, Undo game1_moved = Some lc /\ MoveCount lc = 2
         /\ exists ld le,
              Interact lc 28 = (ld, false)
              /\ Interact ld 100 = (le, true)
              /\ MoveCount le = 3).
Proof.
  assert (Ha : Interact (NewGame logic0 1) 28 = (game1_picked, false))
    by (vm_compute; reflexivity).
  assert (Hb : Interact game1_picked 100 = (game1_moved, true))
    by (vm_compute; reflexivity).
  split; [exact Ha|]. split; [exact Hb|].
  exact (C4_MoveCount_move_undo_move 1 28 100 game1_picked game1_moved Ha Hb).
Defined.

(** ** Cards and board entries *)

Lemma wrap_small x : 0 <= x < 18446744073709551616 -> wrap x = x.
Proof. intros H. unfold wrap. apply Z.mod_small. exact H. Qed.

Lemma card_ids_In c : In c card_ids <-> 0 <= c <= 51.
Proof.
  unfold card_ids. rewrite in_map_iff. split.
  - intros (n & <- & Hn). apply in_seq in Hn. lia.
  - intros Hc. exists (Z.to_nat c). split; [lia|]. apply in_seq. lia.
Qed.

Lemma isCard_range c : isCard c = true <-> 0 <= c <= 51.
Proof.
  unfold isCard, AC, KS. rewrite andb_true_iff, !Z.leb_le. reflexivity.
Qed.

(** A property checked on the 52 ids holds of every card id. *)
Lemma forall_cards (P : Z -> bool) :
  forallb P card_ids = true -> forall c, isCard c = true -> P c = true.
Proof.
  intros H c Hc. rewrite forallb_forall in H. apply H.
  apply card_ids_In. apply isCard_range. exact Hc.
Qed.

Lemma getCard_ID c : isCard c = true -> ID (getCard c) = c.
Proof.
  intros Hc. apply Z.eqb_eq.
  apply (forall_cards (fun c => ID (getCard c) =? c)); [|exact Hc].
  vm_compute. reflexivity.
Qed.

Lemma aget_aset_same {A : Type} (d : A) a i v :
  (Z.to_nat i < length a)%nat -> aget d (aset a i v) i = v.
Proof. intros H. unfold aget, aset. apply nth_upd_same. exact H. Qed.

Lemma aget_aset_other {A : Type} (d : A) a i j v :
  0 <= i -> 0 <= j -> i <> j -> aget d (aset a i v) j = aget d a j.
Proof.
  intros Hi Hj Hij. unfold aget, aset. apply nth_upd_other. lia.
Qed.

(** ** Placing a card onto a foundation top *)

Lemma Interact_onto_foundation l p l1 :
  isCard p = true -> isFoundation (bget l p) = true ->
  Interact l p = (l1, true) ->
  isSelectionActive l = true
  /\ Rank (getCard (selected l)) = Rank (getCard p) + 1
  /\ l1 = record_board
            (bset (bset (clearSelected l) p (wrap (bget l p + HIDDEN_CARD)))
                  (selected l) (bget l p)).
Proof.
  intros Hp Hf Hint. unfold Interact in Hint. cbv zeta in Hint.
  assert (Hpile : (EMPTY_PILE1 <=? p) && (p <=? EMPTY_PILE16) = false).
  { apply isCard_range in Hp. unfold EMPTY_PILE1. apply andb_false_iff.
    left. apply Z.leb_gt. lia. }
  assert (Hcas : isCascade (bget l p) = false).
  { unfold isFoundation in Hf. unfold isCascade.
    apply andb_true_iff in Hf. destruct Hf as [_ Hf]. apply Z.leb_le in Hf.
    apply andb_false_iff. left. apply Z.leb_gt. lia. }
  destruct (negb (canInteract l p)).
  { destruct (negb (p =? selected l));
      [destruct (isCard p && canInteract (clearSelected l) p)|];
      discriminate Hint. }
  destruct (isSelectionActive l) eqn:Hact.
  2: { rewrite Hp in Hint. discriminate Hint. }
  rewrite Hpile, Hp in Hint.
  rewrite (getCard_ID p Hp) in Hint.
  rewrite (getCard_ID (selected l) Hact) in Hint.
  change (bget (clearSelected l) p) with (bget l p) in Hint.
  rewrite Hf, Hcas in Hint. cbn [andb] in Hint.
  destruct (len (GetSelected l) =? 1); [|discriminate Hint].
  destruct (Rank (getCard (selected l)) =? Rank (getCard p) + 1) eqn:Hr;
    [|discriminate Hint].
  apply Z.eqb_eq in Hr. injection Hint as <-.
  repeat split; assumption.
Qed.

(** C7: in every state a session reaches, when [Interact] places the
    selected card onto a card [p] that is the visible top of a foundation
    (its location is one of 4..7), the new board holds [p] at its previous
    location plus 9999 and the selected card at that foundation slot; an
    [Undo] right after puts [p] back at its foundation location. *)
Theorem C7_foundation_burial
  (seed : Z) (ops : list op) (l : logic) (p : Z) (l1 : logic) :
  run seed ops = Some l ->
  isCard p = true -> isFoundation (bget l p) = true ->
  Interact l p = (l1, true) ->
  bget l1 p = bget l p + HIDDEN_CARD
  /\ bget l1 (selected l) = bget l p
  /\ 4 <= bget l p <= 7
  /\ exists l2, Undo l1 = Some l2 /\ bget l2 p = bget l p.
Proof.
  intros Hrun Hp Hf Hint.
  pose proof (run_Inv_of seed ops l Hrun) as HI.
  destruct (Interact_onto_foundation l p l1 Hp Hf Hint) as (Hact & Hr & Hl1).
  assert (Hslot : 4 <= bget l p <= 7).
  { unfold isFoundation in Hf. apply andb_true_iff in Hf.
    rewrite !Z.leb_le in Hf. exact Hf. }
  assert (Hw : wrap (bget l p + HIDDEN_CARD) = bget l p + HIDDEN_CARD)
    by (apply wrap_small; unfold HIDDEN_CARD; lia).
  assert (Hne : p <> selected l).
  { intros E. rewrite <- E in Hr. lia. }
  apply isCard_range in Hp. apply isCard_range in Hact.
  destruct HI as (H52 & HIrest).
  split; [|split; [|split; [exact Hslot|]]].
  - rewrite Hl1, Hw. unfold bget. autorewrite with fields.
    rewrite aget_aset_other by lia.
    apply aget_aset_same. rewrite H52. lia.
  - rewrite Hl1. unfold bget. autorewrite with fields.
    apply aget_aset_same. rewrite aset_length, H52. lia.
  - destruct (Undo_after_commit l p l1 (conj H52 HIrest) Hint)
      as (l2 & HU & Hb).
    exists l2. split; [exact HU|]. unfold bget. rewrite Hb. reflexivity.
Qed.

Lemma C7_foundation_burial_witness :
  exists l l1,
    run 1 opening1 = Some l
    /\ isCard 2 = true
    /\ isFoundation (bget l 2) = true
    /\ Interact l 2 = (l1, true)
    /\ (bget l1 2 = bget l 2 + HIDDEN_CARD
        /\ bget l1 (selected l) = bget l 2
        /\ 4 <= bget l 2 <= 7
        /\ exists l2, Undo l1 = Some l2 /\ bget l2 2 = bget l 2).
Proof.
  eexists. eexists.
  split; [vm_compute; reflexivity|].
  split; [reflexivity|].
  split; [vm_compute; reflexivity|].
  split; [vm_compute; reflexivity|].
  apply (C7_foundation_burial 1 opening1); vm_compute; reflexivity.
Defined.

(** ** The loops never run out of passes *)

Lemma GetSelected_loop_fuel fuel : forall l c nxt v,
  (10 <= fuel + length v)%nat ->
  GetSelected_loop (S fuel) l c nxt v = GetSelected_loop fuel l c nxt v.
Proof.
  induction fuel as [|fuel IH]; intros l c nxt v Hlen.
  - cbn [GetSelected_loop].
    replace (len v <? 10) with false
      by (symmetry; apply Z.ltb_ge; unfold len; lia).
    rewrite andb_false_r. reflexivity.
  - change (GetSelected_loop (S (S fuel)) l c nxt v) with
      (if negb (nxt =? NO_CARD)
          && nextInSequence (getCard c) (getCard nxt) && (len v <? 10)
       then GetSelected_loop (S fuel) l nxt
              (cardAt l (wrap (bget l nxt + 8))) (v ++ [nxt])
       else v).
    rewrite IH by (rewrite length_app; cbn [length]; lia).
    reflexivity.
Qed.

Lemma getSequence_loop_fuel fuel : forall l c nxt v,
  (14 <= fuel + length v)%nat ->
  getSequence_loop (S fuel) l c nxt v = getSequence_loop fuel l c nxt v.
Proof.
  induction fuel as [|fuel IH]; intros l c nxt v Hlen.
  - cbn [getSequence_loop].
    replace (13 <=? len v) with true
      by (symmetry; apply Z.leb_le; unfold len; lia).
    destruct (negb (nxt =? NO_CARD)
              && nextInSequence (getCard c) (getCard nxt)); reflexivity.
  - change (getSequence_loop (S (S fuel)) l c nxt v) with
      (if negb (nxt =? NO_CARD)
          && nextInSequence (getCard c) (getCard nxt)
       then if 13 <=? len v then v
            else getSequence_loop (S fuel) l nxt
                   (cardAt l (wrap (bget l nxt + 8))) (v ++ [nxt])
       else v).
    rewrite IH by (rewrite length_app; cbn [length]; lia).
    reflexivity.
Qed.

Lemma GetSelected_fuel k l c nxt s :
  GetSelected_loop (10 + k) l c nxt [s] = GetSelected_loop 10 l c nxt [s].
Proof.
  induction k as [|k IH]; [reflexivity|].
  rewrite Nat.add_succ_r, GetSelected_loop_fuel by (cbn [length]; lia).
  exact IH.
Qed.

Lemma getSequence_fuel k l c nxt s :
  getSequence_loop (14 + k) l c nxt [s] = getSequence_loop 14 l c nxt [s].
Proof.
  induction k as [|k IH]; [reflexivity|].
  rewrite Nat.add_succ_r, getSequence_loop_fuel by (cbn [length]; lia).
  exact IH.
Qed.

(** ** What [cardAt] and [lastInCascade] return *)

Lemma cardAt_scan_cases l pos cids :
  cardAt_scan l pos cids = NO_CARD
  \/ (In (cardAt_scan l pos cids) cids
      /\ bget l (cardAt_scan l pos cids) = pos).
Proof.
  induction cids as [|c cs IH]; cbn [cardAt_scan]; [left; reflexivity|].
  destruct (bget l c =? pos) eqn:E.
  - right. split; [left; reflexivity | apply Z.eqb_eq; exact E].
  - destruct IH as [IH|[IH1 IH2]]; [left; exact IH|].
    right. split; [right; exact IH1 | exact IH2].
Qed.

Lemma cardAt_cases l pos :
  cardAt l pos = NO_CARD
  \/ (isCard (cardAt l pos) = true /\ bget l (cardAt l pos) = pos).
Proof.
  unfold cardAt. destruct (cardAt_scan_cases l pos card_ids) as [H|[H1 H2]];
    [left; exact H|].
  right. split; [|exact H2].
  apply isCard_range. apply card_ids_In. exact H1.
Qed.

Lemma isCard_NO_CARD : isCard NO_CARD = false.
Proof. reflexivity. Qed.

Lemma isCard_not_NO_CARD c : isCard c = true -> c <> NO_CARD.
Proof. intros H E. rewrite E in H. discriminate H. Qed.

(** The card read at a location has the empty id exactly when the
    location is empty. *)
Lemma ID_getCard_cardAt l pos :
  (ID (getCard (cardAt l pos)) =? NO_CARD) = (cardAt l pos =? NO_CARD).
Proof.
  destruct (cardAt_cases l pos) as [H|[H _]].
  - rewrite H. reflexivity.
  - rewrite (getCard_ID _ H). reflexivity.
Qed.

Lemma aget_deck c : isCard c = true -> aget InvalidCard deck c = getCard c.
Proof. intros H. unfold getCard. rewrite H. reflexivity. Qed.

Lemma lastInCascade_scan_cases l k cids :
  (forall c, In c cids -> isCard c = true) ->
  ID (lastInCascade_scan l k cids) = NO_CARD
  \/ exists cid, isCard cid = true /\ lastInCascade_scan l k cids = getCard cid.
Proof.
  induction cids as [|c cs IH]; intros Hall; cbn [lastInCascade_scan].
  - left. reflexivity.
  - cbv zeta. destruct (isLastInCascade l c && (k =? bget l c mod 8)).
    + right. exists c.
      assert (Hc : isCard c = true) by (apply Hall; left; reflexivity).
      split; [exact Hc | apply aget_deck; exact Hc].
    + apply IH. intros c' Hin. apply Hall. right. exact Hin.
Qed.

Lemma lastInCascade_cases l k :
  ID (lastInCascade l k) = NO_CARD
  \/ exists cid, isCard cid = true /\ lastInCascade l k = getCard cid.
Proof.
  apply lastInCascade_scan_cases. intros c Hin.
  apply isCard_range. apply card_ids_In. exact Hin.
Qed.

Lemma getCard_cardAt_cases l pos :
  ID (getCard (cardAt l pos)) = NO_CARD
  \/ exists cid, isCard cid = true /\ getCard (cardAt l pos) = getCard cid.
Proof.
  destruct (cardAt_cases l pos) as [H|[H _]].
  - left. rewrite H. reflexivity.
  - right. exists (cardAt l pos). split; [exact H | reflexivity].
Qed.

Lemma candidates_cases l c :
  In c (candidates l) ->
  ID c = NO_CARD \/ exists cid, isCard cid = true /\ c = getCard cid.
Proof.
  unfold candidates. cbn [In].
  intros [H|[H|[H|[H|[H|[H|[H|[H|[H|[H|[H|[H|[]]]]]]]]]]]]]; subst c;
    first [apply getCard_cardAt_cases | apply lastInCascade_cases].
Qed.

Lemma getCard_suit c : isCard c = true -> 0 <= Suit (getCard c) <= 3.
Proof.
  intros Hc.
  assert (H : (0 <=? Suit (getCard c)) && (Suit (getCard c) <=? 3) = true).
  { apply (forall_cards
             (fun c => (0 <=? Suit (getCard c)) && (Suit (getCard c) <=? 3)));
      [vm_compute; reflexivity | exact Hc]. }
  apply andb_true_iff in H. rewrite !Z.leb_le in H. exact H.
Qed.

(** ** The selection after a promotion *)

Lemma GetSelected_loop_prefix fuel : forall l c nxt v x,
  In x v -> In x (GetSelected_loop fuel l c nxt v).
Proof.
  induction fuel as [|fuel IH]; intros l c nxt v x Hin;
    cbn [GetSelected_loop]; [exact Hin|].
  cbv zeta.
  destruct (negb (nxt =? NO_CARD)
            && nextInSequence (getCard c) (getCard nxt) && (len v <? 10));
    [|exact Hin].
  apply IH. apply in_or_app. left. exact Hin.
Qed.

(** Every card the run adds sits at row 1 or above of a cascade. *)
Lemma GetSelected_loop_rows fuel : forall l c nxt v pos x,
  nxt = cardAt l (wrap (pos + 8)) ->
  8 <= pos -> pos + 8 * Z.of_nat fuel + 8 < 18446744073709551616 ->
  In x (GetSelected_loop fuel l c nxt v) ->
  In x v \/ 16 <= bget l x.
Proof.
  induction fuel as [|fuel IH]; intros l c nxt v pos x Hnxt Hlo Hhi Hin;
    cbn [GetSelected_loop] in Hin; [left; exact Hin|].
  cbv zeta in Hin.
  destruct (negb (nxt =? NO_CARD)) eqn:Hne; cbn [andb] in Hin;
    [|left; exact Hin].
  destruct (nextInSequence (getCard c) (getCard nxt) && (len v <? 10));
    [|left; exact Hin].
  apply negb_true_iff, Z.eqb_neq in Hne.
  assert (Hpos : bget l nxt = pos + 8).
  { destruct (cardAt_cases l (wrap (pos + 8))) as [H|[_ H]].
    - rewrite <- Hnxt in H. contradiction.
    - rewrite <- Hnxt in H. rewrite H. apply wrap_small. lia. }
  apply (IH l nxt _ _ (pos + 8)) in Hin.
  - destruct Hin as [Hin|Hin]; [|right; exact Hin].
    apply in_app_or in Hin. destruct Hin as [Hin|[<-|[]]];
      [left; exact Hin | right; lia].
  - rewrite Hpos. reflexivity.
  - lia.
  - lia.
Qed.

Lemma isSelected_on_foundation l cid :
  isCard cid = true -> isFoundation (bget l cid) = true ->
  isSelected l cid = (selected l =? cid).
Proof.
  intros Hc Hf.
  assert (Hslot : bget l cid <= 7).
  { unfold isFoundation in Hf. apply andb_true_iff in Hf.
    rewrite !Z.leb_le in Hf. lia. }
  unfold isSelected, GetSelected. cbv zeta.
  destruct (isSelectionActive l) eqn:Hact; cbn [negb].
  - destruct (isCascade (bget l (selected l))) eqn:Hcas;
      [|cbn [existsb]; apply orb_false_r].
    destruct (selected l =? cid) eqn:E.
    + apply existsb_exists. exists (selected l). split; [|exact E].
      apply GetSelected_loop_prefix. left. reflexivity.
    + destruct (existsb (fun c => c =? cid) _) eqn:Hex; [|reflexivity].
      apply existsb_exists in Hex. destruct Hex as (x & Hin & Hx).
      apply Z.eqb_eq in Hx. subst x.
      unfold isCascade, MAX_BOARD_ID in Hcas. apply andb_true_iff in Hcas.
      rewrite !Z.leb_le in Hcas.
      apply (GetSelected_loop_rows 10 l _ _ _ (bget l (selected l))) in Hin;
        [|reflexivity|lia|lia].
      destruct Hin as [[Hin|[]]|Hin].
      * apply Z.eqb_neq in E. contradiction.
      * lia.
  - cbn [existsb]. symmetry. apply Z.eqb_neq. intros E.
    unfold isSelectionActive in Hact. rewrite E, Hc in Hact. discriminate.
Qed.

(** ** Auto-promotion against its specification *)

(** *** The lookups of the code find what the specification names *)

Lemma deck_getCard : deck = map getCard card_ids.
Proof. vm_compute. reflexivity. Qed.

Lemma card_ids_cards c : In c card_ids -> isCard c = true.
Proof. intros H. apply isCard_range. apply card_ids_In. exact H. Qed.

Lemma lies_on_getCard l loc cid :
  isCard cid = true -> lies_on l loc (getCard cid) = (bget l cid =? loc).
Proof. intros Hc. unfold lies_on, bget. rewrite (getCard_ID cid Hc). reflexivity. Qed.

Lemma occupant_scan l loc cids :
  (forall c, In c cids -> isCard c = true) ->
  find (lies_on l loc) (map getCard cids)
  = if cardAt_scan l loc cids =? NO_CARD then None
    else Some (getCard (cardAt_scan l loc cids)).
Proof.
  induction cids as [|c cs IH]; intros Hall; cbn [map find cardAt_scan];
    [reflexivity|].
  assert (Hc : isCard c = true) by (apply Hall; left; reflexivity).
  rewrite (lies_on_getCard l loc c Hc).
  destruct (bget l c =? loc).
  - replace (c =? NO_CARD) with false
      by (symmetry; apply Z.eqb_neq; apply isCard_not_NO_CARD; exact Hc).
    reflexivity.
  - apply IH. intros c' Hin. apply Hall. right. exact Hin.
Qed.

Lemma occupant_cardAt l loc :
  occupant l loc
  = if cardAt l loc =? NO_CARD then None else Some (getCard (cardAt l loc)).
Proof.
  unfold occupant, cardAt. rewrite deck_getCard.
  apply occupant_scan. exact card_ids_cards.
Qed.

Lemma foundation_top_cardAt l suit :
  foundation_top l suit
  = if cardAt l (suit + 4) =? NO_CARD then None
    else Some (getCard (cardAt l (suit + 4))).
Proof. unfold foundation_top. apply occupant_cardAt. Qed.

Lemma lies_on_scan l loc cids :
  (forall c, In c cids -> isCard c = true) ->
  existsb (lies_on l loc) (map getCard cids)
  = negb (cardAt_scan l loc cids =? NO_CARD).
Proof.
  induction cids as [|c cs IH]; intros Hall; cbn [map existsb cardAt_scan];
    [reflexivity|].
  assert (Hc : isCard c = true) by (apply Hall; left; reflexivity).
  rewrite (lies_on_getCard l loc c Hc).
  destruct (bget l c =? loc); cbn [orb].
  - replace (c =? NO_CARD) with false
      by (symmetry; apply Z.eqb_neq; apply isCard_not_NO_CARD; exact Hc).
    reflexivity.
  - apply IH. intros c' Hin. apply Hall. right. exact Hin.
Qed.

Lemma nothing_lies_on l loc :
  negb (existsb (lies_on l loc) deck) = (cardAt l loc =? NO_CARD).
Proof.
  unfold cardAt. rewrite deck_getCard.
  rewrite (lies_on_scan l loc card_ids card_ids_cards).
  apply negb_involutive.
Qed.

(** The code's test for the last card of a cascade, with its column, is
    the specification's notion of a card topping that cascade. *)
Lemma tops_cascade_code l col cid :
  isCard cid = true ->
  tops_cascade l col (getCard cid)
  = isLastInCascade l cid && (col =? bget l cid mod 8).
Proof.
  intros Hc. unfold tops_cascade, isLastInCascade. cbv zeta.
  rewrite (getCard_ID cid Hc).
  change (aget 0 (board l) cid) with (bget l cid).
  rewrite nothing_lies_on. unfold MAX_BOARD_ID.
  rewrite (Z.eqb_sym (bget l cid mod 8) col).
  destruct (Z.leb_spec 8 (bget l cid)) as [Hlo|Hlo]; cbn [andb];
    [|reflexivity].
  destruct (Z.leb_spec (bget l cid) 167) as [Hhi|Hhi]; cbn [andb];
    [|reflexivity].
  rewrite (wrap_small (bget l cid + 8)) by lia.
  apply andb_comm.
Qed.

Lemma cascade_top_scan l col cids :
  (forall c, In c cids -> isCard c = true) ->
  find (tops_cascade l col) (map getCard cids)
  = if ID (lastInCascade_scan l col cids) =? NO_CARD then None
    else Some (lastInCascade_scan l col cids).
Proof.
  induction cids as [|c cs IH]; intros Hall;
    cbn [map find lastInCascade_scan]; [reflexivity|].
  assert (Hc : isCard c = true) by (apply Hall; left; reflexivity).
  cbv zeta. rewrite (tops_cascade_code l col c Hc).
  destruct (isLastInCascade l c && (col =? bget l c mod 8)).
  - rewrite (aget_deck c Hc), (getCard_ID c Hc).
    replace (c =? NO_CARD) with false
      by (symmetry; apply Z.eqb_neq; apply isCard_not_NO_CARD; exact Hc).
    reflexivity.
  - apply IH. intros c' Hin. apply Hall. right. exact Hin.
Qed.

Lemma cascade_top_lastInCascade l col :
  cascade_top l col
  = if ID (lastInCascade l col) =? NO_CARD then None
    else Some (lastInCascade l col).
Proof.
  unfold cascade_top, lastInCascade. rewrite deck_getCard.
  apply cascade_top_scan. exact card_ids_cards.
Qed.

Lemma occupant_getCard l loc :
  occupant l loc
  = if ID (getCard (cardAt l loc)) =? NO_CARD then None
    else Some (getCard (cardAt l loc)).
Proof. rewrite ID_getCard_cardAt. apply occupant_cardAt. Qed.

(** One slot of the scan: the code's card with the empty id stands for the
    specification's empty slot. *)
Lemma candidates_step (o : option Card) (c : Card) slots cands :
  o = (if ID c =? NO_CARD then None else Some c) ->
  flat_map (fun slot : option Card =>
              match slot with Some c => [c] | None => [] end) slots
  = filter (fun c => negb (ID c =? NO_CARD)) cands ->
  flat_map (fun slot : option Card =>
              match slot with Some c => [c] | None => [] end) (o :: slots)
  = filter (fun c => negb (ID c =? NO_CARD)) (c :: cands).
Proof.
  intros -> Hrest. cbn [flat_map filter]. rewrite Hrest.
  destruct (ID c =? NO_CARD); reflexivity.
Qed.

(** The twelve candidates the code scans, the empty ones dropped, are the
    occupants of the freecells followed by the top cards of the cascades. *)
Lemma candidates_filter l :
  filter (fun c => negb (ID c =? NO_CARD)) (candidates l) = spec_candidates l.
Proof.
  symmetry. unfold spec_candidates, spec_slots, candidates.
  cbn [map app].
  repeat (apply candidates_step;
          [first [apply occupant_getCard | apply cascade_top_lastInCascade]|]).
  reflexivity.
Qed.

Lemma minRank_spec l :
  (if negb (ID (getCard (cardAt l FC)) =? NO_CARD)
      && negb (ID (getCard (cardAt l FD)) =? NO_CARD)
      && negb (ID (getCard (cardAt l FH)) =? NO_CARD)
      && negb (ID (getCard (cardAt l FS)) =? NO_CARD)
   then Z.min (Z.min (Z.min (Rank (getCard (cardAt l FC)))
                            (Rank (getCard (cardAt l FD))))
                     (Rank (getCard (cardAt l FH))))
              (Rank (getCard (cardAt l FS)))
   else -1)
  = spec_minRank l.
Proof.
  unfold spec_minRank. rewrite !foundation_top_cardAt.
  change (CLB + 4) with FC. change (DMD + 4) with FD.
  change (HRT + 4) with FH. change (SPD + 4) with FS.
  rewrite !ID_getCard_cardAt.
  destruct (cardAt l FC =? NO_CARD), (cardAt l FD =? NO_CARD),
    (cardAt l FH =? NO_CARD), (cardAt l FS =? NO_CARD); reflexivity.
Qed.

Lemma isNextInFoundation_spec l c :
  0 <= Suit c <= 3 ->
  isNextInFoundation (Suit c) (getCard (cardAt l (Suit c + 4))) c
  = next_for_foundation l c.
Proof.
  intros Hs. unfold isNextInFoundation, next_for_foundation.
  rewrite foundation_top_cardAt.
  cbv zeta. rewrite ID_getCard_cardAt.
  replace (SPD <? Suit c) with false
    by (symmetry; apply Z.ltb_ge; unfold SPD; lia).
  rewrite Z.eqb_refl.
  destruct (cardAt l (Suit c + 4) =? NO_CARD); cbn [negb andb orb].
  - apply orb_false_r.
  - reflexivity.
Qed.

(** The four suit cases of the scan are one rule. *)
Lemma suit_cases l c (K : logic * bool) :
  0 <= Suit c <= 3 ->
  (if Suit c =? CLB then
     if isNextInFoundation (Suit c) (getCard (cardAt l FC)) c
     then (promote l (getCard (cardAt l FC)) c (Suit c + 4), true) else K
   else if Suit c =? DMD then
     if isNextInFoundation (Suit c) (getCard (cardAt l FD)) c
     then (promote l (getCard (cardAt l FD)) c (Suit c + 4), true) else K
   else if Suit c =? HRT then
     if isNextInFoundation (Suit c) (getCard (cardAt l FH)) c
     then (promote l (getCard (cardAt l FH)) c (Suit c + 4), true) else K
   else if Suit c =? SPD then
     if isNextInFoundation (Suit c) (getCard (cardAt l FS)) c
     then (promote l (getCard (cardAt l FS)) c (Suit c + 4), true) else K
   else K)
  = (if next_for_foundation l c
     then (promote l (getCard (cardAt l (Suit c + 4))) c (Suit c + 4), true)
     else K).
Proof.
  intros Hs. rewrite <- (isNextInFoundation_spec l c Hs).
  assert (Hcase : Suit c = CLB \/ Suit c = DMD \/ Suit c = HRT \/ Suit c = SPD)
    by (unfold CLB, DMD, HRT, SPD; lia).
  destruct Hcase as [E|[E|[E|E]]]; rewrite E.
  - change (CLB + 4) with FC. change (CLB =? CLB) with true.
    reflexivity.
  - change (DMD + 4) with FD. change (DMD =? CLB) with false.
    change (DMD =? DMD) with true. reflexivity.
  - change (HRT + 4) with FH. change (HRT =? CLB) with false.
    change (HRT =? DMD) with false. change (HRT =? HRT) with true.
    reflexivity.
  - change (SPD + 4) with FS. change (SPD =? CLB) with false.
    change (SPD =? DMD) with false. change (SPD =? HRT) with false.
    change (SPD =? SPD) with true. reflexivity.
Qed.

Lemma AutoMoveCard_scan_spec l cands :
  (forall c, In c cands ->
     ID c = NO_CARD \/ exists cid, isCard cid = true /\ c = getCard cid) ->
  AutoMoveCard_scan l (getCard (cardAt l FC)) (getCard (cardAt l FD))
    (getCard (cardAt l FH)) (getCard (cardAt l FS)) (spec_minRank l) cands
  = match find (spec_eligible l)
            (filter (fun c => negb (ID c =? NO_CARD)) cands) with
    | Some c =>
        (promote l (getCard (cardAt l (Suit c + 4))) c (Suit c + 4), true)
    | None => (l, false)
    end.
Proof.
  induction cands as [|c rest IH]; intros Hall; [reflexivity|].
  assert (IH' := IH (fun c' Hin => Hall c' (or_intror Hin))). clear IH.
  cbn [AutoMoveCard_scan filter].
  destruct (ID c =? NO_CARD) eqn:Hid; cbn [negb]; [exact IH'|].
  destruct (Hall c (or_introl eq_refl)) as [Hno|(cid & Hcid & Hc)].
  { rewrite Hno in Hid. discriminate Hid. }
  assert (Hs : 0 <= Suit c <= 3) by (rewrite Hc; apply getCard_suit; exact Hcid).
  cbv zeta. rewrite (suit_cases l c _ Hs).
  cbn [find]. unfold spec_eligible at 1.
  destruct (Rank c =? spec_minRank l + 1), (Rank c =? spec_minRank l + 2);
    cbn [negb andb orb]; try exact IH';
    (destruct (next_for_foundation l c); [reflexivity | exact IH']).
Qed.

(** The end of a promotion: the card takes the slot, the snapshot is
    recorded, and the selection is dropped when it was that card. *)
Lemma promote_tail l1 cid slot :
  length (board l1) = 52%nat -> isCard cid = true -> 4 <= slot <= 7 ->
  (if isSelected (record_board (bset l1 cid slot)) cid
   then clearSelected (record_board (bset l1 cid slot))
   else record_board (bset l1 cid slot))
  = mkLogic (if selected l1 =? cid then NO_CARD else selected l1)
      (gameSeed l1) (deal l1) (aset (board l1) cid slot)
      (mkMoves (stack (mvs l1) ++ [aset (board l1) cid slot])
               (undos (mvs l1))).
Proof.
  intros H52 Hc Hslot.
  rewrite isSelected_on_foundation; [|exact Hc|].
  - autorewrite with fields.
    destruct (selected l1 =? cid); reflexivity.
  - unfold bget. autorewrite with fields.
    rewrite aget_aset_same
      by (apply isCard_range in Hc; rewrite H52; lia).
    unfold isFoundation. apply andb_true_iff. rewrite !Z.leb_le. exact Hslot.
Qed.

Lemma promote_spec l cid :
  length (board l) = 52%nat -> isCard cid = true ->
  promote l (getCard (cardAt l (Suit (getCard cid) + 4))) (getCard cid)
          (Suit (getCard cid) + 4)
  = spec_promoted l (getCard cid).
Proof.
  intros H52 Hc.
  pose proof (getCard_suit cid Hc) as Hs.
  unfold promote, spec_promoted. rewrite foundation_top_cardAt. cbv zeta.
  rewrite (getCard_ID cid Hc), ID_getCard_cardAt.
  destruct (cardAt_cases l (Suit (getCard cid) + 4)) as [Htop|[Htop Hb]].
  - rewrite Htop. change (NO_CARD =? NO_CARD) with true. cbn [negb].
    apply promote_tail; [exact H52 | exact Hc | lia].
  - replace (cardAt l (Suit (getCard cid) + 4) =? NO_CARD) with false
      by (symmetry; apply Z.eqb_neq; apply isCard_not_NO_CARD; exact Htop).
    cbn [negb]. rewrite (getCard_ID _ Htop), Hb.
    rewrite wrap_small by (unfold HIDDEN_CARD; lia).
    rewrite promote_tail;
      [ | autorewrite with fields; rewrite aset_length; exact H52
        | exact Hc | lia ].
    reflexivity.
Qed.

(** C6: in every state a session reaches where [AutoMoveCard] is enabled
    (the history count is at least 2), [AutoMoveCard] does what the
    specification says.  The specification is worded over the board alone:
    the occupant of a cell is the deck card lying on it, the top card of a
    cascade is the card of that column with no card one row above it, and
    the top of a foundation is the occupant of its slot.  With [minRank]
    the least of the four foundation top ranks, or -1 when a foundation is
    empty, the first of the twelve candidates (the occupants of freecells
    0..3, then the top cards of cascades 0..7, empty slots skipped) whose
    rank is [minRank+1] or [minRank+2] and which is the next card of its
    suit's foundation is promoted -- the previous top is buried at its slot
    plus 9999, the card takes the slot, one snapshot is recorded, the
    selection is cleared when it was that card -- and the answer is true;
    with no such candidate nothing changes and the answer is false. *)
Theorem C6_AutoMoveCard_spec (seed : Z) (ops : list op) (l : logic) :
  run seed ops = Some l ->
  2 <= count (mvs l) ->
  AutoMoveCard l = spec_AutoMoveCard l.
Proof.
  intros Hrun Hen.
  destruct (run_Inv_of seed ops l Hrun) as (H52 & _).
  unfold AutoMoveCard, spec_AutoMoveCard.
  replace (count (mvs l) <? 2) with false by (symmetry; apply Z.ltb_ge; lia).
  cbv zeta. rewrite minRank_spec.
  rewrite (AutoMoveCard_scan_spec l (candidates l) (candidates_cases l)).
  rewrite candidates_filter.
  destruct (find (spec_eligible l) (spec_candidates l)) as [c|] eqn:Hfind;
    [|reflexivity].
  apply find_some in Hfind. destruct Hfind as [Hin _].
  rewrite <- candidates_filter in Hin. apply filter_In in Hin.
  destruct Hin as [Hin Hid].
  destruct (candidates_cases l c Hin) as [Hno|(cid & Hcid & ->)].
  - rewrite Hno in Hid. discriminate Hid.
  - rewrite (promote_spec l cid H52 Hcid). reflexivity.
Qed.

Lemma C6_AutoMoveCard_spec_witness :
  exists l,
    run 1 opening1_ace_free = Some l
    /\ 2 <= count (mvs l)
    /\ AutoMoveCard l = spec_AutoMoveCard l.
Proof.
  eexists. split; [vm_compute; reflexivity|].
  split; [apply Z.leb_le; vm_compute; reflexivity|].
  apply (C6_AutoMoveCard_spec 1 opening1_ace_free);
    [vm_compute; reflexivity | apply Z.leb_le; vm_compute; reflexivity].
Defined.

(** The specification's reading of that state: the eight of clubs, the
    jack of hearts and the four of diamonds occupy three freecells, the
    fourth is empty, and the ace of hearts tops the seventh cascade; no
    foundation has a card yet, and the ace is the first eligible
    candidate. *)
Example spec_slots_game_1 :
  option_map (fun l => (map (option_map Sym) (spec_slots l), spec_minRank l,
                        option_map Sym
                          (find (spec_eligible l) (spec_candidates l))))
             (run 1 opening1_ace_free)
  = Some ([Some "8C"; Some "JH"; Some "4D"; None;
           Some "6S"; Some "9C"; Some "2H"; Some "6H";
           Some "6C"; Some "3D"; Some "AH"; Some "TC"]%string,
          -1, Some "AH"%string).
Proof. vm_compute. reflexivity. Qed.

(** In that state the ace of hearts (id 2) goes up to slot 6; a second call
    then sends the two of hearts (id 6) after it, one rank ahead of the
    still empty foundations, and buries the ace at 10005. *)
Example AutoMoveCard_game_1 :
  option_map (fun l => (snd (AutoMoveCard l), bget (fst (AutoMoveCard l)) 2))
             (run 1 opening1_ace_free) = Some (true, 6)
  /\ option_map
       (fun l => (snd (AutoMoveCard l), bget (fst (AutoMoveCard l)) 6,
                  bget (fst (AutoMoveCard l)) 2))
       (run 1 (opening1_ace_free ++ [OpAutoMoveCard]))
     = Some (true, 6, 10005).
Proof. split; vm_compute; reflexivity. Qed.

(** * Further properties of the engine *)

(** ** The generator *)

(** X1: whatever the register holds, [randClassic] leaves a 31-bit value
    in it and returns a 15-bit value. *)
Theorem X1_randClassic_range (rseed : Z) :
  0 <= fst (randClassic rseed) < 2147483648
  /\ 0 <= snd (randClassic rseed) < 32768.
Proof.
  rewrite randClassic_lcg. cbn [fst snd]. unfold lcg_draw, lcg_next.
  change 2147483647 with (Z.ones 31).
  rewrite Z.land_ones by lia. rewrite Z.shiftr_div_pow2 by lia.
  pose proof (Z.mod_pos_bound (rseed * 214013 + 2531011) (2 ^ 31)) as Hb.
  change (2 ^ 31) with 2147483648 in *. change (2 ^ 16) with 65536.
  assert (H : 0 <= (rseed * 214013 + 2531011) mod 2147483648 < 2147483648)
    by (apply Hb; lia).
  split; [exact H|].
  split; [apply Z.div_pos; lia | apply Z.div_lt_upper_bound; lia].
Qed.

(** ** The shuffle is a permutation *)

Lemma firstn_S_nth {A : Type} (d : A) (a : list A) n :
  (n < length a)%nat -> firstn (S n) a = firstn n a ++ [nth n a d].
Proof.
  revert n; induction a as [|h t IH]; intros n Hn; cbn [length] in Hn;
    [lia|].
  destruct n as [|n]; [reflexivity|].
  cbn [firstn nth app]. f_equal. apply IH. lia.
Qed.

(** Drawing entry [j] and filling its place with entry [n] keeps the first
    [n+1] entries, up to order. *)
Lemma draw_perm {A : Type} (d : A) j : forall (a : list A) n,
  (j <= n)%nat -> (n < length a)%nat ->
  Permutation (nth j a d :: firstn n (upd a j (nth n a d))) (firstn (S n) a).
Proof.
  induction j as [|j IH]; intros a n Hj Hn.
  - destruct a as [|h t]; cbn [length] in Hn; [lia|].
    destruct n as [|n]; [reflexivity|].
    change (Permutation (h :: nth n t d :: firstn n t)
                        (h :: firstn (S n) t)).
    apply perm_skip.
    rewrite (firstn_S_nth d t n) by lia.
    apply Permutation_cons_append.
  - destruct a as [|h t]; cbn [length] in Hn; [lia|].
    destruct n as [|n]; [lia|].
    change (Permutation
              (nth j t d :: h :: firstn n (upd t j (nth n t d)))
              (h :: firstn (S n) t)).
    eapply perm_trans; [apply perm_swap|]. apply perm_skip.
    apply IH; lia.
Qed.

Lemma ref_emit_perm n : forall state work,
  (n <= length work)%nat ->
  Permutation (ref_emit n state work (Z.of_nat n)) (firstn n work).
Proof.
  induction n as [|n IH]; intros state work Hn; [reflexivity|].
  cbn [ref_emit]. cbv zeta.
  replace (Z.of_nat (S n) - 1) with (Z.of_nat n) by lia.
  set (j := lcg_draw (lcg_next state) mod Z.of_nat (S n)).
  assert (Hj : 0 <= j < Z.of_nat (S n))
    by (subst j; apply Z.mod_pos_bound; lia).
  eapply perm_trans.
  - apply perm_skip. apply IH. rewrite aset_length. lia.
  - unfold aget, aset. rewrite Nat2Z.id.
    apply draw_perm; lia.
Qed.

Lemma shuffle_perm seed ordered :
  length ordered = 52%nat -> Permutation (shuffle seed ordered) ordered.
Proof.
  intros Hlen. rewrite shuffle_refines. unfold shuffle_ref.
  apply (perm_trans
           (l' := map (fun id => aget InvalidCard ordered id) card_ids)).
  - apply Permutation_map.
    apply (ref_emit_perm 52 seed card_ids). vm_compute. lia.
  - rewrite (map_aget_card_ids InvalidCard ordered Hlen). reflexivity.
Qed.

(** X2: for every seed, [shuffle] returns the 52 cards of the ordered deck
    it is given, each once, in some order. *)
Theorem X2_shuffle_is_permutation (seed : Z) (ordered : list Card) :
  length ordered = 52%nat -> Permutation (shuffle seed ordered) ordered.
Proof. apply shuffle_perm. Qed.

Lemma X2_shuffle_is_permutation_witness :
  length deck = 52%nat /\ Permutation (shuffle 31999 deck) deck.
Proof.
  assert (H : length deck = 52%nat) by reflexivity.
  split; [exact H | exact (X2_shuffle_is_permutation 31999 deck H)].
Defined.

(** ** The deal *)

Lemma card_ids_NoDup : NoDup card_ids.
Proof.
  unfold card_ids. apply Finite.Injective_map_NoDup; [|apply seq_NoDup].
  intros a b H. lia.
Qed.

Lemma deck_ids : map ID deck = card_ids.
Proof. vm_compute. reflexivity. Qed.

Lemma shuffle_ids seed :
  length (shuffle seed deck) = 52%nat
  /\ Permutation
       (map (fun cid => ID (aget InvalidCard (shuffle seed deck) cid)) card_ids)
       card_ids.
Proof.
  pose proof (shuffle_perm seed deck eq_refl) as HP.
  generalize dependent (shuffle seed deck). intros dealt HP.
  assert (Hlen : length dealt = 52%nat)
    by (rewrite (Permutation_length HP); reflexivity).
  split; [exact Hlen|].
  rewrite <- (map_map (fun cid => aget InvalidCard dealt cid) ID).
  rewrite (map_aget_card_ids InvalidCard dealt Hlen).
  rewrite <- deck_ids. apply Permutation_map. exact HP.
Qed.

(** The writes of the dealing loop land where they are aimed when the
    targets are distinct and in range. *)
Lemma dealCards_scan_get dealt cids : forall l,
  deal l = dealt -> length (board l) = 52%nat ->
  NoDup (map (fun cid => ID (aget InvalidCard dealt cid)) cids) ->
  (forall cid, In cid cids -> 0 <= ID (aget InvalidCard dealt cid) <= 51) ->
  let l' := fold_left
    (fun acc cid => bset acc (ID (aget InvalidCard (deal acc) cid)) (cid + 8))
    cids l in
  (forall cid, In cid cids ->
     bget l' (ID (aget InvalidCard dealt cid)) = cid + 8)
  /\ (forall k, 0 <= k ->
        ~ In k (map (fun cid => ID (aget InvalidCard dealt cid)) cids) ->
        bget l' k = bget l k).
Proof.
  induction cids as [|c cs IH]; intros l Hd H52 Hnd Hrange; cbn [fold_left].
  - split; [intros cid []|reflexivity].
  - cbn [map] in Hnd. inversion Hnd as [|? ? Hnotin Hnd']; subst.
    assert (Hc : 0 <= ID (aget InvalidCard (deal l) c) <= 51)
      by (apply Hrange; left; reflexivity).
    destruct (IH (bset l (ID (aget InvalidCard (deal l) c)) (c + 8)))
      as [IH1 IH2]; try assumption.
    + reflexivity.
    + autorewrite with fields. rewrite aset_length. exact H52.
    + intros cid Hin. apply Hrange. right. exact Hin.
    + cbv zeta in *. split.
      * intros cid [<-|Hin]; [|apply IH1; exact Hin].
        rewrite IH2; [|lia|exact Hnotin].
        unfold bget. autorewrite with fields.
        apply aget_aset_same. rewrite H52. lia.
      * intros k Hk Hnotk. cbn [map In] in Hnotk.
        rewrite IH2; [|exact Hk|intros Hin; apply Hnotk; right; exact Hin].
        unfold bget. autorewrite with fields.
        apply aget_aset_other; [lia|exact Hk|].
        intros E. apply Hnotk. left. exact E.
Qed.

Lemma cardAt_scan_found l pos cids c :
  In c cids -> bget l c = pos -> ~ In NO_CARD cids ->
  cardAt_scan l pos cids <> NO_CARD.
Proof.
  induction cids as [|c0 cs IH]; intros Hin Hb Hno; [destruct Hin|].
  cbn [cardAt_scan]. destruct (bget l c0 =? pos) eqn:E.
  - intros E0. apply Hno. left. exact E0.
  - apply IH.
    + destruct Hin as [->|Hin]; [|exact Hin].
      apply Z.eqb_neq in E. contradiction.
    + exact Hb.
    + intros Hin'. apply Hno. right. exact Hin'.
Qed.

Lemma cardAt_found l pos c :
  isCard c = true -> bget l c = pos ->
  isCard (cardAt l pos) = true /\ bget l (cardAt l pos) = pos.
Proof.
  intros Hc Hb. destruct (cardAt_cases l pos) as [H|H]; [|exact H].
  exfalso. apply (cardAt_scan_found l pos card_ids c); try assumption.
  - apply card_ids_In. apply isCard_range. exact Hc.
  - intros Hin. apply card_ids_In in Hin. unfold NO_CARD in Hin. lia.
Qed.

Lemma dealt_board l dealt :
  deal l = dealt -> length (board l) = 52%nat ->
  length dealt = 52%nat ->
  Permutation (map (fun cid => ID (aget InvalidCard dealt cid)) card_ids)
              card_ids ->
  (forall i, 0 <= i <= 51 ->
     bget (dealCards l) (ID (aget InvalidCard dealt i)) = i + 8)
  /\ (forall cid, isCard cid = true -> 8 <= bget (dealCards l) cid <= 59)
  /\ (forall i, 0 <= i <= 51 ->
        cardAt (dealCards l) (i + 8) = ID (aget InvalidCard dealt i)).
Proof.
  intros Hd H52 Hlen HP.
  assert (Hrange : forall cid, In cid card_ids ->
            0 <= ID (aget InvalidCard dealt cid) <= 51).
  { intros cid Hin. apply card_ids_In.
    apply (Permutation_in _ HP). apply in_map_iff. exists cid. auto. }
  assert (Hnd : NoDup (map (fun cid => ID (aget InvalidCard dealt cid)) card_ids)).
  { apply (Permutation_NoDup (Permutation_sym HP)). exact card_ids_NoDup. }
  destruct (dealCards_scan_get dealt card_ids l Hd H52 Hnd Hrange) as [H1 _].
  cbv zeta in H1. unfold dealCards.
  match goal with
  | |- context [fold_left ?F card_ids l] =>
      generalize dependent (fold_left F card_ids l)
  end.
  intros d H1.
  assert (Hsurj : forall cid, isCard cid = true ->
            exists i, 0 <= i <= 51 /\ ID (aget InvalidCard dealt i) = cid).
  { intros cid Hc. apply isCard_range, card_ids_In in Hc.
    apply (Permutation_in _ (Permutation_sym HP)) in Hc.
    apply in_map_iff in Hc. destruct Hc as (i & Hi & Hin).
    exists i. split; [apply card_ids_In; exact Hin | exact Hi]. }
  assert (G1 : forall i, 0 <= i <= 51 ->
            bget d (ID (aget InvalidCard dealt i)) = i + 8)
    by (intros i Hi; apply H1; apply card_ids_In; exact Hi).
  split; [exact G1|]. split.
  - intros cid Hc. destruct (Hsurj cid Hc) as (i & Hi & <-).
    rewrite (G1 i Hi). lia.
  - intros i Hi.
    assert (Hci : isCard (ID (aget InvalidCard dealt i)) = true)
      by (apply isCard_range, Hrange, card_ids_In; exact Hi).
    destruct (cardAt_found d (i + 8) _ Hci (G1 i Hi)) as [Hx Hbx].
    destruct (Hsurj _ Hx) as (i' & Hi' & Hid).
    rewrite <- Hid in Hbx. rewrite (G1 i' Hi') in Hbx.
    assert (i' = i) by lia. subst i'. symmetry. exact Hid.
Qed.

Lemma NewGame_deals l seed :
  length (board l) = 52%nat ->
  (forall i, 0 <= i <= 51 ->
     bget (NewGame l seed) (ID (aget InvalidCard (shuffle seed deck) i))
     = i + 8)
  /\ (forall cid, isCard cid = true -> 8 <= bget (NewGame l seed) cid <= 59)
  /\ (forall i, 0 <= i <= 51 ->
        cardAt (NewGame l seed) (i + 8)
        = ID (aget InvalidCard (shuffle seed deck) i)).
Proof.
  intros H52. destruct (shuffle_ids seed) as [Hlen HP].
  unfold NewGame.
  generalize dependent (shuffle seed deck). intros dealt Hlen HP. cbv zeta.
  match goal with
  | |- context [dealCards ?l3] =>
      destruct (dealt_board l3 dealt eq_refl H52 Hlen HP) as (G1 & G2 & G3);
      generalize dependent (dealCards l3)
  end.
  intros d G1 G2 G3. unfold record_board.
  split; [|split].
  - intros i Hi. rewrite !bget_with_moves. apply G1. exact Hi.
  - intros cid Hc. rewrite !bget_with_moves. apply G2. exact Hc.
  - intros i Hi. rewrite !cardAt_with_moves. apply G3. exact Hi.
Qed.

(** X3: [NewGame] on an engine with a 52-entry board puts the card dealt
    at position [i] of the shuffled deck on location [i + 8]; so every card
    lies on one of the cascade cells 8..59, and each of these cells holds
    exactly the card dealt to it. *)
Theorem X3_NewGame_deals_to_cascades (l : logic) (seed : Z) :
  length (board l) = 52%nat ->
  (forall i, 0 <= i <= 51 ->
     bget (NewGame l seed) (ID (aget InvalidCard (shuffle seed deck) i))
     = i + 8)
  /\ (forall cid, isCard cid = true -> 8 <= bget (NewGame l seed) cid <= 59)
  /\ (forall i, 0 <= i <= 51 ->
        cardAt (NewGame l seed) (i + 8)
        = ID (aget InvalidCard (shuffle seed deck) i)).
Proof. apply NewGame_deals. Qed.

Lemma X3_NewGame_deals_to_cascades_witness :
  length (board logic0) = 52%nat
  /\ ((forall i, 0 <= i <= 51 ->
         bget (NewGame logic0 2) (ID (aget InvalidCard (shuffle 2 deck) i))
         = i + 8)
      /\ (forall cid, isCard cid = true ->
            8 <= bget (NewGame logic0 2) cid <= 59)
      /\ (forall i, 0 <= i <= 51 ->
            cardAt (NewGame logic0 2) (i + 8)
            = ID (aget InvalidCard (shuffle 2 deck) i))).
Proof.
  split; [exact logic0_board|].
  exact (X3_NewGame_deals_to_cascades logic0 2 logic0_board).
Defined.

(** X4: a game is never won right after the deal: [IsGameWon] is false on
    the state [NewGame] leaves, for every seed. *)
Theorem X4_not_won_after_deal (l : logic) (seed : Z) :
  length (board l) = 52%nat -> IsGameWon (NewGame l seed) = false.
Proof.
  intros H52. destruct (NewGame_deals l seed H52) as (_ & G2 & _).
  pose proof (G2 KC eq_refl) as HK.
  unfold IsGameWon.
  replace (bget (NewGame l seed) KC =? FC) with false
    by (symmetry; apply Z.eqb_neq; unfold FC; lia).
  reflexivity.
Qed.

Lemma X4_not_won_after_deal_witness :
  length (board logic0) = 52%nat /\ IsGameWon (NewGame logic0 999999) = false.
Proof.
  split; [exact logic0_board|].
  exact (X4_not_won_after_deal logic0 999999 logic0_board).
Defined.

(** ** Unsolvable games *)

Lemma BinarySearch_loop_fuel fuel : forall x target i j,
  0 <= i -> j - i < Z.of_nat fuel ->
  BinarySearch_loop (S fuel) x target i j = BinarySearch_loop fuel x target i j.
Proof.
  induction fuel as [|fuel IH]; intros x target i j Hi Hd.
  - cbn [BinarySearch_loop].
    replace (i <? j) with false by (symmetry; apply Z.ltb_ge; lia).
    reflexivity.
  - change (BinarySearch_loop (S (S fuel)) x target i j) with
      (if i <? j then
         if aget 0 x (Z.shiftr (i + j) 1) <? target
         then BinarySearch_loop (S fuel) x target (Z.shiftr (i + j) 1 + 1) j
         else BinarySearch_loop (S fuel) x target i (Z.shiftr (i + j) 1)
       else i).
    change (BinarySearch_loop (S fuel) x target i j) with
      (if i <? j then
         if aget 0 x (Z.shiftr (i + j) 1) <? target
         then BinarySearch_loop fuel x target (Z.shiftr (i + j) 1 + 1) j
         else BinarySearch_loop fuel x target i (Z.shiftr (i + j) 1)
       else i).
    destruct (Z.ltb_spec i j) as [Hlt|Hge]; [|reflexivity].
    assert (Hh : i <= Z.shiftr (i + j) 1 < j).
    { rewrite Z.shiftr_div_pow2 by lia. change (2 ^ 1) with 2.
      split; [apply Z.div_le_lower_bound | apply Z.div_lt_upper_bound]; lia. }
    rewrite !IH by lia. reflexivity.
Qed.

Ltac eval_aget :=
  repeat match goal with
  | H : context [aget 0 ?x ?i] |- _ =>
      let v := eval vm_compute in (aget 0 x i) in
      change (aget 0 x i) with v in H
  | |- context [aget 0 ?x ?i] =>
      let v := eval vm_compute in (aget 0 x i) in
      change (aget 0 x i) with v
  end.

(** X5: [IsGameSolvable] answers false exactly for the eight seeds of
    [UnsolvableGames]: the list is in ascending order, so the binary search
    finds each of them and nothing else. *)
Theorem X5_IsGameSolvable_exact (l : logic) (seed : Z) :
  IsGameSolvable l seed = false <-> In seed UnsolvableGames.
Proof.
  unfold IsGameSolvable, BinarySearch, UnsolvableGames.
  cbn [length Z.of_nat Pos.of_succ_nat Pos.succ].
  repeat (cbn [BinarySearch_loop Z.ltb Z.compare Pos.compare Pos.compare_cont
               Z.add Pos.add Pos.succ Z.shiftr Z.shiftl Z.opp Z.div2 Pos.div2
               Pos.iter];
    match goal with
    | |- context [?a <? seed] => destruct (Z.ltb_spec a seed)
    end);
  eval_aget; cbn [In];
  match goal with
  | |- context [?c =? seed] => destruct (Z.eqb_spec c seed)
  | _ => idtac
  end; cbn [andb negb];
  (split; intro Hx;
   [ first [discriminate Hx | lia] | first [reflexivity | exfalso; lia] ]).
Qed.

(** ** The move counter over a session *)

Lemma session_count seed ops l :
  run seed ops = Some l ->
  count (mvs l) = 1 + moves_committed seed ops + undos_performed seed ops
  /\ MoveCount l = moves_committed seed ops + undos_performed seed ops.
Proof.
  intros Hrun. destruct (run_counts seed ops l Hrun) as [Hu Hc].
  destruct (run_Inv_of seed ops l Hrun) as (_ & Hne & _ & _ & Hu0).
  assert (Hlen : 1 <= hlen l).
  { unfold hlen. destruct (stack (mvs l)); [contradiction|].
    cbn [length]. lia. }
  assert (Hcount : count (mvs l)
                   = 1 + moves_committed seed ops + undos_performed seed ops)
    by (unfold count; unfold hlen in *; lia).
  split; [exact Hcount|].
  unfold MoveCount. rewrite Hcount.
  destruct (Z.ltb_spec 0
              (1 + moves_committed seed ops + undos_performed seed ops)); lia.
Qed.

(** X6: in every state a session reaches, [MoveCount()] is the number of
    moves committed since the deal ([Interact] or [AutoMoveCard] answering
    true) plus the number of undos performed since the deal. *)
Theorem X6_MoveCount_is_moves_plus_undos
  (seed : Z) (ops : list op) (l : logic) :
  run seed ops = Some l ->
  MoveCount l = moves_committed seed ops + undos_performed seed ops.
Proof. intros Hrun. apply (session_count seed ops l Hrun). Qed.

Lemma X6_MoveCount_is_moves_plus_undos_witness :
  exists l,
    run 1 (opening1 ++ [OpUndo; OpUndo; OpInteract 2; OpInteract 106]) = Some l
    /\ MoveCount l
       = moves_committed 1
           (opening1 ++ [OpUndo; OpUndo; OpInteract 2; OpInteract 106])
         + undos_performed 1
             (opening1 ++ [OpUndo; OpUndo; OpInteract 2; OpInteract 106]).
Proof.
  eexists. split; [vm_compute; reflexivity|].
  apply X6_MoveCount_is_moves_plus_undos. vm_compute. reflexivity.
Defined.

(** X7: in a session, a call other than [NewGame] never lowers
    [MoveCount()]: it grows by one when the call commits a move or performs
    an undo, and stays as it is otherwise. *)
Theorem X7_MoveCount_never_decreases
  (seed : Z) (ops : list op) (l : logic) (o : op) (l' : logic) :
  run seed ops = Some l -> exec l o = Some l' -> is_new_game o = false ->
  MoveCount l' =
    MoveCount l
    + (if move_committed l o || undo_performed l o l' then 1 else 0)
  /\ MoveCount l <= MoveCount l'.
Proof.
  intros Hrun He Hng.
  pose proof (run_Inv_of seed ops l Hrun) as HI.
  destruct (exec_counts l o l' HI He) as [Hu Hc]. rewrite Hng in Hu, Hc.
  destruct (exec_Inv l o HI) as (l1 & He1 & HI1).
  rewrite He in He1. injection He1 as <-.
  destruct HI as (_ & Hne & _ & _ & Hu0).
  destruct HI1 as (_ & Hne1 & _ & _ & Hu1).
  assert (Hlen : 1 <= hlen l)
    by (unfold hlen; destruct (stack (mvs l)); [contradiction|];
        cbn [length]; lia).
  assert (Hlen1 : 1 <= hlen l')
    by (unfold hlen; destruct (stack (mvs l')); [contradiction|];
        cbn [length]; lia).
  assert (Hex : move_committed l o = true -> undo_performed l o l' = false)
    by (destruct o; cbn [move_committed undo_performed]; congruence).
  unfold MoveCount, count. unfold hlen in *.
  destruct (Z.ltb_spec 0 (Z.of_nat (length (stack (mvs l))) + undos (mvs l) * 2));
    [|lia].
  destruct (Z.ltb_spec 0
              (Z.of_nat (length (stack (mvs l'))) + undos (mvs l') * 2));
    [|lia].
  destruct (move_committed l o), (undo_performed l o l');
    cbn [orb]; try (specialize (Hex eq_refl); discriminate Hex); lia.
Qed.

Lemma X7_MoveCount_never_decreases_witness :
  exists l l',
    run 1 opening1 = Some l
    /\ exec l OpUndo = Some l'
    /\ is_new_game OpUndo = false
    /\ (MoveCount l' =
          MoveCount l
          + (if move_committed l OpUndo || undo_performed l OpUndo l'
             then 1 else 0)
        /\ MoveCount l <= MoveCount l').
Proof.
  eexists. eexists. split; [vm_compute; reflexivity|].
  split; [vm_compute; reflexivity|]. split; [reflexivity|].
  apply (X7_MoveCount_never_decreases 1 opening1);
    vm_compute; reflexivity.
Defined.

(** ** [PreviousBoard] and [Undo] *)

Lemma nth_error_last {A : Type} (s : list A) d :
  s <> [] -> nth_error s (length s - 1) = Some (last s d).
Proof.
  intros Hne. destruct (exists_last Hne) as (s' & a & ->).
  rewrite last_last, length_app. cbn [length].
  replace (length s' + 1 - 1)%nat with (length s') by lia.
  rewrite nth_error_app2 by lia. rewrite Nat.sub_diag. reflexivity.
Qed.

Lemma nth_error_before_last {A : Type} (s : list A) d :
  (1 < length s)%nat ->
  nth_error s (length s - 2) = Some (last (removelast s) d).
Proof.
  intros Hlen.
  assert (Hne : s <> []) by (destruct s; [cbn [length] in Hlen; lia | discriminate]).
  destruct (exists_last Hne) as (s' & a & ->).
  rewrite removelast_last. rewrite length_app in *. cbn [length] in *.
  assert (Hne' : s' <> [])
    by (destruct s'; [cbn [length] in Hlen; lia | discriminate]).
  rewrite nth_error_app1 by lia.
  replace (length s' + 1 - 2)%nat with (length s' - 1)%nat by lia.
  apply nth_error_last. exact Hne'.
Qed.

Lemma PreviousBoard_Inv l :
  Inv l ->
  PreviousBoard l
  = Some (if 1 <? Z.of_nat (length (stack (mvs l)))
          then last (removelast (stack (mvs l))) []
          else board l).
Proof.
  intros (_ & Hne & Hlast & _). unfold PreviousBoard. cbv zeta.
  destruct (Z.ltb_spec 1 (Z.of_nat (length (stack (mvs l))))) as [Hlt|Hge].
  - apply (@nth_error_before_last Board). lia.
  - rewrite (@nth_error_last Board _ [] Hne). rewrite Hlast. reflexivity.
Qed.

(** X8: in every state a session reaches, [PreviousBoard] and [Undo] both
    succeed, and [Undo] sets the board to exactly the board that
    [PreviousBoard] reported; it is the current board when only the deal
    is on the history. *)
Theorem X8_Undo_restores_PreviousBoard
  (seed : Z) (ops : list op) (l : logic) :
  run seed ops = Some l ->
  exists pb l',
    PreviousBoard l = Some pb /\ Undo l = Some l' /\ board l' = pb
    /\ (length (stack (mvs l)) = 1%nat -> pb = board l).
Proof.
  intros Hrun. pose proof (run_Inv_of seed ops l Hrun) as HI.
  destruct (Undo_Inv l HI) as (l' & HU & _ & _ & _ & _ & _ & Hb).
  eexists. exists l'. split; [apply PreviousBoard_Inv; exact HI|].
  split; [exact HU|]. split; [exact Hb|].
  intros H1. rewrite H1. reflexivity.
Qed.

Lemma X8_Undo_restores_PreviousBoard_witness :
  exists l,
    run 1 opening1 = Some l
    /\ exists pb l',
         PreviousBoard l = Some pb /\ Undo l = Some l' /\ board l' = pb
         /\ (length (stack (mvs l)) = 1%nat -> pb = board l).
Proof.
  eexists. split; [vm_compute; reflexivity|].
  apply (X8_Undo_restores_PreviousBoard 1 opening1). vm_compute. reflexivity.
Defined.

(** X9: in every state a session reaches, after an [Interact] that
    answered true, [PreviousBoard] is the board as it was before that
    call. *)
Theorem X9_PreviousBoard_after_move
  (seed : Z) (ops : list op) (l : logic) (pick : Z) (l1 : logic) :
  run seed ops = Some l -> Interact l pick = (l1, true) ->
  PreviousBoard l1 = Some (board l).
Proof.
  intros Hrun Hint. pose proof (run_Inv_of seed ops l Hrun) as HI.
  pose proof (Interact_frame l pick) as HF. rewrite Hint in HF.
  cbn [fst snd] in HF.
  pose proof (Inv_step _ _ _ HI HF) as HI1.
  destruct HF as (_ & _ & _ & _ & Ht). specialize (Ht eq_refl).
  rewrite (PreviousBoard_Inv l1 HI1), Ht. unfold record. cbn [stack].
  destruct HI as (_ & Hne & Hlast & _).
  rewrite length_app, removelast_last. cbn [length].
  replace (1 <? Z.of_nat (length (stack (mvs l)) + 1)) with true.
  - rewrite Hlast. reflexivity.
  - symmetry. apply Z.ltb_lt.
    destruct (stack (mvs l)); [contradiction | cbn [length]; lia].
Qed.

Lemma X9_PreviousBoard_after_move_witness :
  exists l l1,
    run 1 [OpInteract 28] = Some l
    /\ Interact l 100 = (l1, true)
    /\ PreviousBoard l1 = Some (board l).
Proof.
  eexists. eexists. split; [vm_compute; reflexivity|].
  split; [vm_compute; reflexivity|].
  apply (X9_PreviousBoard_after_move 1 [OpInteract 28] _ 100);
    vm_compute; reflexivity.
Defined.

(** ** Auto-promotion before the first move *)

(** X10: as long as no move has been committed since the deal,
    [AutoMoveCard] answers false and changes nothing, whatever the board
    offers. *)
Theorem X10_AutoMoveCard_waits_for_first_move
  (seed : Z) (ops : list op) (l : logic) :
  run seed ops = Some l -> moves_committed seed ops = 0 ->
  AutoMoveCard l = (l, false).
Proof.
  intros Hrun Hc.
  destruct (run_counts seed ops l Hrun) as [_ Hsum]. rewrite Hc in Hsum.
  destruct (run_Inv_of seed ops l Hrun) as (_ & Hne & _ & _ & Hu0).
  assert (Hlen : 1 <= hlen l)
    by (unfold hlen; destruct (stack (mvs l)); [contradiction|];
        cbn [length]; lia).
  unfold AutoMoveCard.
  replace (count (mvs l) <? 2) with true; [reflexivity|].
  symmetry. apply Z.ltb_lt. unfold count. unfold hlen in *. lia.
Qed.

Lemma X10_AutoMoveCard_waits_for_first_move_witness :
  exists l,
    run 1 [OpInteract 28; OpUndo] = Some l
    /\ moves_committed 1 [OpInteract 28; OpUndo] = 0
    /\ AutoMoveCard l = (l, false).
Proof.
  eexists. split; [vm_compute; reflexivity|].
  split; [vm_compute; reflexivity|].
  apply (X10_AutoMoveCard_waits_for_first_move 1 [OpInteract 28; OpUndo]);
    vm_compute; reflexivity.
Defined.

(** ** Bounds on the movable stack size *)

Lemma filter_length_le {A : Type} (f : A -> bool) (s : list A) :
  (length (filter f s) <= length s)%nat.
Proof.
  induction s as [|a t IH]; cbn [filter length]; [lia|].
  destruct (f a); cbn [length]; lia.
Qed.

(** X11: on every board the movable stack size is at least 1 and at most
    24, and moving onto an empty cascade never allows more cards than
    moving onto a card. *)
Theorem X11_movableStackSize_bounds (l : logic) :
  (forall used, 1 <= movableStackSize l used <= 24)
  /\ movableStackSize l true <= movableStackSize l false.
Proof.
  assert (HF : 0 <= emptyFreeCells l <= 4).
  { rewrite emptyFreeCells_spec. unfold spec_F.
    pose proof (filter_length_le (fun p => negb (pile_occupied l p))
                  [0; 1; 2; 3]) as H. cbn [length] in H. lia. }
  assert (HE : 0 <= emptyCascades l <= 8).
  { rewrite emptyCascades_spec. unfold spec_E.
    pose proof (filter_length_le (fun p => negb (pile_occupied l p))
                  [8; 9; 10; 11; 12; 13; 14; 15]) as H.
    cbn [length] in H. lia. }
  unfold movableStackSize. cbv zeta.
  split; [intros used; destruct used|];
    destruct (Z.leb_spec (emptyCascades l) 0);
    try destruct (Z.ltb_spec 0 (emptyCascades l - 1));
    try destruct (Z.ltb_spec 0 (emptyCascades l)); lia.
Qed.

(** ** Sequences on real cards *)

(** X12: for two cards of the deck the unsigned subtraction in
    [nextInSequence] does no harm: [b] goes on [a] exactly when its rank
    is one less and its colour differs; in particular nothing goes on an
    ace. *)
Theorem X12_nextInSequence_on_cards (a b : Z) :
  isCard a = true -> isCard b = true ->
  nextInSequence (getCard a) (getCard b)
  = (Rank (getCard b) + 1 =? Rank (getCard a))
    && negb (Color (getCard b) =? Color (getCard a)).
Proof.
  intros Ha Hb.
  assert (Hr : forall c, isCard c = true -> 0 <= Rank (getCard c) <= 12).
  { intros c Hc.
    assert (H : (0 <=? Rank (getCard c)) && (Rank (getCard c) <=? 12) = true).
    { apply (forall_cards
               (fun c => (0 <=? Rank (getCard c)) && (Rank (getCard c) <=? 12)));
        [vm_compute; reflexivity | exact Hc]. }
    apply andb_true_iff in H. rewrite !Z.leb_le in H. exact H. }
  pose proof (Hr a Ha) as Hra. pose proof (Hr b Hb) as Hrb.
  unfold nextInSequence. f_equal.
  destruct (Z.eq_dec (Rank (getCard a)) 0) as [E|E].
  - rewrite E. change (wrap (0 - 1)) with 18446744073709551615.
    destruct (Z.eqb_spec (Rank (getCard b)) 18446744073709551615);
      destruct (Z.eqb_spec (Rank (getCard b) + 1) 0); try reflexivity; lia.
  - rewrite wrap_small by lia.
    destruct (Z.eqb_spec (Rank (getCard b)) (Rank (getCard a) - 1));
      destruct (Z.eqb_spec (Rank (getCard b) + 1) (Rank (getCard a)));
      try reflexivity; lia.
Qed.

Lemma X12_nextInSequence_on_cards_witness :
  isCard 0 = true /\ isCard 5 = true
  /\ nextInSequence (getCard 0) (getCard 5)
     = (Rank (getCard 5) + 1 =? Rank (getCard 0))
       && negb (Color (getCard 5) =? Color (getCard 0)).
Proof.
  split; [reflexivity|]. split; [reflexivity|].
  apply X12_nextInSequence_on_cards; reflexivity.
Defined.

(** ** The legality checks read the board only *)

Section SameBoard.
Variables l1 l2 : logic.
Hypothesis Hb : board l1 = board l2.

Lemma bget_same c : bget l1 c = bget l2 c.
Proof. unfold bget. rewrite Hb. reflexivity. Qed.

Lemma cardAt_scan_same pos cids :
  cardAt_scan l1 pos cids = cardAt_scan l2 pos cids.
Proof.
  induction cids as [|c cs IH]; cbn [cardAt_scan]; [reflexivity|].
  rewrite IH, bget_same. reflexivity.
Qed.

Lemma cardAt_same pos : cardAt l1 pos = cardAt l2 pos.
Proof. apply cardAt_scan_same. Qed.

Lemma isLastInCascade_same c : isLastInCascade l1 c = isLastInCascade l2 c.
Proof.
  unfold isLastInCascade. rewrite cardAt_same, !bget_same. reflexivity.
Qed.

Lemma lastInCascade_scan_same k cids :
  lastInCascade_scan l1 k cids = lastInCascade_scan l2 k cids.
Proof.
  induction cids as [|c cs IH]; cbn [lastInCascade_scan]; [reflexivity|].
  rewrite IH, isLastInCascade_same, bget_same. reflexivity.
Qed.

Lemma lastInCascade_same k : lastInCascade l1 k = lastInCascade l2 k.
Proof. apply lastInCascade_scan_same. Qed.

Lemma emptyPile_same p : emptyPile l1 p = emptyPile l2 p.
Proof.
  unfold emptyPile. destruct ((0 <=? p) && (p <=? 15)); [|reflexivity].
  induction card_ids as [|c cs IH]; cbn [forallb]; [reflexivity|].
  rewrite IH, bget_same. reflexivity.
Qed.

Lemma countEmptyCells_same piles :
  countEmptyCells l1 piles = countEmptyCells l2 piles.
Proof.
  unfold countEmptyCells. generalize 0.
  induction piles as [|p ps IH]; intros acc; cbn [fold_left]; [reflexivity|].
  rewrite emptyPile_same. apply IH.
Qed.

Lemma emptyFreeCells_same : emptyFreeCells l1 = emptyFreeCells l2.
Proof. apply countEmptyCells_same. Qed.

Lemma emptyCascades_same : emptyCascades l1 = emptyCascades l2.
Proof. apply countEmptyCells_same. Qed.

Lemma movableStackSize_same used :
  movableStackSize l1 used = movableStackSize l2 used.
Proof.
  unfold movableStackSize. rewrite emptyCascades_same, emptyFreeCells_same.
  reflexivity.
Qed.

Lemma canMoveToCascade_scan_same c ks :
  canMoveToCascade_scan l1 c ks = canMoveToCascade_scan l2 c ks.
Proof.
  induction ks as [|k ks IH]; cbn [canMoveToCascade_scan]; [reflexivity|].
  cbv zeta. rewrite IH, lastInCascade_same. reflexivity.
Qed.

Lemma canMoveToCascade_same c : canMoveToCascade l1 c = canMoveToCascade l2 c.
Proof. apply canMoveToCascade_scan_same. Qed.

Lemma getSequence_loop_same fuel : forall c nxt v,
  getSequence_loop fuel l1 c nxt v = getSequence_loop fuel l2 c nxt v.
Proof.
  induction fuel as [|fuel IH]; intros; cbn [getSequence_loop];
    [reflexivity|].
  cbv zeta. rewrite IH, cardAt_same, bget_same. reflexivity.
Qed.

Lemma getSequence_same c : getSequence l1 c = getSequence l2 c.
Proof.
  unfold getSequence. cbv zeta.
  rewrite getSequence_loop_same, !cardAt_same, canMoveToCascade_same,
    movableStackSize_same, !bget_same.
  reflexivity.
Qed.

Lemma canSelectCard_same pick : canSelectCard l1 pick = canSelectCard l2 pick.
Proof.
  unfold canSelectCard. cbv zeta.
  rewrite getSequence_same, emptyFreeCells_same, emptyCascades_same,
    canMoveToCascade_same, emptyPile_same, cardAt_same, !bget_same.
  reflexivity.
Qed.

Lemma GetSelected_loop_same fuel : forall c nxt v,
  GetSelected_loop fuel l1 c nxt v = GetSelected_loop fuel l2 c nxt v.
Proof.
  induction fuel as [|fuel IH]; intros; cbn [GetSelected_loop];
    [reflexivity|].
  cbv zeta. rewrite IH, cardAt_same, bget_same. reflexivity.
Qed.
End SameBoard.

(** ** [Interact] with nothing selected *)

Lemma canSelectCard_isCard l pick :
  canSelectCard l pick = true -> isCard pick = true.
Proof.
  unfold canSelectCard. destruct (isCard pick); [reflexivity|].
  cbn [negb]. intros H. discriminate H.
Qed.

Lemma Interact_unselected l pick :
  isSelectionActive l = false ->
  Interact l pick
  = (with_selected l (if canSelectCard l pick then pick else NO_CARD), false).
Proof.
  intros Hact. unfold Interact, canInteract. rewrite Hact.
  destruct (canSelectCard l pick) eqn:Hcs; cbn [negb].
  - rewrite (canSelectCard_isCard l pick Hcs). reflexivity.
  - cbv zeta.
    change (isSelectionActive (clearSelected l)) with false.
    rewrite (canSelectCard_same (clearSelected l) l eq_refl pick), Hcs.
    rewrite andb_false_r.
    destruct (negb (pick =? selected l)); reflexivity.
Qed.

(** X13: with nothing selected, [Interact] never moves a card: it answers
    false, leaves the board and the history alone, and selects [pick]
    exactly when [canSelectCard] accepts it. *)
Theorem X13_Interact_with_nothing_selected (l : logic) (pick : Z) :
  isSelectionActive l = false ->
  Interact l pick
  = (with_selected l (if canSelectCard l pick then pick else NO_CARD), false).
Proof. apply Interact_unselected. Qed.

Lemma X13_Interact_with_nothing_selected_witness :
  isSelectionActive (NewGame logic0 1) = false
  /\ Interact (NewGame logic0 1) 28
     = (with_selected (NewGame logic0 1)
          (if canSelectCard (NewGame logic0 1) 28 then 28 else NO_CARD),
        false).
Proof.
  assert (H : isSelectionActive (NewGame logic0 1) = false)
    by (vm_compute; reflexivity).
  split; [exact H|].
  exact (X13_Interact_with_nothing_selected (NewGame logic0 1) 28 H).
Defined.

(** ** What [Interact] leaves selected *)

Lemma Interact_outcome l pick :
  (snd (Interact l pick) = true ->
     isSelectionActive l = true /\ canPlaceCard l pick = true
     /\ selected (fst (Interact l pick)) = NO_CARD)
  /\ (snd (Interact l pick) = false ->
        selected (fst (Interact l pick)) = NO_CARD
        \/ (selected (fst (Interact l pick)) = pick
            /\ canSelectCard l pick = true)).
Proof.
  destruct (isSelectionActive l) eqn:Hact.
  2: { rewrite (Interact_unselected l pick Hact). cbn [fst snd].
       split; [intros H; discriminate H|]. intros _.
       destruct (canSelectCard l pick); [right|left]; split; reflexivity. }
  unfold Interact, canInteract. rewrite Hact.
  destruct (canPlaceCard l pick) eqn:Hcp; cbn [negb].
  - cbv zeta.
    repeat match goal with
    | |- context [if ?c then _ else _] => destruct c
    end; cbn [fst snd];
    (split; intros H; try discriminate H;
     first
       [ left; reflexivity
       | repeat split;
         first [ reflexivity
               | match goal with
                 | |- selected (record_board (place_seq ?a ?s ?d)) = _ =>
                     destruct (place_seq_frame a s d) as (_ & Hs & _);
                     autorewrite with fields; exact Hs
                 end ] ]).
  - cbv zeta. change (isSelectionActive (clearSelected l)) with false.
    rewrite (canSelectCard_same (clearSelected l) l eq_refl pick).
    destruct (negb (pick =? selected l)); cbn [fst snd];
      [|split; intros H; [discriminate H | left; reflexivity]].
    destruct (isCard pick && canSelectCard l pick) eqn:E; cbn [fst snd];
      (split; intros H; [discriminate H|]).
    + right. apply andb_true_iff in E. split; [reflexivity | apply E].
    + left. reflexivity.
Qed.

(** X14: [Interact] answers true only when a card was selected and
    [canPlaceCard] accepted the pick; it then clears the selection, pushes
    exactly one snapshot, the new board, on the history and leaves the undo
    counter alone. *)
Theorem X14_Interact_commit (l : logic) (pick : Z) (l1 : logic) :
  Interact l pick = (l1, true) ->
  isSelectionActive l = true /\ canPlaceCard l pick = true
  /\ selected l1 = NO_CARD
  /\ stack (mvs l1) = stack (mvs l) ++ [board l1]
  /\ undos (mvs l1) = undos (mvs l).
Proof.
  intros Hint.
  destruct (Interact_outcome l pick) as [Ht _].
  pose proof (Interact_frame l pick) as HF.
  rewrite Hint in Ht, HF. cbn [fst snd] in Ht, HF.
  destruct (Ht eq_refl) as (Ha & Hc & Hs).
  destruct HF as (_ & _ & _ & _ & Hm). rewrite (Hm eq_refl).
  repeat split; assumption.
Qed.

Lemma X14_Interact_commit_witness :
  Interact game1_picked 100 = (game1_moved, true)
  /\ (isSelectionActive game1_picked = true
      /\ canPlaceCard game1_picked 100 = true
      /\ selected game1_moved = NO_CARD
      /\ stack (mvs game1_moved) = stack (mvs game1_picked) ++ [board game1_moved]
      /\ undos (mvs game1_moved) = undos (mvs game1_picked)).
Proof.
  assert (H : Interact game1_picked 100 = (game1_moved, true))
    by (vm_compute; reflexivity).
  split; [exact H | exact (X14_Interact_commit game1_picked 100 game1_moved H)].
Defined.

(** ** The selection stays on a freecell or a cascade *)

Lemma canSelectCard_location l pick :
  canSelectCard l pick = true ->
  isCard pick = true
  /\ isCascade (bget l pick) || isFreecell (bget l pick) = true.
Proof.
  intros H. split; [exact (canSelectCard_isCard l pick H)|].
  unfold canSelectCard in H. cbv zeta in H.
  destruct (negb (isCard pick)); [discriminate H|].
  destruct (isFoundation (bget l pick)); [discriminate H|].
  destruct (isCascade (bget l pick) || isFreecell (bget l pick));
    [reflexivity | discriminate H].
Qed.

Lemma AutoMoveCard_as_spec l :
  length (board l) = 52%nat ->
  AutoMoveCard l
  = if count (mvs l) <? 2 then (l, false) else spec_AutoMoveCard l.
Proof.
  intros H52. unfold AutoMoveCard, spec_AutoMoveCard.
  destruct (count (mvs l) <? 2); [reflexivity|].
  cbv zeta. rewrite minRank_spec.
  rewrite (AutoMoveCard_scan_spec l (candidates l) (candidates_cases l)).
  rewrite candidates_filter.
  destruct (find (spec_eligible l) (spec_candidates l)) as [c|] eqn:Hfind;
    [|reflexivity].
  apply find_some in Hfind. destruct Hfind as [Hin _].
  rewrite <- candidates_filter in Hin. apply filter_In in Hin.
  destruct Hin as [Hin Hid].
  destruct (candidates_cases l c Hin) as [Hno|(cid & Hcid & ->)].
  - rewrite Hno in Hid. discriminate Hid.
  - rewrite (promote_spec l cid H52 Hcid). reflexivity.
Qed.

Lemma spec_candidates_cards l c :
  In c (spec_candidates l) -> exists cid, isCard cid = true /\ c = getCard cid.
Proof.
  intros Hin. rewrite <- candidates_filter in Hin. apply filter_In in Hin.
  destruct Hin as [Hin Hid].
  destruct (candidates_cases l c Hin) as [Hno|H]; [|exact H].
  rewrite Hno in Hid. discriminate Hid.
Qed.

Lemma not_foundation_of_playable x :
  isCascade x || isFreecell x = true -> ~ (4 <= x <= 7).
Proof.
  unfold isCascade, isFreecell, MAX_BOARD_ID. intros H Hx.
  apply orb_true_iff in H. rewrite !andb_true_iff, !Z.leb_le in H. lia.
Qed.

Lemma spec_promoted_selection l cid :
  length (board l) = 52%nat -> isCard cid = true -> selection_ok l ->
  selection_ok (spec_promoted l (getCard cid)).
Proof.
  intros H52 Hc Hsel. unfold selection_ok, spec_promoted. cbv zeta.
  cbn [selected]. rewrite (getCard_ID cid Hc).
  destruct (Z.eqb_spec (selected l) cid) as [E|E]; [left; reflexivity|].
  destruct Hsel as [Hno|[Hs Hloc]]; [left; exact Hno|].
  right. split; [exact Hs|].
  unfold bget in *. cbn [board].
  pose proof (getCard_suit cid Hc) as Hsuit.
  apply isCard_range in Hc. pose proof Hs as Hs'. apply isCard_range in Hs'.
  rewrite aget_aset_other by lia.
  rewrite foundation_top_cardAt.
  destruct (cardAt_cases l (Suit (getCard cid) + 4)) as [Htop|[Htop Hbt]].
  - rewrite Htop. change (NO_CARD =? NO_CARD) with true. exact Hloc.
  - replace (cardAt l (Suit (getCard cid) + 4) =? NO_CARD) with false
      by (symmetry; apply Z.eqb_neq; apply isCard_not_NO_CARD; exact Htop).
    rewrite (getCard_ID _ Htop).
    apply isCard_range in Htop.
    rewrite aget_aset_other; [exact Hloc|lia|lia|].
    intros E'. apply (not_foundation_of_playable _ Hloc).
    unfold bget in Hbt. rewrite <- E', Hbt. lia.
Qed.

Lemma AutoMoveCard_selection l :
  length (board l) = 52%nat -> selection_ok l ->
  selection_ok (fst (AutoMoveCard l)).
Proof.
  intros H52 Hsel. rewrite (AutoMoveCard_as_spec l H52).
  destruct (count (mvs l) <? 2); [exact Hsel|].
  unfold spec_AutoMoveCard.
  destruct (find (spec_eligible l) (spec_candidates l)) as [c|] eqn:Hfind;
    [|exact Hsel].
  apply find_some in Hfind. destruct Hfind as [Hin _].
  destruct (spec_candidates_cards l c Hin) as (cid & Hcid & ->).
  cbn [fst]. apply spec_promoted_selection; assumption.
Qed.

Lemma selection_ok_none l : selected l = NO_CARD -> selection_ok l.
Proof. intros H. left. exact H. Qed.

Lemma Interact_selection l pick : selection_ok (fst (Interact l pick)).
Proof.
  destruct (Interact_outcome l pick) as [Ht Hf].
  pose proof (Interact_frame l pick) as (_ & _ & _ & Hfr & _).
  destruct (snd (Interact l pick)).
  - left. apply Ht. reflexivity.
  - destruct (Hf eq_refl) as [Hno|[Hp Hcs]]; [left; exact Hno|].
    destruct (Hfr eq_refl) as [Hb _].
    destruct (canSelectCard_location l pick Hcs) as [Hc Hloc].
    right. rewrite Hp. split; [exact Hc|].
    rewrite (bget_same _ l Hb). exact Hloc.
Qed.

Lemma exec_selection l o l' :
  Inv l -> selection_ok l -> exec l o = Some l' -> selection_ok l'.
Proof.
  intros HI Hsel He. destruct o as [seed|pick| | |]; cbn [exec] in He.
  - injection He as <-. apply selection_ok_none.
    apply (NewGame_fields l seed).
  - injection He as <-. apply Interact_selection.
  - destruct (Undo_Inv l HI) as (l1 & HU & _ & _ & _ & Hs & _).
    rewrite HU in He. injection He as <-. apply selection_ok_none. exact Hs.
  - injection He as <-. apply AutoMoveCard_selection; [apply HI | exact Hsel].
  - injection He as <-. apply selection_ok_none. reflexivity.
Qed.

Lemma run_from_selection ops : forall l l',
  Inv l -> selection_ok l -> run_from l ops = Some l' -> selection_ok l'.
Proof.
  induction ops as [|o rest IH]; intros l l' HI Hsel Hrun;
    cbn [run_from] in Hrun.
  - injection Hrun as <-. exact Hsel.
  - destruct (exec_Inv l o HI) as (l1 & He & HI1). rewrite He in Hrun.
    apply (IH l1 l' HI1); [|exact Hrun].
    exact (exec_selection l o l1 HI Hsel He).
Qed.

(** X15: in every state a session reaches, the selection is either none
    or a card id whose card lies on a freecell or on a cascade; it never
    points at a foundation card, a buried card or an empty pile. *)
Theorem X15_selection_is_playable (seed : Z) (ops : list op) (l : logic) :
  run seed ops = Some l -> selection_ok l.
Proof.
  intros Hrun. unfold run in Hrun.
  apply (run_from_selection ops (NewGame logic0 seed) l);
    [ apply NewGame_Inv; exact logic0_board
    | apply selection_ok_none; apply (NewGame_fields logic0 seed)
    | exact Hrun ].
Qed.

Lemma X15_selection_is_playable_witness :
  exists l, run 1 opening1 = Some l /\ selection_ok l.
Proof.
  eexists. split; [vm_compute; reflexivity|].
  apply (X15_selection_is_playable 1 opening1). vm_compute. reflexivity.
Defined.

(** ** The runs that [GetSelected] and [getSequence] build *)

Lemma is_run_snoc l v a b :
  is_run l (v ++ [a]) -> stacked_on l a b -> is_run l ((v ++ [a]) ++ [b]).
Proof.
  induction v as [|x v IH]; intros Hrun Hst.
  - cbn [app is_run]. split; [exact Hst | exact I].
  - destruct v as [|y v'].
    + cbn [app is_run] in *. destruct Hrun as [Hxa _].
      split; [exact Hxa|]. split; [exact Hst | exact I].
    + change (is_run l (x :: (y :: v' ++ [a])))
        with (stacked_on l x y /\ is_run l ((y :: v') ++ [a])) in Hrun.
      change (is_run l ((x :: (y :: v') ++ [a]) ++ [b]))
        with (stacked_on l x y /\ is_run l (((y :: v') ++ [a]) ++ [b])).
      destruct Hrun as [Hxy Hrest]. split; [exact Hxy|].
      apply IH; assumption.
Qed.

Lemma cardAt_next l c nxt :
  nxt = cardAt l (wrap (bget l c + 8)) -> nxt <> NO_CARD ->
  0 <= bget l c + 8 < 18446744073709551616 ->
  isCard nxt = true /\ bget l nxt = bget l c + 8.
Proof.
  intros Hn Hne Hb.
  destruct (cardAt_cases l (wrap (bget l c + 8))) as [H|[H1 H2]].
  - rewrite <- Hn in H. contradiction.
  - rewrite <- Hn in H1, H2. split; [exact H1|].
    rewrite H2. apply wrap_small. exact Hb.
Qed.

Lemma GetSelected_loop_run fuel : forall l pre c nxt,
  nxt = cardAt l (wrap (bget l c + 8)) ->
  8 <= bget l c ->
  bget l c + 8 * Z.of_nat fuel + 8 < 18446744073709551616 ->
  is_run l (pre ++ [c]) ->
  (forall x, In x (pre ++ [c]) -> isCard x = true) ->
  is_run l (GetSelected_loop fuel l c nxt (pre ++ [c]))
  /\ (forall x, In x (GetSelected_loop fuel l c nxt (pre ++ [c])) ->
        isCard x = true)
  /\ (length (GetSelected_loop fuel l c nxt (pre ++ [c]))
      <= Nat.max (length (pre ++ [c])) 10)%nat
  /\ exists more, GetSelected_loop fuel l c nxt (pre ++ [c])
                  = (pre ++ [c]) ++ more.
Proof.
  induction fuel as [|fuel IH]; intros l pre c nxt Hn Hlo Hhi Hrun Hcards;
    cbn [GetSelected_loop].
  - repeat split; try assumption; [lia|]. exists []. symmetry. apply app_nil_r.
  - cbv zeta.
    destruct (negb (nxt =? NO_CARD)) eqn:Hne; cbn [andb];
      [|repeat split; try assumption; [lia|];
        exists []; symmetry; apply app_nil_r].
    destruct (nextInSequence (getCard c) (getCard nxt)) eqn:Hseq; cbn [andb];
      [|repeat split; try assumption; [lia|];
        exists []; symmetry; apply app_nil_r].
    destruct (Z.ltb_spec (len (pre ++ [c])) 10) as [Hlt|Hge];
      [|repeat split; try assumption; [lia|];
        exists []; symmetry; apply app_nil_r].
    apply negb_true_iff, Z.eqb_neq in Hne.
    destruct (cardAt_next l c nxt Hn Hne) as [Hcn Hbn]; [lia|].
    destruct (IH l (pre ++ [c]) nxt (cardAt l (wrap (bget l nxt + 8))))
      as (R1 & R2 & R3 & more & R4).
    + reflexivity.
    + lia.
    + lia.
    + apply is_run_snoc; [exact Hrun | split; assumption].
    + intros x Hin. apply in_app_or in Hin.
      destruct Hin as [Hin|[<-|[]]]; [apply Hcards; exact Hin | exact Hcn].
    + split; [exact R1|]. split; [exact R2|]. split.
      * unfold len in Hlt. rewrite length_app in R3. cbn [length] in R3. lia.
      * exists (nxt :: more). rewrite R4, <- app_assoc. reflexivity.
Qed.

Lemma GetSelected_facts (l : logic) :
  (isSelectionActive l = false -> GetSelected l = [])
  /\ (isSelectionActive l = true ->
        exists more, GetSelected l = selected l :: more)
  /\ (length (GetSelected l) <= 10)%nat
  /\ is_run l (GetSelected l)
  /\ (forall x, In x (GetSelected l) -> isCard x = true).
Proof.
  unfold GetSelected. cbv zeta.
  destruct (isSelectionActive l) eqn:Hact; cbn [negb].
  2: { repeat split; try discriminate; try reflexivity; try exact I.
       - cbn [length]. lia.
       - intros x []. }
  destruct (isCascade (bget l (selected l))) eqn:Hcas.
  - unfold isCascade, MAX_BOARD_ID in Hcas. apply andb_true_iff in Hcas.
    rewrite !Z.leb_le in Hcas.
    destruct (GetSelected_loop_run 10 l [] (selected l)
                (cardAt l (wrap (bget l (selected l) + 8))))
      as (R1 & R2 & R3 & more & R4);
      [ reflexivity | lia | lia | exact I
      | intros x [<-|[]]; exact Hact | ].
    cbn [app] in *.
    split; [discriminate|]. split; [intros _; exists more; exact R4|].
    split; [cbn [length] in R3; lia|]. split; [exact R1 | exact R2].
  - split; [discriminate|]. split; [intros _; exists []; reflexivity|].
    split; [cbn [length]; lia|]. split; [exact I|].
    intros x [<-|[]]. exact Hact.
Qed.

(** X16: [GetSelected] returns nothing when no card is selected; otherwise
    it returns at most ten card ids, the selected card first, each next
    card lying one row above the previous one in the cascade and being next
    in sequence on it. *)
Theorem X16_GetSelected_is_a_run (l : logic) :
  (isSelectionActive l = false -> GetSelected l = [])
  /\ (isSelectionActive l = true ->
        exists more, GetSelected l = selected l :: more)
  /\ (length (GetSelected l) <= 10)%nat
  /\ is_run l (GetSelected l)
  /\ (forall x, In x (GetSelected l) -> isCard x = true).
Proof. apply GetSelected_facts. Qed.

Lemma getSequence_loop_run fuel : forall l pre c nxt,
  nxt = cardAt l (wrap (bget l c + 8)) ->
  8 <= bget l c ->
  bget l c + 8 * Z.of_nat fuel + 8 < 18446744073709551616 ->
  is_run l (pre ++ [c]) ->
  (forall x, In x (pre ++ [c]) -> isCard x = true) ->
  is_run l (getSequence_loop fuel l c nxt (pre ++ [c]))
  /\ (forall x, In x (getSequence_loop fuel l c nxt (pre ++ [c])) ->
        isCard x = true)
  /\ (length (getSequence_loop fuel l c nxt (pre ++ [c]))
      <= Nat.max (length (pre ++ [c])) 13)%nat
  /\ exists more, getSequence_loop fuel l c nxt (pre ++ [c])
                  = (pre ++ [c]) ++ more.
Proof.
  induction fuel as [|fuel IH]; intros l pre c nxt Hn Hlo Hhi Hrun Hcards;
    cbn [getSequence_loop].
  - repeat split; try assumption; [lia|]. exists []. symmetry. apply app_nil_r.
  - cbv zeta.
    destruct (negb (nxt =? NO_CARD)) eqn:Hne; cbn [andb];
      [|repeat split; try assumption; [lia|];
        exists []; symmetry; apply app_nil_r].
    destruct (nextInSequence (getCard c) (getCard nxt)) eqn:Hseq;
      [|repeat split; try assumption; [lia|];
        exists []; symmetry; apply app_nil_r].
    destruct (Z.leb_spec 13 (len (pre ++ [c]))) as [Hge|Hlt];
      [repeat split; try assumption; [lia|];
       exists []; symmetry; apply app_nil_r|].
    apply negb_true_iff, Z.eqb_neq in Hne.
    destruct (cardAt_next l c nxt Hn Hne) as [Hcn Hbn]; [lia|].
    destruct (IH l (pre ++ [c]) nxt (cardAt l (wrap (bget l nxt + 8))))
      as (R1 & R2 & R3 & more & R4).
    + reflexivity.
    + lia.
    + lia.
    + apply is_run_snoc; [exact Hrun | split; assumption].
    + intros x Hin. apply in_app_or in Hin.
      destruct Hin as [Hin|[<-|[]]]; [apply Hcards; exact Hin | exact Hcn].
    + split; [exact R1|]. split; [exact R2|]. split.
      * unfold len in Hlt. rewrite length_app in R3. cbn [length] in R3. lia.
      * exists (nxt :: more). rewrite R4, <- app_assoc. reflexivity.
Qed.

Lemma getSequence_facts (l : logic) (c : Z) :
  isCard c = true ->
  (getSequence l c = [] \/ exists more, getSequence l c = c :: more)
  /\ (length (getSequence l c) <= 13)%nat
  /\ is_run l (getSequence l c)
  /\ (forall x, In x (getSequence l c) -> isCard x = true)
  /\ (isCascade (bget l c) = true -> getSequence l c <> [] ->
        cardAt l (wrap (bget l (last (getSequence l c) NO_CARD) + 8)) = NO_CARD
        /\ len (getSequence l c)
           <= movableStackSize l (negb (canMoveToCascade l c)))
  /\ (isCascade (bget l c) = false ->
        getSequence l c = if isFreecell (bget l c) then [c] else []).
Proof.
  intros Hc. unfold getSequence. cbv zeta.
  destruct (isCascade (bget l c)) eqn:Hcas.
  - unfold isCascade, MAX_BOARD_ID in Hcas. apply andb_true_iff in Hcas.
    rewrite !Z.leb_le in Hcas.
    destruct (getSequence_loop_run 14 l [] c (cardAt l (wrap (bget l c + 8))))
      as (R1 & R2 & R3 & more & R4);
      [ reflexivity | lia | lia | exact I | intros x [<-|[]]; exact Hc | ].
    cbn [app] in *. cbn [length] in R3.
    assert (Hhd : hd NO_CARD
                    (getSequence_loop 14 l c (cardAt l (wrap (bget l c + 8))) [c])
                  = c) by (rewrite R4; reflexivity).
    rewrite Hhd.
    destruct (negb (cardAt l (wrap (bget l (last _ NO_CARD) + 8)) =? NO_CARD))
      eqn:Htop.
    { split; [left; reflexivity|]. split; [cbn [length]; lia|].
      split; [exact I|]. split; [intros x []|].
      split; [intros _ H; contradiction | discriminate]. }
    apply negb_false_iff, Z.eqb_eq in Htop.
    destruct (Z.ltb_spec (movableStackSize l (negb (canMoveToCascade l c)))
                (len (getSequence_loop 14 l c
                        (cardAt l (wrap (bget l c + 8))) [c]))) as [Hbig|Hfit].
    { split; [left; reflexivity|]. split; [cbn [length]; lia|].
      split; [exact I|]. split; [intros x []|].
      split; [intros _ H; contradiction | discriminate]. }
    split; [right; exists more; exact R4|]. split; [lia|].
    split; [exact R1|]. split; [exact R2|].
    split; [intros _ _; split; [exact Htop | exact Hfit] | discriminate].
  - destruct (isFreecell (bget l c)).
    + split; [right; exists []; reflexivity|]. split; [cbn [length]; lia|].
      split; [exact I|]. split; [intros x [<-|[]]; exact Hc|].
      split; [discriminate | reflexivity].
    + split; [left; reflexivity|]. split; [cbn [length]; lia|].
      split; [exact I|]. split; [intros x []|].
      split; [discriminate | reflexivity].
Qed.

(** X17: for a card id, [getSequence] returns either nothing or a run that
    starts with the card: at most thirteen cards, each lying one row above
    the previous one and next in sequence on it.  For a card on a cascade a
    run is returned only if no card lies above its last card and its
    length does not exceed the movable stack size; for a card elsewhere the
    answer is the card alone on a freecell and nothing otherwise. *)
Theorem X17_getSequence_is_a_valid_run (l : logic) (c : Z) :
  isCard c = true ->
  (getSequence l c = [] \/ exists more, getSequence l c = c :: more)
  /\ (length (getSequence l c) <= 13)%nat
  /\ is_run l (getSequence l c)
  /\ (forall x, In x (getSequence l c) -> isCard x = true)
  /\ (isCascade (bget l c) = true -> getSequence l c <> [] ->
        cardAt l (wrap (bget l (last (getSequence l c) NO_CARD) + 8)) = NO_CARD
        /\ len (getSequence l c)
           <= movableStackSize l (negb (canMoveToCascade l c)))
  /\ (isCascade (bget l c) = false ->
        getSequence l c = if isFreecell (bget l c) then [c] else []).
Proof. apply getSequence_facts. Qed.

Lemma X17_getSequence_is_a_valid_run_witness :
  isCard 28 = true
  /\ ((getSequence (NewGame logic0 1) 28 = []
       \/ exists more, getSequence (NewGame logic0 1) 28 = 28 :: more)
      /\ (length (getSequence (NewGame logic0 1) 28) <= 13)%nat
      /\ is_run (NewGame logic0 1) (getSequence (NewGame logic0 1) 28)
      /\ (forall x, In x (getSequence (NewGame logic0 1) 28) ->
            isCard x = true)
      /\ (isCascade (bget (NewGame logic0 1) 28) = true ->
            getSequence (NewGame logic0 1) 28 <> [] ->
            cardAt (NewGame logic0 1)
              (wrap (bget (NewGame logic0 1)
                       (last (getSequence (NewGame logic0 1) 28) NO_CARD) + 8))
            = NO_CARD
            /\ len (getSequence (NewGame logic0 1) 28)
               <= movableStackSize (NewGame logic0 1)
                    (negb (canMoveToCascade (NewGame logic0 1) 28)))
      /\ (isCascade (bget (NewGame logic0 1) 28) = false ->
            getSequence (NewGame logic0 1) 28
            = if isFreecell (bget (NewGame logic0 1) 28) then [28] else [])).
Proof.
  split; [reflexivity|].
  exact (X17_getSequence_is_a_valid_run (NewGame logic0 1) 28 eq_refl).
Defined.

(** ** A move touches the selected cards only *)

Lemma place_rest_other rest : forall l prev c,
  0 <= c -> ~ In c rest -> (forall x, In x rest -> 0 <= x) ->
  bget (place_rest l prev rest) c = bget l c.
Proof.
  induction rest as [|x rest IH]; intros l prev c Hc Hnot Hpos;
    cbn [place_rest]; [reflexivity|].
  rewrite IH.
  - unfold bget. autorewrite with fields.
    apply aget_aset_other; [apply Hpos; left; reflexivity | exact Hc|].
    intros E. apply Hnot. left. exact E.
  - exact Hc.
  - intros Hin. apply Hnot. right. exact Hin.
  - intros y Hin. apply Hpos. right. exact Hin.
Qed.

Lemma place_seq_other l seq dest c :
  0 <= c -> ~ In c seq -> (forall x, In x seq -> 0 <= x) ->
  bget (place_seq l seq dest) c = bget l c.
Proof.
  intros Hc Hnot Hpos. destruct seq as [|c0 rest]; cbn [place_seq];
    [reflexivity|].
  rewrite place_rest_other.
  - unfold bget. autorewrite with fields.
    apply aget_aset_other; [apply Hpos; left; reflexivity | exact Hc|].
    intros E. apply Hnot. left. exact E.
  - exact Hc.
  - intros Hin. apply Hnot. right. exact Hin.
  - intros y Hin. apply Hpos. right. exact Hin.
Qed.

Lemma Interact_board_frame l pick c :
  snd (Interact l pick) = true ->
  isCard c = true -> ~ In c (GetSelected l) ->
  (c = pick -> isFoundation (bget l c) = false) ->
  bget (fst (Interact l pick)) c = bget l c.
Proof.
  intros Hmoved Hc Hnot Hpick.
  destruct (isSelectionActive l) eqn:Hact;
    [|rewrite (Interact_unselected l pick Hact) in Hmoved;
      discriminate Hmoved].
  destruct (GetSelected_facts l) as (_ & Hhd & _ & _ & Hcards).
  destruct (Hhd Hact) as (more & Hseq).
  assert (Hcs : c <> selected l)
    by (intros E; apply Hnot; rewrite Hseq; left; symmetry; exact E).
  assert (Hc0 : 0 <= c) by (apply isCard_range in Hc; lia).
  assert (Hs0 : 0 <= selected l)
    by (unfold isSelectionActive in Hact; apply isCard_range in Hact; lia).
  assert (Hpos : forall x, In x (GetSelected l) -> 0 <= x).
  { intros x Hin. apply Hcards in Hin. apply isCard_range in Hin. lia. }
  assert (Hone : forall v, bget (record_board (bset (clearSelected l)
                                   (selected l) v)) c = bget l c).
  { intros v. unfold bget. autorewrite with fields.
    apply aget_aset_other; [exact Hs0 | exact Hc0 | congruence]. }
  assert (Hrun : forall d, bget (record_board
                     (place_seq (clearSelected l) (GetSelected l) d)) c
                   = bget l c).
  { intros d.
    change (bget (record_board (place_seq (clearSelected l) (GetSelected l) d)) c)
      with (bget (place_seq (clearSelected l) (GetSelected l) d) c).
    rewrite place_seq_other by assumption. reflexivity. }
  revert Hmoved. unfold Interact, canInteract. rewrite Hact.
  destruct (canPlaceCard l pick); cbn [negb].
  2: { destruct (negb (pick =? selected l));
         [destruct (isCard pick && _)|]; cbn [snd]; intros H; discriminate H. }
  cbv zeta. rewrite (getCard_ID (selected l) Hact).
  destruct ((EMPTY_PILE1 <=? pick) && (pick <=? EMPTY_PILE16)).
  - repeat match goal with
    | |- context [if ?b then _ else _] => destruct b
    end; cbn [fst snd]; intros H; try discriminate H;
      first [apply Hone | apply Hrun].
  - destruct (isCard pick) eqn:Hp; [|cbn [snd]; intros H; discriminate H].
    rewrite (getCard_ID pick Hp).
    change (bget (clearSelected l) pick) with (bget l pick).
    destruct (isFoundation (bget l pick)) eqn:Hf; cbn [andb].
    + destruct (len (GetSelected l) =? 1).
      * destruct (Rank (getCard (selected l)) =? Rank (getCard pick) + 1);
          cbn [fst snd]; intros H; [|discriminate H].
        assert (Hcp : c <> pick).
        { intros E. specialize (Hpick E). rewrite E in Hpick. congruence. }
        unfold bget. autorewrite with fields.
        apply isCard_range in Hp.
        rewrite !aget_aset_other by (try lia; congruence). reflexivity.
      * destruct (isCascade (bget l pick));
          [destruct (nextInSequence _ _)|]; cbn [fst snd]; intros H;
          try discriminate H. apply Hrun.
    + destruct (isCascade (bget l pick));
        [destruct (nextInSequence _ _)|]; cbn [fst snd]; intros H;
        try discriminate H. apply Hrun.
Qed.

(** X18: when [Interact] commits a move, every card outside the selected
    run keeps its location, except the picked card when it was the top of a
    foundation (it is then buried). *)
Theorem X18_Interact_moves_selected_cards_only
  (l : logic) (pick : Z) (l1 : logic) (c : Z) :
  Interact l pick = (l1, true) ->
  isCard c = true -> ~ In c (GetSelected l) ->
  (c = pick -> isFoundation (bget l c) = false) ->
  bget l1 c = bget l c.
Proof.
  intros Hint Hc Hnot Hpick.
  pose proof (Interact_board_frame l pick c) as H.
  rewrite Hint in H. cbn [fst snd] in H. apply H; auto.
Qed.

Lemma X18_Interact_moves_selected_cards_only_witness :
  Interact game1_picked 100 = (game1_moved, true)
  /\ isCard 42 = true
  /\ ~ In 42 (GetSelected game1_picked)
  /\ (42 = 100 -> isFoundation (bget game1_picked 42) = false)
  /\ bget game1_moved 42 = bget game1_picked 42.
Proof.
  assert (H1 : Interact game1_picked 100 = (game1_moved, true))
    by (vm_compute; reflexivity).
  assert (H2 : ~ In 42 (GetSelected game1_picked)).
  { replace (GetSelected game1_picked) with [28] by (vm_compute; reflexivity).
    intros [E|[]]. discriminate E. }
  assert (H3 : 42 = 100 -> isFoundation (bget game1_picked 42) = false)
    by (intros E; discriminate E).
  split; [exact H1|]. split; [reflexivity|]. split; [exact H2|].
  split; [exact H3|].
  exact (X18_Interact_moves_selected_cards_only
           game1_picked 100 game1_moved 42 H1 eq_refl H2 H3).
Defined.

(** ** Undoing everything *)

Lemma shuffle_ids_onto seed cid :
  isCard cid = true ->
  exists i, 0 <= i <= 51 /\ ID (aget InvalidCard (shuffle seed deck) i) = cid.
Proof.
  intros Hc. destruct (shuffle_ids seed) as [_ HP].
  apply isCard_range, card_ids_In in Hc.
  apply (Permutation_in _ (Permutation_sym HP)) in Hc.
  apply in_map_iff in Hc. destruct Hc as (i & Hi & Hin).
  exists i. split; [apply card_ids_In; exact Hin | exact Hi].
Qed.

(** The board [NewGame] leaves depends on the seed only. *)
Lemma NewGame_board_by_seed l l' seed :
  length (board l) = 52%nat -> length (board l') = 52%nat ->
  board (NewGame l seed) = board (NewGame l' seed).
Proof.
  intros H52 H52'.
  destruct (NewGame_deals l seed H52) as [G1 _].
  destruct (NewGame_deals l' seed H52') as [G1' _].
  destruct (NewGame_fields l seed) as (_ & _ & _ & _ & Hl).
  destruct (NewGame_fields l' seed) as (_ & _ & _ & _ & Hl').
  pose proof (shuffle_ids_onto seed) as Honto.
  rewrite H52 in Hl. rewrite H52' in Hl'.
  generalize dependent (NewGame l seed). intros g G1 Hl.
  generalize dependent (NewGame l' seed). intros g' G1' Hl'.
  generalize dependent (shuffle seed deck). intros dealt Honto G1 G1'.
  apply (nth_ext _ _ 0 0); [congruence|].
  intros n Hn. rewrite Hl in Hn.
  assert (Hcn : isCard (Z.of_nat n) = true) by (apply isCard_range; lia).
  destruct (Honto (Z.of_nat n) Hcn) as (i & Hi & Hid).
  specialize (G1 i Hi). specialize (G1' i Hi).
  rewrite Hid in G1, G1'. unfold bget, aget in G1, G1'.
  rewrite Nat2Z.id in G1, G1'. congruence.
Qed.

Lemma hd_app_nonempty {A : Type} (d : A) (s t : list A) :
  s <> [] -> hd d (s ++ t) = hd d s.
Proof. destruct s; [contradiction | reflexivity]. Qed.

Lemma hd_removelast {A : Type} (d : A) (s : list A) :
  (1 < length s)%nat -> hd d (removelast s) = hd d s.
Proof.
  destruct s as [|a [|b t]]; cbn [length]; intros H; try lia. reflexivity.
Qed.

Lemma exec_deal_kept l o l' :
  Inv l -> deal_kept l -> exec l o = Some l' -> deal_kept l'.
Proof.
  intros HI Hk He. unfold deal_kept in *.
  destruct o as [seed|pick| | |]; cbn [exec] in He.
  - injection He as <-.
    destruct (NewGame_fields l seed) as (_ & Hg & _ & Hm & _).
    rewrite Hg, Hm. cbn [stack hd].
    apply NewGame_board_by_seed; [apply HI | exact logic0_board].
  - injection He as <-.
    destruct (Interact_frame l pick) as (Hg & _ & _ & Hf & Ht).
    rewrite Hg. destruct (snd (Interact l pick)).
    + rewrite (Ht eq_refl). unfold record. cbn [stack].
      rewrite hd_app_nonempty by apply HI. exact Hk.
    + destruct (Hf eq_refl) as [_ ->]. exact Hk.
  - destruct (Undo_Inv l HI) as (l1 & HU & _ & Hg & _ & _ & Hm & _).
    rewrite HU in He. injection He as <-. rewrite Hg, Hm.
    destruct (Z.ltb_spec 1 (Z.of_nat (length (stack (mvs l))))) as [Hlt|Hge];
      [|exact Hk].
    cbn [stack]. rewrite <- Hk. apply (@hd_removelast Board). lia.
  - injection He as <-.
    destruct (AutoMoveCard_frame l) as (Hg & _ & _ & Hf & Ht).
    rewrite Hg. destruct (snd (AutoMoveCard l)).
    + rewrite (Ht eq_refl). unfold record. cbn [stack].
      rewrite hd_app_nonempty by apply HI. exact Hk.
    + destruct (Hf eq_refl) as [_ ->]. exact Hk.
  - injection He as <-. exact Hk.
Qed.

Lemma run_from_deal_kept ops : forall l l',
  Inv l -> deal_kept l -> run_from l ops = Some l' -> deal_kept l'.
Proof.
  induction ops as [|o rest IH]; intros l l' HI Hk Hrun;
    cbn [run_from] in Hrun.
  - injection Hrun as <-. exact Hk.
  - destruct (exec_Inv l o HI) as (l1 & He & HI1). rewrite He in Hrun.
    apply (IH l1 l' HI1); [|exact Hrun].
    exact (exec_deal_kept l o l1 HI Hk He).
Qed.

Lemma Undo_n_to_bottom n : forall l,
  Inv l -> length (stack (mvs l)) = S n ->
  exists l', Undo_n n l = Some l' /\ Inv l'
    /\ length (stack (mvs l')) = 1%nat
    /\ hd [] (stack (mvs l')) = hd [] (stack (mvs l))
    /\ gameSeed l' = gameSeed l.
Proof.
  induction n as [|n IH]; intros l HI Hlen.
  - exists l. cbn [Undo_n]. split; [reflexivity|]. split; [exact HI|].
    split; [exact Hlen|]. split; reflexivity.
  - destruct (Undo_Inv l HI) as (l1 & HU & HI1 & Hg & _ & _ & Hm & _).
    assert (Hlt : (1 <? Z.of_nat (length (stack (mvs l)))) = true)
      by (apply Z.ltb_lt; lia).
    rewrite Hlt in Hm.
    assert (Hne : stack (mvs l) <> []) by apply HI.
    pose proof (removelast_length _ Hne) as Hrl.
    destruct (IH l1 HI1) as (l' & HUn & HI' & H1 & Hhd & Hg').
    + rewrite Hm. cbn [stack]. lia.
    + exists l'. cbn [Undo_n]. rewrite HU.
      split; [exact HUn|]. split; [exact HI'|]. split; [exact H1|].
      split; [|congruence].
      rewrite Hhd, Hm. cbn [stack]. apply (@hd_removelast Board). lia.
Qed.

(** X19: from every state a session reaches, undoing as many times as
    there are snapshots above the first one succeeds and ends on the board
    that [NewGame] dealt for the current game seed, with only that
    snapshot left on the history. *)
Theorem X19_undo_back_to_the_deal (seed : Z) (ops : list op) (l : logic) :
  run seed ops = Some l ->
  exists l',
    Undo_n (length (stack (mvs l)) - 1) l = Some l'
    /\ board l' = board (NewGame logic0 (gameSeed l))
    /\ stack (mvs l') = [board l'].
Proof.
  intros Hrun. pose proof (run_Inv_of seed ops l Hrun) as HI.
  assert (Hk : deal_kept l).
  { unfold run in Hrun.
    apply (run_from_deal_kept ops (NewGame logic0 seed) l);
      [apply NewGame_Inv; exact logic0_board | | exact Hrun].
    unfold deal_kept.
    destruct (NewGame_fields logic0 seed) as (_ & Hg & _ & Hm & _).
    rewrite Hg, Hm. reflexivity. }
  assert (Hne : stack (mvs l) <> []) by apply HI.
  destruct (Undo_n_to_bottom (length (stack (mvs l)) - 1) l HI)
    as (l' & HU & HI' & H1 & Hhd & Hg).
  { destruct (stack (mvs l)); [contradiction | cbn [length]; lia]. }
  exists l'. split; [exact HU|].
  destruct HI' as (_ & _ & Hlast & _).
  destruct (stack (mvs l')) as [|b [|b' t]] eqn:Hs; cbn [length] in H1;
    try discriminate H1.
  cbn [last hd] in Hlast, Hhd. subst b.
  split; [|reflexivity]. rewrite Hhd. exact Hk.
Qed.

Lemma X19_undo_back_to_the_deal_witness :
  exists l,
    run 1 opening1 = Some l
    /\ exists l',
         Undo_n (length (stack (mvs l)) - 1) l = Some l'
         /\ board l' = board (NewGame logic0 (gameSeed l))
         /\ stack (mvs l') = [board l'].
Proof.
  eexists. split; [vm_compute; reflexivity|].
  apply (X19_undo_back_to_the_deal 1 opening1). vm_compute. reflexivity.
Defined.

(** ** A selectable card has somewhere to go *)

Lemma countEmptyCells_pos l piles :
  Forall (fun p => 0 <= p <= 15) piles -> 0 < countEmptyCells l piles ->
  exists p, In p piles /\ emptyPile l p = true.
Proof.
  intros Hall Hpos. unfold countEmptyCells in Hpos.
  rewrite countEmptyCells_fold in Hpos by exact Hall.
  destruct (filter (fun p => negb (pile_occupied l p)) piles) as [|p t] eqn:E;
    [cbn [length] in Hpos; lia|].
  assert (Hin : In p (filter (fun p => negb (pile_occupied l p)) piles))
    by (rewrite E; left; reflexivity).
  apply filter_In in Hin. destruct Hin as [Hin Hemp].
  exists p. split; [exact Hin|].
  rewrite emptyPile_spec; [exact Hemp|].
  rewrite Forall_forall in Hall. apply Hall. exact Hin.
Qed.

Lemma lastInCascade_scan_found l k cids :
  (forall c, In c cids -> isCard c = true) ->
  ID (lastInCascade_scan l k cids) <> NO_CARD ->
  exists cid, isCard cid = true /\ isLastInCascade l cid = true
              /\ lastInCascade_scan l k cids = getCard cid.
Proof.
  induction cids as [|c cs IH]; intros Hall Hne; cbn [lastInCascade_scan] in *.
  - exfalso. apply Hne. reflexivity.
  - cbv zeta in *.
    destruct (isLastInCascade l c) eqn:Hlast; cbn [andb] in *.
    + destruct (k =? bget l c mod 8).
      * exists c. assert (Hc : isCard c = true) by (apply Hall; left; reflexivity).
        split; [exact Hc|]. split; [exact Hlast | apply aget_deck; exact Hc].
      * apply IH; [|exact Hne]. intros c' Hin. apply Hall. right. exact Hin.
    + apply IH; [|exact Hne]. intros c' Hin. apply Hall. right. exact Hin.
Qed.

Lemma canMoveToCascade_found l c ks :
  canMoveToCascade_scan l c ks = true ->
  exists cid, isCard cid = true /\ isLastInCascade l cid = true
              /\ nextInSequence (getCard cid) c = true.
Proof.
  induction ks as [|k ks IH]; cbn [canMoveToCascade_scan]; intros H;
    [discriminate H|].
  cbv zeta in H.
  destruct (negb (ID (lastInCascade l k) =? NO_CARD)) eqn:Hne; cbn [andb] in H;
    [|apply IH; exact H].
  destruct (nextInSequence (getCard (ID (lastInCascade l k))) c) eqn:Hseq;
    [|apply IH; exact H].
  apply negb_true_iff, Z.eqb_neq in Hne.
  destruct (lastInCascade_scan_found l k card_ids) as (cid & Hc & Hlast & Heq).
  - intros c' Hin. apply isCard_range, card_ids_In. exact Hin.
  - exact Hne.
  - exists cid. split; [exact Hc|]. split; [exact Hlast|].
    unfold lastInCascade in Hseq. rewrite Heq, (getCard_ID cid Hc) in Hseq.
    exact Hseq.
Qed.

Lemma isLastInCascade_location l cid :
  isLastInCascade l cid = true -> 8 <= bget l cid <= 167.
Proof.
  unfold isLastInCascade, MAX_BOARD_ID. cbv zeta.
  destruct ((8 <=? bget l cid) && (bget l cid <=? 167)) eqn:E;
    [|intros H; discriminate H].
  intros _. apply andb_true_iff in E. rewrite !Z.leb_le in E. exact E.
Qed.

(** With [pick] selected and alone in its run, the selection is [pick]. *)
Lemma GetSelected_single l pick :
  isCard pick = true ->
  (isCascade (bget l pick) = true ->
     cardAt l (wrap (bget l pick + 8)) = NO_CARD) ->
  GetSelected (with_selected l pick) = [pick].
Proof.
  intros Hc Htop. unfold GetSelected. cbv zeta.
  change (isSelectionActive (with_selected l pick)) with (isCard pick).
  rewrite Hc. cbn [negb].
  change (selected (with_selected l pick)) with pick.
  change (bget (with_selected l pick) pick) with (bget l pick).
  destruct (isCascade (bget l pick)); [|reflexivity].
  rewrite (cardAt_same (with_selected l pick) l eq_refl), (Htop eq_refl).
  reflexivity.
Qed.

Lemma canPlaceCard_on_pile l pick p :
  isCard pick = true -> emptyPile l p = true ->
  (0 <= p <= 3 /\ GetSelected (with_selected l pick) = [pick]
   \/ 8 <= p <= 15) ->
  canPlaceCard (with_selected l pick) (EMPTY_PILE1 + p) = true.
Proof.
  intros Hc Hemp Hp. unfold canPlaceCard. cbv zeta.
  assert (Hr : 0 <= p <= 15) by lia.
  replace ((EMPTY_PILE1 <=? EMPTY_PILE1 + p)
           && (EMPTY_PILE1 + p <=? EMPTY_PILE16)) with true
    by (symmetry; unfold EMPTY_PILE1, EMPTY_PILE16;
        apply andb_true_iff; rewrite !Z.leb_le; lia).
  replace (wrap (EMPTY_PILE1 + p - EMPTY_PILE1)) with p
    by (symmetry; replace (EMPTY_PILE1 + p - EMPTY_PILE1) with p by lia;
        apply wrap_small; lia).
  rewrite (emptyPile_same (with_selected l pick) l eq_refl), Hemp.
  destruct Hp as [[Hp Hsel]|Hp].
  - rewrite Hsel.
    replace (isFreecell p) with true
      by (symmetry; unfold isFreecell; apply andb_true_iff;
          rewrite !Z.leb_le; lia).
    reflexivity.
  - replace (isFreecell p) with false
      by (symmetry; unfold isFreecell; apply andb_false_iff; right;
          apply Z.leb_gt; lia).
    replace (isFoundation p) with false
      by (symmetry; unfold isFoundation; apply andb_false_iff; right;
          apply Z.leb_gt; lia).
    replace ((8 <=? p) && (p <=? 15)) with true
      by (symmetry; apply andb_true_iff; rewrite !Z.leb_le; lia).
    reflexivity.
Qed.

Lemma canPlaceCard_on_foundation_pile l pick :
  isCard pick = true -> GetSelected (with_selected l pick) = [pick] ->
  Rank (getCard pick) = ACES ->
  canPlaceCard (with_selected l pick)
    (EMPTY_PILE1 + (Suit (getCard pick) + 4)) = true.
Proof.
  intros Hc Hsel Hace. unfold canPlaceCard. cbv zeta.
  pose proof (getCard_suit pick Hc) as Hs.
  replace ((EMPTY_PILE1 <=? EMPTY_PILE1 + (Suit (getCard pick) + 4))
           && (EMPTY_PILE1 + (Suit (getCard pick) + 4) <=? EMPTY_PILE16))
    with true
    by (symmetry; unfold EMPTY_PILE1, EMPTY_PILE16;
        apply andb_true_iff; rewrite !Z.leb_le; lia).
  replace (wrap (EMPTY_PILE1 + (Suit (getCard pick) + 4) - EMPTY_PILE1))
    with (Suit (getCard pick) + 4)
    by (symmetry;
        replace (EMPTY_PILE1 + (Suit (getCard pick) + 4) - EMPTY_PILE1)
          with (Suit (getCard pick) + 4) by lia;
        apply wrap_small; lia).
  rewrite Hsel. cbn [hd].
  replace (isFreecell (Suit (getCard pick) + 4)) with false
    by (symmetry; unfold isFreecell; apply andb_false_iff; right;
        apply Z.leb_gt; lia).
  replace (isFoundation (Suit (getCard pick) + 4)) with true
    by (symmetry; unfold isFoundation; apply andb_true_iff;
        rewrite !Z.leb_le; lia).
  replace (wrap (Suit (getCard pick) + 4 - 4)) with (Suit (getCard pick))
    by (symmetry; replace (Suit (getCard pick) + 4 - 4)
          with (Suit (getCard pick)) by lia; apply wrap_small; lia).
  rewrite Hace, !Z.eqb_refl. reflexivity.
Qed.

Lemma pick_not_pile c :
  isCard c = true -> (EMPTY_PILE1 <=? c) && (c <=? EMPTY_PILE16) = false.
Proof.
  intros Hc. apply isCard_range in Hc. unfold EMPTY_PILE1.
  apply andb_false_iff. left. apply Z.leb_gt. lia.
Qed.

Lemma canPlaceCard_on_foundation_card l pick top :
  isCard pick = true -> GetSelected (with_selected l pick) = [pick] ->
  isCard top = true -> bget l top = Suit (getCard pick) + 4 ->
  isNextInFoundation (Suit (getCard pick)) (getCard top) (getCard pick) = true ->
  canPlaceCard (with_selected l pick) top = true.
Proof.
  intros Hc Hsel Ht Hb Hnext. unfold canPlaceCard. cbv zeta.
  pose proof (getCard_suit pick Hc) as Hs.
  rewrite (pick_not_pile top Ht), Ht, Hsel. cbn [hd].
  change (bget (with_selected l pick) top) with (bget l top). rewrite Hb.
  replace (isFoundation (Suit (getCard pick) + 4)) with true
    by (symmetry; unfold isFoundation; apply andb_true_iff;
        rewrite !Z.leb_le; lia).
  replace (wrap (Suit (getCard pick) + 4 - 4)) with (Suit (getCard pick))
    by (symmetry; replace (Suit (getCard pick) + 4 - 4)
          with (Suit (getCard pick)) by lia; apply wrap_small; lia).
  exact Hnext.
Qed.

Lemma canPlaceCard_on_cascade_card l pick cid :
  isCard pick = true -> isCard cid = true ->
  isLastInCascade l cid = true ->
  nextInSequence (getCard cid) (getCard pick) = true ->
  canPlaceCard (with_selected l pick) cid = true.
Proof.
  intros Hc Hcid Hlast Hseq. unfold canPlaceCard. cbv zeta.
  destruct (GetSelected_facts (with_selected l pick)) as (_ & Hhd & _).
  destruct (Hhd Hc) as (more & Hsel).
  change (selected (with_selected l pick)) with pick in Hsel.
  pose proof (isLastInCascade_location l cid Hlast) as Hloc.
  rewrite (pick_not_pile cid Hcid), Hcid, Hsel. cbn [hd].
  change (bget (with_selected l pick) cid) with (bget l cid).
  replace (isFoundation (bget l cid)) with false
    by (symmetry; unfold isFoundation; apply andb_false_iff; right;
        apply Z.leb_gt; lia).
  replace (isCascade (bget l cid)) with true
    by (symmetry; unfold isCascade, MAX_BOARD_ID; apply andb_true_iff;
        rewrite !Z.leb_le; lia).
  rewrite (isLastInCascade_same (with_selected l pick) l eq_refl), Hlast.
  exact Hseq.
Qed.

(** X20: a card that [canSelectCard] accepts has somewhere to go: once it
    is selected, [canPlaceCard] accepts at least one target -- an empty
    freecell, a foundation pile or foundation top, an empty cascade, or the
    top card of a cascade. *)
Theorem X20_selectable_card_has_a_target (l : logic) (pick : Z) :
  canSelectCard l pick = true ->
  exists target, canPlaceCard (with_selected l pick) target = true.
Proof.
  intros Hsel.
  destruct (canSelectCard_location l pick Hsel) as [Hc Hloc].
  destruct (getSequence_facts l pick Hc)
    as (Hshape & _ & _ & _ & Hcas & Hfree).
  unfold canSelectCard in Hsel. cbv zeta in Hsel.
  rewrite Hc, Hloc in Hsel. cbn [negb] in Hsel.
  destruct (isFoundation (bget l pick)); [discriminate Hsel|].
  destruct (Z.leb_spec (len (getSequence l pick)) 0) as [Hz|Hpos];
    [discriminate Hsel|].
  destruct Hshape as [Hnil|(more & Hseq)];
    [rewrite Hnil in Hpos; cbn in Hpos; lia|].
  assert (Hne : getSequence l pick <> []) by (rewrite Hseq; discriminate).
  rewrite Hseq in Hsel. cbn [hd] in Hsel.
  (* the card is alone in its run *)
  assert (Hsingle : len (pick :: more) = 1 ->
            GetSelected (with_selected l pick) = [pick]).
  { intros H1. apply (GetSelected_single l pick Hc). intros Hcascade.
    destruct (Hcas Hcascade Hne) as [Htop _]. rewrite Hseq in Htop.
    destruct more as [|x more']; [exact Htop|].
    unfold len in H1. cbn [length] in H1. lia. }
  destruct (Z.eqb_spec (len (pick :: more)) 1) as [H1|Hlong].
  - specialize (Hsingle H1).
    destruct (Z.ltb_spec 0 (emptyFreeCells l)) as [Hfc|Hnofc].
    { destruct (countEmptyCells_pos l [0; 1; 2; 3]) as (p & Hin & Hemp);
        [repeat constructor; lia | exact Hfc|].
      exists (EMPTY_PILE1 + p). apply canPlaceCard_on_pile; try assumption.
      left. split; [|exact Hsingle].
      cbn [In] in Hin. lia. }
    destruct (emptyPile l (Suit (getCard pick) + 4)
              && (Rank (getCard pick) =? ACES)) eqn:Hace.
    { apply andb_true_iff in Hace. destruct Hace as [_ Hace].
      apply Z.eqb_eq in Hace.
      eexists. apply canPlaceCard_on_foundation_pile; assumption. }
    destruct (isNextInFoundation (Suit (getCard pick))
                (getCard (cardAt l (Suit (getCard pick) + 4))) (getCard pick))
      eqn:Hnext.
    { destruct (cardAt_cases l (Suit (getCard pick) + 4)) as [Hno|[Ht Hb]].
      - rewrite Hno in Hnext. unfold isNextInFoundation in Hnext.
        destruct (SPD <? Suit (getCard pick)); [discriminate Hnext|].
        cbv zeta in Hnext.
        change (ID (getCard NO_CARD) =? NO_CARD) with true in Hnext.
        cbn [negb andb orb] in Hnext. rewrite orb_false_r in Hnext.
        apply andb_true_iff in Hnext. destruct Hnext as [_ Hrank].
        apply Z.eqb_eq in Hrank.
        eexists. apply canPlaceCard_on_foundation_pile; assumption.
      - eexists. apply (canPlaceCard_on_foundation_card l pick _ Hc Hsingle Ht Hb).
        exact Hnext. }
    destruct (Z.ltb_spec 0 (emptyCascades l)) as [Hec|Hnoec].
    { destruct (countEmptyCells_pos l [8; 9; 10; 11; 12; 13; 14; 15])
        as (p & Hin & Hemp); [repeat constructor; lia | exact Hec|].
      exists (EMPTY_PILE1 + p). apply canPlaceCard_on_pile; try assumption.
      right. cbn [In] in Hin. lia. }
    destruct (canMoveToCascade_found l (getCard pick) _ Hsel)
      as (cid & Hcid & Hlast & Hnxt).
    exists cid. apply canPlaceCard_on_cascade_card; assumption.
  - destruct (Z.ltb_spec 0 (emptyCascades l)) as [Hec|Hnoec].
    { destruct (countEmptyCells_pos l [8; 9; 10; 11; 12; 13; 14; 15])
        as (p & Hin & Hemp); [repeat constructor; lia | exact Hec|].
      exists (EMPTY_PILE1 + p). apply canPlaceCard_on_pile; try assumption.
      right. cbn [In] in Hin. lia. }
    destruct (canMoveToCascade_found l (getCard pick) _ Hsel)
      as (cid & Hcid & Hlast & Hnxt).
    exists cid. apply canPlaceCard_on_cascade_card; assumption.
Qed.

Lemma X20_selectable_card_has_a_target_witness :
  canSelectCard (NewGame logic0 1) 28 = true
  /\ exists target,
       canPlaceCard (with_selected (NewGame logic0 1) 28) target = true.
Proof.
  assert (H : canSelectCard (NewGame logic0 1) 28 = true)
    by (vm_compute; reflexivity).
  split; [exact H|].
  exact (X20_selectable_card_has_a_target (NewGame logic0 1) 28 H).
Defined.

(** ** Where the moved cards land *)

Lemma is_run_nth l v :
  is_run l v -> forall k, (k < length v)%nat ->
  bget l (nth k v 0) = bget l (hd 0 v) + 8 * Z.of_nat k.
Proof.
  induction v as [|a rest IH]; intros Hrun k Hk; cbn [length] in Hk; [lia|].
  destruct k as [|k]; [cbn [nth hd]; lia|].
  destruct rest as [|b r]; [cbn [length] in Hk; lia|].
  change (is_run l (a :: b :: r))
    with (stacked_on l a b /\ is_run l (b :: r)) in Hrun.
  destruct Hrun as [[Hab _] Hrest].
  change (nth (S k) (a :: b :: r) 0) with (nth k (b :: r) 0).
  rewrite (IH Hrest k) by (cbn [length] in *; lia).
  cbn [hd]. rewrite Hab. lia.
Qed.

Lemma is_run_NoDup l v : is_run l v -> NoDup v.
Proof.
  induction v as [|a rest IH]; intros Hrun; [constructor|].
  destruct rest as [|b r]; [constructor; [intros []|constructor]|].
  change (is_run l (a :: b :: r))
    with (stacked_on l a b /\ is_run l (b :: r)) in Hrun.
  destruct Hrun as [[Hab _] Hrest].
  constructor; [|exact (IH Hrest)].
  intros Hin. destruct (In_nth _ _ 0 Hin) as (k & Hk & Hnth).
  pose proof (is_run_nth l (b :: r) Hrest k Hk) as Hpos.
  rewrite Hnth in Hpos. cbn [hd] in Hpos. lia.
Qed.

Lemma place_rest_lands rest : forall l prev d,
  length (board l) = 52%nat -> NoDup (prev :: rest) ->
  isCard prev = true -> (forall x, In x rest -> isCard x = true) ->
  bget l prev = d -> 0 <= d ->
  d + 8 * Z.of_nat (length rest) < 18446744073709551616 ->
  bget (place_rest l prev rest) prev = d
  /\ forall k, (k < length rest)%nat ->
       bget (place_rest l prev rest) (nth k rest 0)
       = d + 8 * (Z.of_nat k + 1).
Proof.
  induction rest as [|x r IH]; intros l prev d H52 Hnd Hp Hcards Hd Hd0 Hhi;
    cbn [place_rest].
  - split; [exact Hd|]. intros k Hk. cbn [length] in Hk. lia.
  - inversion Hnd as [|? ? Hnotin Hnd']; subst.
    assert (Hx : isCard x = true) by (apply Hcards; left; reflexivity).
    assert (Hpx : prev <> x) by (intros E; apply Hnotin; left; symmetry; exact E).
    pose proof Hp as Hp'. apply isCard_range in Hp'.
    pose proof Hx as Hx'. apply isCard_range in Hx'.
    cbn [length] in Hhi.
    rewrite wrap_small by lia.
    destruct (IH (bset l x (bget l prev + 8)) x (bget l prev + 8))
      as [I1 I2].
    + autorewrite with fields. rewrite aset_length. exact H52.
    + exact Hnd'.
    + exact Hx.
    + intros y Hin. apply Hcards. right. exact Hin.
    + unfold bget. autorewrite with fields.
      apply aget_aset_same. rewrite H52. lia.
    + lia.
    + lia.
    + split.
      * rewrite place_rest_other.
        -- unfold bget. autorewrite with fields.
           apply aget_aset_other; lia.
        -- lia.
        -- intros Hin. apply Hnotin. right. exact Hin.
        -- intros y Hin.
           assert (Hy : isCard y = true) by (apply Hcards; right; exact Hin).
           apply isCard_range in Hy. lia.
      * intros k Hk. destruct k as [|k].
        -- cbn [nth]. rewrite I1. lia.
        -- cbn [nth]. rewrite I2 by (cbn [length] in Hk; lia). lia.
Qed.

Lemma place_seq_lands l seq dest :
  length (board l) = 52%nat -> NoDup seq ->
  (forall x, In x seq -> isCard x = true) ->
  0 <= dest -> dest + 8 * Z.of_nat (length seq) < 18446744073709551616 ->
  forall k, (k < length seq)%nat ->
    bget (place_seq l seq dest) (nth k seq 0) = dest + 8 * Z.of_nat k.
Proof.
  intros H52 Hnd Hcards Hd0 Hhi k Hk.
  destruct seq as [|c0 rest]; [cbn [length] in Hk; lia|].
  cbn [place_seq].
  assert (Hc0 : isCard c0 = true) by (apply Hcards; left; reflexivity).
  pose proof Hc0 as Hc0'. apply isCard_range in Hc0'.
  cbn [length] in Hhi.
  destruct (place_rest_lands rest (bset l c0 dest) c0 dest) as [P1 P2].
  - autorewrite with fields. rewrite aset_length. exact H52.
  - exact Hnd.
  - exact Hc0.
  - intros x Hin. apply Hcards. right. exact Hin.
  - unfold bget. autorewrite with fields.
    apply aget_aset_same. rewrite H52. lia.
  - exact Hd0.
  - lia.
  - destruct k as [|k]; cbn [nth].
    + rewrite P1. lia.
    + rewrite P2 by (cbn [length] in Hk; lia). lia.
Qed.

Lemma Interact_lands l pick k :
  length (board l) = 52%nat ->
  snd (Interact l pick) = true ->
  (k < length (GetSelected l))%nat ->
  bget (fst (Interact l pick)) (nth k (GetSelected l) 0)
  = move_destination l pick + 8 * Z.of_nat k.
Proof.
  intros H52 Hmoved Hk.
  destruct (isSelectionActive l) eqn:Hact;
    [|rewrite (Interact_unselected l pick Hact) in Hmoved;
      discriminate Hmoved].
  destruct (GetSelected_facts l) as (_ & Hhd & Hlen & Hrun & Hcards).
  destruct (Hhd Hact) as (more & Hseq).
  pose proof (is_run_NoDup l _ Hrun) as Hnd.
  assert (Hs : 0 <= selected l <= 51) by (apply isCard_range; exact Hact).
  assert (Hone : forall l' v,
             length (board l') = 52%nat ->
             (len (GetSelected l) =? 1) = true ->
             bget (record_board (bset l' (selected l) v))
                  (nth k (GetSelected l) 0)
             = v + 8 * Z.of_nat k).
  { intros l' v Hl' H1. apply Z.eqb_eq in H1. unfold len in H1.
    rewrite Hseq in H1, Hk |- *. cbn [length] in H1, Hk.
    assert (Ek : k = 0%nat) by lia. subst k. cbn [nth].
    unfold bget. autorewrite with fields.
    rewrite aget_aset_same by (rewrite Hl'; lia). lia. }
  assert (Hmany : forall d, 0 <= d <= 200 ->
             bget (record_board
                     (place_seq (clearSelected l) (GetSelected l) d))
                  (nth k (GetSelected l) 0)
             = d + 8 * Z.of_nat k).
  { intros d Hd.
    change (bget (record_board
                    (place_seq (clearSelected l) (GetSelected l) d))
                 (nth k (GetSelected l) 0))
      with (bget (place_seq (clearSelected l) (GetSelected l) d)
                 (nth k (GetSelected l) 0)).
    apply place_seq_lands; try assumption; lia. }
  revert Hmoved. unfold Interact, canInteract, move_destination.
  rewrite Hact.
  destruct (canPlaceCard l pick); cbn [negb].
  2: { destruct (negb (pick =? selected l));
         [destruct (isCard pick && _)|]; cbn [snd]; intros H; discriminate H. }
  cbv zeta. rewrite (getCard_ID (selected l) Hact).
  destruct ((EMPTY_PILE1 <=? pick) && (pick <=? EMPTY_PILE16)) eqn:Hpile.
  - apply andb_true_iff in Hpile. rewrite !Z.leb_le in Hpile.
    unfold EMPTY_PILE1, EMPTY_PILE16 in *.
    rewrite (wrap_small (pick - 100)) by lia.
    destruct (isFreecell (pick - 100) && (len (GetSelected l) =? 1))
      eqn:Hfc.
    + apply andb_true_iff in Hfc.
      destruct (emptyPile _ _); cbn [fst snd]; intros H; [|discriminate H].
      apply Hone; [exact H52 | apply Hfc].
    + destruct (isFoundation (pick - 100) && (len (GetSelected l) =? 1))
        eqn:Hfd.
      * apply andb_true_iff in Hfd.
        destruct (Suit _ =? _); [destruct (emptyPile _ _ && _)|];
          cbn [fst snd]; intros H; try discriminate H.
        apply Hone; [exact H52 | apply Hfd].
      * destruct ((8 <=? pick - 100) && (pick - 100 <=? 15));
          [destruct (emptyPile _ _); [destruct (_ <? _)|]|];
          cbn [fst snd]; intros H; try discriminate H.
        apply Hmany. lia.
  - destruct (isCard pick) eqn:Hp; [|cbn [snd]; intros H; discriminate H].
    rewrite (getCard_ID pick Hp).
    change (bget (clearSelected l) pick) with (bget l pick).
    destruct (isFoundation (bget l pick)) eqn:Hf; cbn [andb].
    + destruct (len (GetSelected l) =? 1) eqn:H1.
      * destruct (Rank (getCard (selected l)) =? Rank (getCard pick) + 1);
          cbn [fst snd]; intros H; [|discriminate H].
        apply Hone; [|reflexivity].
        exact (eq_trans (aset_length (board l) pick _) H52).
      * destruct (isCascade (bget l pick)) eqn:Hc.
        -- unfold isFoundation in Hf. unfold isCascade in Hc.
           apply andb_true_iff in Hf. apply andb_true_iff in Hc.
           rewrite !Z.leb_le in Hf, Hc. lia.
        -- cbn [snd]. intros H. discriminate H.
    + destruct (isCascade (bget l pick)) eqn:Hc;
        [|cbn [snd]; intros H; discriminate H].
      unfold isCascade, MAX_BOARD_ID in Hc.
      apply andb_true_iff in Hc. rewrite !Z.leb_le in Hc.
      rewrite (wrap_small (bget l pick + 8)) by lia.
      destruct (nextInSequence _ _); cbn [fst snd]; intros H;
        [|discriminate H].
      apply Hmany. lia.
Qed.

(** X21: when [Interact] commits a move, the cards of the selected run
    land, in order, one row apart starting at the destination: the chosen
    pile, the foundation slot of the picked top card, or the row above the
    picked cascade card. *)
Theorem X21_Interact_lands_on_destination
  (l : logic) (pick : Z) (l1 : logic) (k : nat) :
  length (board l) = 52%nat ->
  Interact l pick = (l1, true) ->
  (k < length (GetSelected l))%nat ->
  bget l1 (nth k (GetSelected l) 0)
  = move_destination l pick + 8 * Z.of_nat k.
Proof.
  intros H52 Hint Hk.
  pose proof (Interact_lands l pick k H52) as H.
  rewrite Hint in H. cbn [fst snd] in H. apply H; [reflexivity | exact Hk].
Qed.

Lemma X21_Interact_lands_on_destination_witness :
  length (board game1_picked) = 52%nat
  /\ Interact game1_picked 100 = (game1_moved, true)
  /\ (0 < length (GetSelected game1_picked))%nat
  /\ bget game1_moved (nth 0 (GetSelected game1_picked) 0)
     = move_destination game1_picked 100 + 8 * Z.of_nat 0.
Proof.
  assert (H0 : length (board game1_picked) = 52%nat)
    by (vm_compute; reflexivity).
  assert (H1 : Interact game1_picked 100 = (game1_moved, true))
    by (vm_compute; reflexivity).
  assert (H2 : (0 < length (GetSelected game1_picked))%nat).
  { replace (GetSelected game1_picked) with [28] by (vm_compute; reflexivity).
    cbn [length]. lia. }
  split; [exact H0|]. split; [exact H1|]. split; [exact H2|].
  exact (X21_Interact_lands_on_destination
           game1_picked 100 game1_moved 0 H0 H1 H2).
Defined.
